(** * Camera manager of the splat viewer: a shallow embedding of
      [src/camera-manager.ts] and the properties of its specification.

    JavaScript numbers are IEEE-754 binary64 values; they are embedded as
    Rocq's primitive floats, whose operations are the same binary64
    operations.  Array indices and the selected dataset index are integers
    and are embedded in [Z].  Sort keys are integer-valued numbers or
    non-finite values and are embedded in the small type [num]. *)

From Stdlib Require Import ZArith Floats List Bool Lia String Ascii.
From Stdlib Require Import Sorted Permutation OrdersEx RelationClasses.
Import ListNotations.

Set Warnings "-inexact-float".
Local Open Scope Z_scope.

(* ================================================================== *)
(** * Part I.  The embedding                                            *)
(* ================================================================== *)

(** ** JavaScript [Math] on binary64 numbers *)

Definition Math_PI : float := 0x1.921fb54442d18p+1%float.

(** [Math.max(x, y)]: NaN if either argument is NaN; +0 is larger than -0. *)
Definition Math_max (x y : float) : float :=
  if is_nan x || is_nan y then nan
  else if (x <? y)%float then y
  else if (y <? x)%float then x
  else if get_sign x then y else x.

(** [Math.min(x, y)]: NaN if either argument is NaN; -0 is smaller than +0. *)
Definition Math_min (x y : float) : float :=
  if is_nan x || is_nan y then nan
  else if (x <? y)%float then x
  else if (y <? x)%float then y
  else if get_sign x then x else y.

Definition Math_abs (x : float) : float := abs x.
Definition Math_sqrt (x : float) : float := sqrt x.

(** [a > b] on numbers. *)
Definition gtb (a b : float) : bool := (b <? a)%float.
(** [a >= b] on numbers. *)
Definition geb (a b : float) : bool := (b <=? a)%float.

(** ** PlayCanvas [Vec3] (the three methods the camera manager calls on
       plain vectors) *)

Module Vec3.
Record t : Set := mk { x : float; y : float; z : float }.

Definition ZERO : t := mk 0 0 0.

(** [this.x * rhs.x + this.y * rhs.y + this.z * rhs.z] *)
Definition dot (a b : t) : float :=
  (x a * x b + y a * y b + z a * z b)%float.

(** [Math.sqrt(dx * dx + dy * dy + dz * dz)] of the component differences *)
Definition distance (a b : t) : float :=
  let dx := (x a - x b)%float in
  let dy := (y a - y b)%float in
  let dz := (z a - z b)%float in
  Math_sqrt (dx * dx + dy * dy + dz * dz)%float.

Definition length (a : t) : float :=
  Math_sqrt (x a * x a + y a * y a + z a * z a)%float.

Definition add (a b : t) : t :=
  mk (x a + x b)%float (y a + y b)%float (z a + z b)%float.

Definition mulScalar (a : t) (scalar : float) : t :=
  mk (x a * scalar)%float (y a * scalar)%float (z a * scalar)%float.

(** [normalize()]: scales by [1 / sqrt(lengthSq)] when [lengthSq > 0],
    and leaves the vector as it is otherwise. *)
Definition normalize (a : t) : t :=
  let lengthSq := (x a * x a + y a * y a + z a * z a)%float in
  if gtb lengthSq 0 then
    let invLength := (1 / Math_sqrt lengthSq)%float in
    mk (x a * invLength)%float (y a * invLength)%float (z a * invLength)%float
  else a.
End Vec3.

(** ** The camera pose

    The fields of [Camera] that the camera manager reads and writes.  The
    class itself lives in [cameras/camera.ts]. *)

Record Camera : Set := mkCamera {
  position : Vec3.t;
  angles : Vec3.t;
  fov : float
}.

(** Modelled from the spec: [Camera.copy] of [cameras/camera.ts], which is
    not among the sources.  Section 4.1 lists [copy(other)] among the pose
    operations and section 3 says a pose is "copied by value": the receiver
    takes every field of the source. *)
Definition Camera_copy (this source : Camera) : Camera := source.

Definition set_fov (c : Camera) (f : float) : Camera :=
  mkCamera (position c) (angles c) f.

Inductive CameraMode : Set := orbit | anim | fly.

Definition CameraMode_eqb (a b : CameraMode) : bool :=
  match a, b with
  | orbit, orbit | anim, anim | fly, fly => true
  | _, _ => false
  end.

(** ** Transform frames *)

(** A row of [transform_matrix] as it arrives from JSON: an array of
    numbers, or something that is not an array. *)
Inductive MatrixRow : Set :=
| RowArray (cells : list float)
| RowOther.

(** The value of [transform_matrix]: an array of rows, or some other value. *)
Inductive MatrixValue : Set :=
| MatArray (rows : list MatrixRow)
| MatOther.

(** Sort keys: a JavaScript number (a binary64) that is an integer, or one
    of the non-finite values.  [Fin z] stands for the double that holds the
    integer [z]; the numbers the code computes are built with [Number_of_Z],
    which rounds to a double. *)
Inductive num : Set :=
| Fin (z : Z)
| PosInf
| NegInf
| NotANumber.

Record TransformFrame : Set := mkFrame {
  file_path : option string;
  colmap_im_id : option Z;
  transform_matrix : option MatrixValue;
  sort_key : option num
}.

(** [PreparedTransformFrame] *)
Module Prepared.
Record t : Set := mk {
  frame : TransformFrame;
  camera : Camera;
  position : Vec3.t;
  forward : Vec3.t;
  fov : float
}.
End Prepared.

(** The payload of a [transformFrame:selected] event. *)
Record Selected : Set := mkSelected {
  index : Z;
  count : Z;
  filePath : option string;
  colmapImId : option Z
}.

(** What the camera manager does that its callers can observe: a run of
    the nearest-frame matcher, and a fired [transformFrame:selected]. *)
Inductive Effect : Set :=
| MatcherInvoked
| Fired (selection : Selected).

(** PlayCanvas [BoundingBox]: the two fields the camera manager reads. *)
Record BoundingBox : Set := mkBoundingBox {
  center : Vec3.t;
  halfExtents : Vec3.t
}.

(** ** What the camera manager imports

    [Math.acos] is implementation-approximated in ECMAScript, the string
    collation of [localeCompare] belongs to the host, and the camera class,
    the controllers, the easing curve and PlayCanvas's [Quat] and [Mat4] are
    outside [camera-manager.ts].  They are the fields of one interface. *)

Class Host : Type := {
  Math_acos : float -> float;
  Math_sin : float -> float;
  (** [a.localeCompare(b)] as an integer: negative, zero or positive *)
  localeCompare : string -> string -> Z;
  (** [new Camera()] *)
  Camera_new : Camera;
  (** [camera.look(from, to)] *)
  Camera_look : Camera -> Vec3.t -> Vec3.t -> Camera;
  (** [camera.lerp(a, b, t)] *)
  Camera_lerp : Camera -> Camera -> Camera -> float -> Camera;
  easeOut : float -> float;
  (** [tmpQuat.setFromEulerAngles(angles).transformVector(Vec3.FORWARD, out)] *)
  Quat_forward : Vec3.t -> Vec3.t;
  Mat4 : Type;
  Mat4_transformPoint : Mat4 -> Vec3.t -> Vec3.t;
  Mat4_transformVector : Mat4 -> Vec3.t -> Vec3.t;
  (** the state of a camera controller, the input frame handed to it, and
      its methods *)
  Controller : Type;
  InputFrame : Type;
  Controller_update : Controller -> float -> InputFrame -> Camera -> Controller * Camera;
  (** [controller.onEnter(camera)] and [controller.onExit(camera)] are
      handed the live camera and may move it: each returns the controller
      and the camera it leaves *)
  Controller_onEnter : Controller -> Camera -> Controller * Camera;
  Controller_onExit : Controller -> Camera -> Controller * Camera;
  Controller_goto : Controller -> Camera -> Controller;
  (** [controllers.anim.animState.cursor.value], read and written *)
  Anim_cursor_value : Controller -> float;
  Anim_set_cursor_value : Controller -> float -> Controller;
  (** [controllers.anim.animState.cursor.duration] *)
  Anim_cursor_duration : Controller -> float;
  (** animation tracks, [createRotateTrack] and the three constructors *)
  AnimTrack : Type;
  createRotateTrack : Vec3.t -> Vec3.t -> float -> AnimTrack;
  Camera_calcFocusPoint : Camera -> Vec3.t;
  OrbitController_new : Controller;
  FlyController_new : Controller;
  AnimController_new : AnimTrack -> Controller;
  (** [bbox.containsPoint(point)] *)
  BoundingBox_containsPoint : BoundingBox -> Vec3.t -> bool
}.

Section Manager.
Context {host : Host}.

(** [cameraForwardFromAngles(camera, out)] *)
Definition cameraForwardFromAngles (camera : Camera) : Vec3.t :=
  Vec3.normalize (Quat_forward (angles camera)).

Definition Array_isArray_rows (m : option MatrixValue) : bool :=
  match m with Some (MatArray _) => true | _ => false end.

Definition rows_of (m : option MatrixValue) : list MatrixRow :=
  match m with Some (MatArray rows) => rows | _ => [] end.

Definition Array_isArray_row (r : option MatrixRow) : bool :=
  match r with Some (RowArray _) => true | _ => false end.

Definition row_length (r : option MatrixRow) : Z :=
  match r with Some (RowArray cells) => Z.of_nat (List.length cells) | _ => 0 end.

(** [m[i][j]]; the guard of [frameToCamera] makes the default unreachable. *)
Definition cell (m : list MatrixRow) (i j : nat) : float :=
  match nth_error m i with
  | Some (RowArray cells) => nth j cells nan
  | _ => nan
  end.

(** The guard of [frameToCamera]: the disjunction under which it returns
    [null]. *)
Definition malformed_matrix (m : option MatrixValue) : bool :=
  let rows := rows_of m in
  negb (Array_isArray_rows m) || (Z.of_nat (List.length rows) <? 3) ||
  negb (Array_isArray_row (nth_error rows 0)) || (row_length (nth_error rows 0) <? 4) ||
  negb (Array_isArray_row (nth_error rows 1)) || (row_length (nth_error rows 1) <? 4) ||
  negb (Array_isArray_row (nth_error rows 2)) || (row_length (nth_error rows 2) <? 4).

Definition frameToCamera (f : TransformFrame) (fov : float)
    (worldRotation : option Mat4) : option Camera :=
  if malformed_matrix (transform_matrix f) then None
  else
    let m := rows_of (transform_matrix f) in
    let tmpFramePosition := Vec3.mk (cell m 0 3) (cell m 1 3) (cell m 2 3) in
    let tmpFrameForward :=
      Vec3.normalize (Vec3.mk (- cell m 0 2)%float (- cell m 1 2)%float (- cell m 2 2)%float) in
    let '(tmpFramePosition, tmpFrameForward) :=
      match worldRotation with
      | Some r => (Mat4_transformPoint r tmpFramePosition,
                   Vec3.normalize (Mat4_transformVector r tmpFrameForward))
      | None => (tmpFramePosition, tmpFrameForward)
      end in
    let tmpFrameTarget := Vec3.add tmpFramePosition tmpFrameForward in
    let result := Camera_look Camera_new tmpFramePosition tmpFrameTarget in
    Some (set_fov result fov).

(** ** The sort key of a frame

    [extractFrameSortKey] matches the file path against
    [/frame_(\d+)(?:\.[^./\\]+)?$/i] and parses the captured digits. *)

Definition is_digit (c : ascii) : bool :=
  let n := nat_of_ascii c in (48 <=? n)%nat && (n <=? 57)%nat.

(** Case folding of the [i] flag on the ASCII letters of the pattern. *)
Definition to_lower (c : ascii) : ascii :=
  let n := nat_of_ascii c in
  if (65 <=? n)%nat && (n <=? 90)%nat then ascii_of_nat (n + 32) else c.

(** [[^./\\]] *)
Definition ext_char (c : ascii) : bool :=
  negb (Ascii.eqb c "."%char || Ascii.eqb c "/"%char || Ascii.eqb c "\"%char).

(** The pattern's literal, [frame_], as a list of characters. *)
Definition frame_literal : list ascii := list_ascii_of_string "frame_".

(** A literal under the [i] flag: returns what follows it. *)
Fixpoint strip_literal_ci (lit s : list ascii) : option (list ascii) :=
  match lit, s with
  | [], _ => Some s
  | a :: lit', c :: s' =>
      if Ascii.eqb (to_lower c) a then strip_literal_ci lit' s' else None
  | _ :: _, [] => None
  end.

(** [(\d+)] is greedy: the longest run of digits and the rest. *)
Fixpoint span_digits (s : list ascii) : list ascii * list ascii :=
  match s with
  | c :: s' =>
      if is_digit c then let '(ds, rest) := span_digits s' in (c :: ds, rest)
      else ([], s)
  | [] => ([], [])
  end.

(** [(?:\.[^./\\]+)?$]: nothing, or a dot and one or more characters none of
    which is a dot, a slash or a backslash, up to the end of the string. *)
Definition optional_extension_then_end (s : list ascii) : bool :=
  match s with
  | [] => true
  | c :: e =>
      Ascii.eqb c "."%char &&
      match e with [] => false | _ => forallb ext_char e end
  end.

(** The pattern tried at the start of [s]: the captured digits. *)
Definition match_here (s : list ascii) : option (list ascii) :=
  match strip_literal_ci frame_literal s with
  | Some after =>
      let '(ds, rest) := span_digits after in
      match ds with
      | [] => None
      | _ => if optional_extension_then_end rest then Some ds else None
      end
  | None => None
  end.

(** [filePath.match(...)]: the leftmost position at which the pattern
    matches, and the digits captured there. *)
Fixpoint regex_match (s : list ascii) : option (list ascii) :=
  match match_here s with
  | Some ds => Some ds
  | None =>
      match s with
      | [] => None
      | _ :: s' => regex_match s'
      end
  end.

Definition digit_value (c : ascii) : Z := Z.of_nat (nat_of_ascii c - 48).

Fixpoint parse_digits (acc : Z) (s : list ascii) : Z :=
  match s with
  | [] => acc
  | c :: s' => parse_digits (10 * acc + digit_value c) s'
  end.

(** The double nearest to an integer [z] that is at least 1, as an
    integer: [z] itself below 2^53, and above it [z] rounded to 53
    significant bits, a tie going to the even significand; [None] when the
    rounded value does not fit a double (from 2^1024 - 2^970 on). *)
Definition nearest_double (z : Z) : option Z :=
  if z <? 2 ^ 53 then Some z
  else
    let e := Z.log2 z - 52 in
    let q := z / 2 ^ e in
    let r := z mod 2 ^ e in
    let half := 2 ^ (e - 1) in
    let q' := if r <? half then q
              else if half <? r then q + 1
              else if Z.even q then q else q + 1 in
    if q' * 2 ^ e <? 2 ^ 1024 then Some (q' * 2 ^ e) else None.

(** The Number value for a mathematical integer: round to nearest, ties to
    even, overflow to an infinity. *)
Definition Number_of_Z (z : Z) : num :=
  match z with
  | 0 => Fin 0
  | Z.pos _ => match nearest_double z with Some v => Fin v | None => PosInf end
  | Z.neg _ => match nearest_double (- z) with Some v => Fin (- v) | None => NegInf end
  end.

(** [Number.parseInt(s, 10)] on a string that starts with its digits: the
    Number value for the integer the leading digits spell, NaN when there
    is none.  (ECMAScript lets an implementation drop the digits after the
    twentieth; the engines round the exact integer, as here.) *)
Definition Number_parseInt (s : list ascii) : num :=
  match fst (span_digits s) with
  | [] => NotANumber
  | ds => Number_of_Z (parse_digits 0 ds)
  end.

Definition Number_isNaN (n : num) : bool :=
  match n with NotANumber => true | _ => false end.

(** [frame.file_path ?? ''] *)
Definition path_or_empty (f : TransformFrame) : string :=
  match file_path f with Some p => p | None => EmptyString end.

Definition extractFrameSortKey (f : TransformFrame) : num :=
  let filePath := path_or_empty f in
  match regex_match (list_ascii_of_string filePath) with
  | Some digits =>
      let parsed := Number_parseInt digits in
      if negb (Number_isNaN parsed) then parsed else PosInf
  | None => PosInf
  end.

(** ** Sorting the frames *)

(** [a - b] on sort keys: the difference of two doubles is their exact
    difference, rounded. *)
Definition num_sub (a b : num) : num :=
  match a, b with
  | NotANumber, _ | _, NotANumber => NotANumber
  | Fin p, Fin q => Number_of_Z (p - q)
  | PosInf, PosInf | NegInf, NegInf => NotANumber
  | PosInf, _ | _, NegInf => PosInf
  | NegInf, _ | _, PosInf => NegInf
  end.

(** [d !== 0] *)
Definition num_nonzero (d : num) : bool :=
  match d with Fin 0 => false | _ => true end.

(** [v > 0] *)
Definition num_positive (v : num) : bool :=
  match v with Fin p => 0 <? p | PosInf => true | _ => false end.

(** [a.sort_key] of a frame that went through the [map]. *)
Definition key_of (f : TransformFrame) : num :=
  match sort_key f with Some k => k | None => NotANumber end.

(** The comparator passed to [sort]. *)
Definition compareFrames (a b : TransformFrame) : num :=
  let byFrameNumber := num_sub (key_of a) (key_of b) in
  if num_nonzero byFrameNumber then byFrameNumber
  else Fin (localeCompare (path_or_empty a) (path_or_empty b)).

(** [Array.prototype.sort(comparefn)].  ECMAScript makes the sort stable
    and reads a NaN from the comparator as +0, so for a consistent
    comparator the result is the stable sorted permutation; an insertion
    sort that puts an element before the first one it does not exceed
    computes it. *)
Fixpoint sort_insert {A : Type} (comparefn : A -> A -> num) (a : A) (l : list A) : list A :=
  match l with
  | [] => [a]
  | b :: l' =>
      if num_positive (comparefn a b) then b :: sort_insert comparefn a l'
      else a :: l
  end.

Fixpoint Array_sort {A : Type} (comparefn : A -> A -> num) (l : list A) : list A :=
  match l with
  | [] => []
  | a :: l' => sort_insert comparefn a (Array_sort comparefn l')
  end.

Definition with_sort_key (f : TransformFrame) : TransformFrame :=
  mkFrame (file_path f) (colmap_im_id f) (transform_matrix f)
          (Some (extractFrameSortKey f)).

(** [validTransformFrames]: filter, map, sort. *)
Definition validTransformFrames (transformFrames : list TransformFrame)
    : list TransformFrame :=
  Array_sort compareFrames
    (map with_sort_key
       (filter (fun f => Array_isArray_rows (transform_matrix f)) transformFrames)).

(** The body of the [forEach] that fills [preparedTransformFrames]. *)
Definition prepare_frame (transformsFov : float) (sceneRotation : option Mat4)
    (f : TransformFrame) : option Prepared.t :=
  match frameToCamera f transformsFov sceneRotation with
  | None => None
  | Some camera =>
      Some (Prepared.mk f camera (position camera)
                        (cameraForwardFromAngles camera) (fov camera))
  end.

Fixpoint filter_map {A B : Type} (f : A -> option B) (l : list A) : list B :=
  match l with
  | [] => []
  | a :: l' =>
      match f a with
      | Some b => b :: filter_map f l'
      | None => filter_map f l'
      end
  end.

(** The array [preparedTransformFrames] that the constructor builds.
    [transformsFov] is what [extractTransformsFov] returned and
    [sceneRotation] the matrix made from [getSceneXformDegrees], if any. *)
Definition prepareTransformFrames (transformFrames : list TransformFrame)
    (transformsFov : float) (sceneRotation : option Mat4)
    : list Prepared.t :=
  filter_map (prepare_frame transformsFov sceneRotation)
             (validTransformFrames transformFrames).

(** ** The state of the camera manager *)

(** [global.state], the fields the camera manager touches. *)
Record GlobalState : Set := mkGlobalState {
  cameraMode : CameraMode;
  hasAnimation : bool;
  animationDuration : float;
  animationPaused : bool;
  animationTime : float
}.

(** [controllers]: [anim] is [null] when no animation track was resolved. *)
Record Controllers : Type := mkControllers {
  orbit_controller : Controller;
  fly_controller : Controller;
  anim_controller : option Controller
}.

(** The variables of the transition blender. *)
Record Transition : Set := mkTransition {
  target : Camera;
  from : Camera;
  fromMode : CameraMode;
  transitionTimer : float
}.

(** The variables of the movement detector. *)
Record Settle : Set := mkSettle {
  previousPosition : Vec3.t;
  previousForward : Vec3.t;
  previousFov : float;
  wasMoving : bool;
  settledTime : float
}.

(** Everything the constructor's closures share and mutate.  [this_camera]
    is [this.camera], the displayed pose; [tmpCamera] is the module's
    scratch camera; [trace] lists the observable effects, oldest first. *)
Record Manager : Type := mkManager {
  state : GlobalState;
  this_camera : Camera;
  tmpCamera : Camera;
  controllers : Controllers;
  transition : Transition;
  settle : Settle;
  transformFrameIndex : Z;
  trace : list Effect
}.

Definition set_state (g : GlobalState) (m : Manager) : Manager :=
  mkManager g (this_camera m) (tmpCamera m) (controllers m) (transition m)
            (settle m) (transformFrameIndex m) (trace m).
Definition set_this_camera (c : Camera) (m : Manager) : Manager :=
  mkManager (state m) c (tmpCamera m) (controllers m) (transition m)
            (settle m) (transformFrameIndex m) (trace m).
Definition set_tmpCamera (c : Camera) (m : Manager) : Manager :=
  mkManager (state m) (this_camera m) c (controllers m) (transition m)
            (settle m) (transformFrameIndex m) (trace m).
Definition set_controllers (cs : Controllers) (m : Manager) : Manager :=
  mkManager (state m) (this_camera m) (tmpCamera m) cs (transition m)
            (settle m) (transformFrameIndex m) (trace m).
Definition set_transition (t : Transition) (m : Manager) : Manager :=
  mkManager (state m) (this_camera m) (tmpCamera m) (controllers m) t
            (settle m) (transformFrameIndex m) (trace m).
Definition set_settle (s : Settle) (m : Manager) : Manager :=
  mkManager (state m) (this_camera m) (tmpCamera m) (controllers m) (transition m)
            s (transformFrameIndex m) (trace m).
Definition set_transformFrameIndex (i : Z) (m : Manager) : Manager :=
  mkManager (state m) (this_camera m) (tmpCamera m) (controllers m) (transition m)
            (settle m) i (trace m).
Definition emit (e : Effect) (m : Manager) : Manager :=
  mkManager (state m) (this_camera m) (tmpCamera m) (controllers m) (transition m)
            (settle m) (transformFrameIndex m) (trace m ++ [e]).

(** [state.cameraMode = mode].  The assignment itself; a
    [cameraMode:changed] event reaches the camera manager as the separate
    handler [on_cameraMode_changed]. *)
Definition set_cameraMode (mode : CameraMode) (m : Manager) : Manager :=
  let g := state m in
  set_state (mkGlobalState mode (hasAnimation g) (animationDuration g)
                           (animationPaused g) (animationTime g)) m.
Definition set_animationPaused (b : bool) (m : Manager) : Manager :=
  let g := state m in
  set_state (mkGlobalState (cameraMode g) (hasAnimation g) (animationDuration g)
                           b (animationTime g)) m.
Definition set_animationTime (t : float) (m : Manager) : Manager :=
  let g := state m in
  set_state (mkGlobalState (cameraMode g) (hasAnimation g) (animationDuration g)
                           (animationPaused g) t) m.

Definition set_orbit (c : Controller) (m : Manager) : Manager :=
  let cs := controllers m in
  set_controllers (mkControllers c (fly_controller cs) (anim_controller cs)) m.
Definition set_anim (c : Controller) (m : Manager) : Manager :=
  let cs := controllers m in
  set_controllers (mkControllers (orbit_controller cs) (fly_controller cs) (Some c)) m.

(** [controllers[cameraMode]]: [None] is JavaScript's [null]. *)
Definition getController (cs : Controllers) (mode : CameraMode) : option Controller :=
  match mode with
  | orbit => Some (orbit_controller cs)
  | fly => Some (fly_controller cs)
  | anim => anim_controller cs
  end.

Definition setController (cs : Controllers) (mode : CameraMode) (c : Controller)
    : Controllers :=
  match mode with
  | orbit => mkControllers c (fly_controller cs) (anim_controller cs)
  | fly => mkControllers (orbit_controller cs) c (anim_controller cs)
  | anim => mkControllers (orbit_controller cs) (fly_controller cs) (Some c)
  end.

(** How a handler ends: it returns, or a [TypeError] is thrown on reading a
    property of [null]; either way the mutations made so far stay. *)
Inductive Outcome : Type :=
| Returned (m : Manager)
| TypeError (m : Manager).

Definition final (o : Outcome) : Manager :=
  match o with Returned m | TypeError m => m end.

(** ** The closures of the constructor *)

Section Closures.
Variable bbox : BoundingBox.
Variable preparedTransformFrames : list Prepared.t.
Variable frameCamera : Camera.
Variable resetCamera : Camera.

Definition prepared_length : Z := Z.of_nat (List.length preparedTransformFrames).

(** [preparedTransformFrames[i]] for an index within bounds. *)
Definition prepared_at (i : Z) : option Prepared.t :=
  if i <? 0 then None else nth_error preparedTransformFrames (Z.to_nat i).

Definition emitSelectedTransformFrame (m : Manager) : Manager :=
  if (transformFrameIndex m <? 0) || (transformFrameIndex m >=? prepared_length) then m
  else
    match prepared_at (transformFrameIndex m) with
    | Some p =>
        let selected := Prepared.frame p in
        emit (Fired (mkSelected (transformFrameIndex m) prepared_length
                                (file_path selected) (colmap_im_id selected))) m
    | None => m
    end.

(** ** The nearest-frame matcher *)

Definition sceneScale : float :=
  Math_max 1e-3 (Vec3.length (halfExtents bbox) * 2)%float.

(** The score of one candidate, the body of the loop. *)
Definition score (cam : Camera) (currentForward : Vec3.t) (candidate : Prepared.t)
    : float :=
  let positionDistNorm :=
    (Vec3.distance (position cam) (Prepared.position candidate) / sceneScale)%float in
  let directionDot :=
    Math_max (-1) (Math_min 1 (Vec3.dot currentForward (Prepared.forward candidate))) in
  let directionDiffNorm := (Math_acos directionDot / Math_PI)%float in
  let fovDiffNorm :=
    Math_min 1 (Math_abs (fov cam - Prepared.fov candidate) / 90)%float in
  let behindPenalty := if (directionDot <? 0)%float then 0.5%float else 0%float in
  (positionDistNorm * 0.4 + directionDiffNorm * 0.5 + fovDiffNorm * 0.1
   + behindPenalty)%float.

(** The [for] loop from index [i] on, over the candidates not yet visited. *)
Fixpoint nearest_loop (cam : Camera) (currentForward : Vec3.t)
    (candidates : list Prepared.t) (i bestIndex : Z) (bestScore : float)
    : Z * float :=
  match candidates with
  | [] => (bestIndex, bestScore)
  | candidate :: rest =>
      let s := score cam currentForward candidate in
      if (s <? bestScore)%float
      then nearest_loop cam currentForward rest (i + 1) i s
      else nearest_loop cam currentForward rest (i + 1) bestIndex bestScore
  end.

(** The index the scan settles on; -1 when it settles on none. *)
Definition bestIndex_of (cam : Camera) : Z :=
  fst (nearest_loop cam (cameraForwardFromAngles cam) preparedTransformFrames
                    0 (-1) infinity).

(** [pickNearestFrameForCurrentView(emitSelection)]: the returned index
    and the state it leaves.  ([console.log] is not modelled.) *)
Definition pickNearestFrameForCurrentView (emitSelection : bool) (m : Manager)
    : Z * Manager :=
  let m := emit MatcherInvoked m in
  if prepared_length =? 0 then (-1, m)
  else
    let bestIndex := bestIndex_of (this_camera m) in
    if bestIndex <? 0 then (-1, m)
    else
      let m := set_transformFrameIndex bestIndex m in
      let m := if emitSelection then emitSelectedTransformFrame m else m in
      (bestIndex, m).

(** ** Dataset navigation *)

Definition gotoTransformFrameIndex (index : Z) (m : Manager) : Manager :=
  if (index <? 0) || (index >=? prepared_length) then m
  else
    let m := set_transformFrameIndex index m in
    match prepared_at (transformFrameIndex m) with
    | Some selected =>
        let m := set_cameraMode orbit m in
        let m := set_orbit (Controller_goto (orbit_controller (controllers m))
                                            (Prepared.camera selected)) m in
        emitSelectedTransformFrame m
    | None => m
    end.

(** [stepTransformFrame(step)]; [%] is JavaScript's remainder, [Z.rem]. *)
Definition stepTransformFrame (step : Z) (m : Manager) : Manager :=
  let count := prepared_length in
  if count =? 0 then m
  else
    let advance (m : Manager) : Manager :=
      let m := set_transformFrameIndex
                 (Z.rem (transformFrameIndex m + step + count) count) m in
      gotoTransformFrameIndex (transformFrameIndex m) m in
    if transformFrameIndex m <? 0 then
      let '(nearestIndex, m) := pickNearestFrameForCurrentView true m in
      if nearestIndex <? 0 then m else advance m
    else advance m.

(** ** The transition blender *)

Definition transitionSpeed : float := 1.0%float.

(** [startTransition()]: snapshot the displayed pose, restart the timer. *)
Definition startTransition (m : Manager) : Manager :=
  let t := transition m in
  set_transition
    (mkTransition (target t) (Camera_copy (from t) (this_camera m)) (fromMode t) 0%float) m.

Definition set_target (c : Camera) (m : Manager) : Manager :=
  let t := transition m in
  set_transition (mkTransition c (from t) (fromMode t) (transitionTimer t)) m.
Definition set_fromMode (mode : CameraMode) (m : Manager) : Manager :=
  let t := transition m in
  set_transition (mkTransition (target t) (from t) mode (transitionTimer t)) m.
Definition set_transitionTimer (timer : float) (m : Manager) : Manager :=
  let t := transition m in
  set_transition (mkTransition (target t) (from t) (fromMode t) timer) m.

(** The [if (transitionTimer < 1) ... else ...] of [update]: the pose that
    [this.camera] takes. *)
Definition blend (m : Manager) : Manager :=
  let t := transition m in
  if (transitionTimer t <? 1)%float
  then set_this_camera
         (Camera_lerp (this_camera m) (from t) (target t) (easeOut (transitionTimer t))) m
  else set_this_camera (Camera_copy (this_camera m) (target t)) m.

(** ** The movement detector *)

Definition positionDeltaThreshold : float := 1e-3%float.
Definition angleDeltaThreshold : float := (0.2 * Math_PI / 180)%float.
Definition fovDeltaThreshold : float := 0.01%float.
Definition settleDelaySeconds : float := 0.2%float.

(** [movingNow] from the three deltas. *)
Definition exceeds_threshold (positionDelta angleDelta fovDelta : float) : bool :=
  gtb positionDelta positionDeltaThreshold || gtb angleDelta angleDeltaThreshold
  || gtb fovDelta fovDeltaThreshold.

(** The three deltas of the displayed pose against the previous frame's. *)
Definition pose_deltas (c : Camera) (currentForward : Vec3.t) (s : Settle)
    : float * float * float :=
  let positionDelta := Vec3.distance (position c) (previousPosition s) in
  let dot := Math_max (-1) (Math_min 1 (Vec3.dot (previousForward s) currentForward)) in
  let angleDelta := Math_acos dot in
  let fovDelta := Math_abs (fov c - previousFov s)%float in
  (positionDelta, angleDelta, fovDelta).

Definition movingNow_of (c : Camera) (currentForward : Vec3.t) (s : Settle) : bool :=
  let '(positionDelta, angleDelta, fovDelta) := pose_deltas c currentForward s in
  exceeds_threshold positionDelta angleDelta fovDelta.

(** The [if (movingNow) ... else if (wasMoving) ...] of [update] on the
    two variables it owns: their new values, and whether the matcher is
    called. *)
Definition settle_step (movingNow : bool) (deltaTime : float)
    (wasMoving0 : bool) (settledTime0 : float) : bool * float * bool :=
  if movingNow then (true, 0%float, false)
  else if wasMoving0 then
    let settledTime1 := (settledTime0 + deltaTime)%float in
    if geb settledTime1 settleDelaySeconds then (false, 0%float, true)
    else (true, settledTime1, false)
  else (wasMoving0, settledTime0, false).

(** ** The per-frame update *)

Definition update (deltaTime : float) (inputFrame : InputFrame) (m : Manager)
    : Outcome :=
  let dt :=
    if CameraMode_eqb (cameraMode (state m)) anim && animationPaused (state m)
    then 0%float else deltaTime in
  let m := set_transitionTimer
             (Math_min 1 (transitionTimer (transition m) + deltaTime * transitionSpeed)%float) m in
  match getController (controllers m) (cameraMode (state m)) with
  | None => TypeError m
  | Some controller =>
      let '(controller, target1) :=
        Controller_update controller dt inputFrame (target (transition m)) in
      let m := set_controllers
                 (setController (controllers m) (cameraMode (state m)) controller) m in
      let m := set_target target1 m in
      let m := blend m in
      let m :=
        if CameraMode_eqb (cameraMode (state m)) anim
        then set_animationTime (Anim_cursor_value controller) m else m in
      let currentForward := cameraForwardFromAngles (this_camera m) in
      let movingNow := movingNow_of (this_camera m) currentForward (settle m) in
      let s := settle m in
      let '(wasMoving1, settledTime1, rematch) :=
        settle_step movingNow deltaTime (wasMoving s) (settledTime s) in
      let m := set_settle (mkSettle (previousPosition s) (previousForward s)
                                    (previousFov s) wasMoving1 settledTime1) m in
      let m := if rematch then snd (pickNearestFrameForCurrentView true m) else m in
      let s := settle m in
      Returned
        (set_settle (mkSettle (position (this_camera m)) currentForward
                              (fov (this_camera m)) (wasMoving s) (settledTime s)) m)
  end.

(** ** The event handlers *)

Inductive InputEventName : Set :=
| ev_frame | ev_reset | ev_playPause | ev_cancel | ev_interrupt
| ev_prevTransformFrame | ev_nextTransformFrame
| ev_gotoNearestTransformFrame | ev_gotoCurrentTransformFrame.

(** [events.on('inputEvent', ...)] *)
Definition on_inputEvent (eventName : InputEventName) (m : Manager) : Manager :=
  match eventName with
  | ev_frame =>
      let m := set_cameraMode orbit m in
      let m := set_orbit (Controller_goto (orbit_controller (controllers m)) frameCamera) m in
      startTransition m
  | ev_reset =>
      let m := set_cameraMode orbit m in
      let m := set_orbit (Controller_goto (orbit_controller (controllers m)) resetCamera) m in
      startTransition m
  | ev_playPause =>
      if hasAnimation (state m) then
        if CameraMode_eqb (cameraMode (state m)) anim
        then set_animationPaused (negb (animationPaused (state m))) m
        else set_animationPaused false (set_cameraMode anim m)
      else m
  | ev_cancel | ev_interrupt =>
      if CameraMode_eqb (cameraMode (state m)) anim
      then set_cameraMode (fromMode (transition m)) m else m
  | ev_prevTransformFrame => stepTransformFrame (-1) m
  | ev_nextTransformFrame => stepTransformFrame 1 m
  | ev_gotoNearestTransformFrame =>
      let '(nearestIndex, m) := pickNearestFrameForCurrentView false m in
      if nearestIndex >=? 0 then gotoTransformFrameIndex nearestIndex m else m
  | ev_gotoCurrentTransformFrame =>
      if transformFrameIndex m >=? 0
      then gotoTransformFrameIndex (transformFrameIndex m) m else m
  end.

(** [events.on('cameraMode:changed', (value, prev) => ...)] *)
Definition on_cameraMode_changed (value prev : CameraMode) (m : Manager) : Outcome :=
  let m := startTransition m in
  let m := set_target (Camera_copy (target (transition m)) (this_camera m)) m in
  let m := set_fromMode prev m in
  match getController (controllers m) prev with
  | None => TypeError m
  | Some prevController =>
      let exited := Controller_onExit prevController (this_camera m) in
      let m := set_controllers (setController (controllers m) prev (fst exited)) m in
      let m := set_this_camera (snd exited) m in
      match getController (controllers m) value with
      | None => TypeError m
      | Some newController =>
          let entered := Controller_onEnter newController (this_camera m) in
          let m := set_controllers
                     (setController (controllers m) value (fst entered)) m in
          Returned (set_this_camera (snd entered) m)
      end
  end.

(** [events.on('scrubAnim', (time) => ...)] *)
Definition on_scrubAnim (time : float) (m : Manager) : Outcome :=
  let m := set_cameraMode anim m in
  match anim_controller (controllers m) with
  | None => TypeError m
  | Some a => Returned (set_anim (Anim_set_cursor_value a time) m)
  end.

(** [events.on('pick', (position) => ...)] *)
Definition on_pick (pickPosition : Vec3.t) (m : Manager) : Manager :=
  let m := set_cameraMode orbit m in
  let m := set_tmpCamera (Camera_copy (tmpCamera m) (this_camera m)) m in
  let m := set_tmpCamera
             (Camera_look (tmpCamera m) (position (this_camera m)) pickPosition) m in
  let m := set_orbit (Controller_goto (orbit_controller (controllers m)) (tmpCamera m)) m in
  startTransition m.

(** [events.on('annotation.activate', (annotation) => ...)], on the
    [initial] pose of the annotation's camera. *)
Definition on_annotation_activate (initialPosition initialTarget : Vec3.t)
    (initialFov : float) (m : Manager) : Manager :=
  let m := set_cameraMode orbit m in
  let m := set_tmpCamera (set_fov (tmpCamera m) initialFov) m in
  let m := set_tmpCamera (Camera_look (tmpCamera m) initialPosition initialTarget) m in
  let m := set_orbit (Controller_goto (orbit_controller (controllers m)) (tmpCamera m)) m in
  let m := set_target (set_fov (target (transition m)) (fov (tmpCamera m))) m in
  startTransition m.

End Closures.

(** ** The constructor *)

(** [settings.cameras[0].initial] *)
Record CameraInitial : Set := mkCameraInitial {
  initial_position : Vec3.t;
  initial_target : Vec3.t;
  initial_fov : float
}.

(** The fields of [settings] the constructor reads; [animTracks] is [None]
    when the field is missing. *)
Record Settings : Type := mkSettings {
  camera0 : CameraInitial;
  animTracks : option (list AnimTrack);
  startMode : string;
  hasStartPose : bool
}.

Definition createCamera (p t : Vec3.t) (f : float) : Camera :=
  set_fov (Camera_look Camera_new p t) f.

Definition createFrameCamera (bbox : BoundingBox) (f : float) : Camera :=
  let sceneSize := Vec3.length (halfExtents bbox) in
  let distance := (sceneSize / Math_sin (f / 180 * Math_PI * 0.5))%float in
  createCamera
    (Vec3.add (Vec3.mulScalar (Vec3.normalize (Vec3.mk 2 1 2)) distance) (center bbox))
    (center bbox) f.

Definition getAnimTrack (settings : Settings) (initial : Camera)
    (isObjectExperience : bool) : option AnimTrack :=
  let tracks := match animTracks settings with Some l => l | None => [] end in
  if (0 <? Z.of_nat (List.length tracks)) && String.eqb (startMode settings) "animTrack"
  then nth_error tracks 0
  else if isObjectExperience
  then Some (createRotateTrack (position initial) (Camera_calcFocusPoint initial)
                               (fov initial))
  else None.

Definition constructor_resetCamera (settings : Settings) : Camera :=
  let c0 := camera0 settings in
  createCamera (initial_position c0) (initial_target c0) (initial_fov c0).

Definition constructor_frameCamera (settings : Settings) (bbox : BoundingBox) : Camera :=
  createFrameCamera bbox (initial_fov (camera0 settings)).

(** "object experience starts outside the bounding box" *)
Definition isObjectExperience (settings : Settings) (bbox : BoundingBox) : bool :=
  negb (BoundingBox_containsPoint bbox (position (constructor_resetCamera settings))).

Definition constructor_animTrack (settings : Settings) (bbox : BoundingBox)
    : option AnimTrack :=
  getAnimTrack settings
    (if hasStartPose settings then constructor_resetCamera settings
     else constructor_frameCamera settings bbox)
    (isObjectExperience settings bbox).

(** The state the constructor leaves, from the global state it is given. *)
Definition constructor (g0 : GlobalState) (settings : Settings) (bbox : BoundingBox)
    : Manager :=
  let resetCamera := constructor_resetCamera settings in
  let objectExperience := isObjectExperience settings bbox in
  let animTrack := constructor_animTrack settings bbox in
  let controllers0 :=
    mkControllers OrbitController_new FlyController_new
      (match animTrack with
       | Some track => Some (AnimController_new track)
       | None => None
       end) in
  let hasAnimation1 :=
    match anim_controller controllers0 with Some _ => true | None => false end in
  let animationDuration1 :=
    match anim_controller controllers0 with
    | Some a => Anim_cursor_duration a
    | None => 0%float
    end in
  let cameraMode1 :=
    if hasAnimation1 then anim else if objectExperience then orbit else fly in
  let g1 := mkGlobalState cameraMode1 hasAnimation1 animationDuration1
                          (animationPaused g0) (animationTime g0) in
  let camera1 := Camera_copy Camera_new resetCamera in
  let target1 := Camera_copy Camera_new camera1 in
  let from1 := Camera_copy Camera_new camera1 in
  let fromMode1 := if objectExperience then orbit else fly in
  let entered :=
    match getController controllers0 cameraMode1 with
    | Some c => Some (Controller_onEnter c camera1)
    | None => None
    end in
  let controllers1 :=
    match entered with
    | Some e => setController controllers0 cameraMode1 (fst e)
    | None => controllers0
    end in
  let camera2 := match entered with Some e => snd e | None => camera1 end in
  mkManager g1 camera2 Camera_new controllers1
            (mkTransition target1 from1 fromMode1 1%float)
            (mkSettle (position camera2) (cameraForwardFromAngles camera2)
                      (fov camera2) false 0%float)
            (-1) [].

End Manager.

(** ** The score as the specification words it

    Section 4.4 of the specification gives the score as a formula; this is
    that formula, to be compared with [score], the body of the loop. *)

Definition clamp (v lo hi : float) : float := Math_max lo (Math_min hi v).

Definition spec_score {host : Host} (bbox : BoundingBox)
    (livePos liveForward : Vec3.t) (liveFOV : float) (candidate : Prepared.t) : float :=
  let scale := Math_max 1e-3 (2 * Vec3.length (halfExtents bbox))%float in
  let posTerm := (Vec3.distance livePos (Prepared.position candidate) / scale)%float in
  let d := Vec3.dot liveForward (Prepared.forward candidate) in
  let angle := Math_acos (clamp d (-1) 1) in
  let dirTerm := (angle / Math_PI)%float in
  let fovTerm := Math_min 1 (Math_abs (liveFOV - Prepared.fov candidate) / 90)%float in
  let behindPenalty := if (d <? 0)%float then 0.5%float else 0%float in
  (0.4 * posTerm + 0.5 * dirTerm + 0.1 * fovTerm + behindPenalty)%float.

(** The score of a candidate for the live pose, by the specification's
    formula. *)
Definition live_score {host : Host} (bbox : BoundingBox) (live : Camera)
    (candidate : Prepared.t) : float :=
  spec_score bbox (position live) (cameraForwardFromAngles live) (fov live) candidate.

(** ** A host to run the model on

    A small instance of the interface, for evaluating the model on concrete
    inputs.  Its camera keeps the viewing direction in [angles], its
    controllers steer to the pose they were last sent to, its collation
    compares code units, and its arc cosine is exact at [1] and coarse
    elsewhere. *)

Definition sample_acos (v : float) : float :=
  if is_nan v || (1 <? v)%float || (v <? -1)%float then nan
  else if (v =? 1)%float then 0%float
  else (Math_PI / 2 - (v + v * v * v / 6 + 3 * v * v * v * v * v / 40))%float.

Definition sample_localeCompare (a b : string) : Z :=
  match String_as_OT.compare a b with Lt => -1 | Eq => 0 | Gt => 1 end.

Definition sample_sub (a b : Vec3.t) : Vec3.t :=
  Vec3.mk (Vec3.x a - Vec3.x b)%float (Vec3.y a - Vec3.y b)%float
          (Vec3.z a - Vec3.z b)%float.

Definition sample_look (this : Camera) (p t : Vec3.t) : Camera :=
  mkCamera p (Vec3.normalize (sample_sub t p)) (fov this).

Definition sample_mix (a b t : float) : float := (a + (b - a) * t)%float.

Definition sample_mix3 (a b : Vec3.t) (t : float) : Vec3.t :=
  Vec3.mk (sample_mix (Vec3.x a) (Vec3.x b) t) (sample_mix (Vec3.y a) (Vec3.y b) t)
          (sample_mix (Vec3.z a) (Vec3.z b) t).

Definition sample_lerp (this a b : Camera) (t : float) : Camera :=
  mkCamera (sample_mix3 (position a) (position b) t)
           (sample_mix3 (angles a) (angles b) t)
           (sample_mix (fov a) (fov b) t).

Definition sample_easeOut (t : float) : float := (1 - (1 - t) * (1 - t))%float.

Definition sample_contains (b : BoundingBox) (p : Vec3.t) : bool :=
  let inside (c h v : float) := (abs (v - c) <=? h)%float in
  inside (Vec3.x (center b)) (Vec3.x (halfExtents b)) (Vec3.x p) &&
  inside (Vec3.y (center b)) (Vec3.y (halfExtents b)) (Vec3.y p) &&
  inside (Vec3.z (center b)) (Vec3.z (halfExtents b)) (Vec3.z p).

Definition sample_host : Host := {|
  Math_acos := sample_acos;
  Math_sin := fun v => v;
  localeCompare := sample_localeCompare;
  Camera_new := mkCamera Vec3.ZERO (Vec3.mk 0 0 (-1)) 60;
  Camera_look := sample_look;
  Camera_lerp := sample_lerp;
  easeOut := sample_easeOut;
  Quat_forward := fun a => a;
  Mat4 := unit;
  Mat4_transformPoint := fun _ v => v;
  Mat4_transformVector := fun _ v => v;
  Controller := Camera * float;
  InputFrame := unit;
  Controller_update := fun c dt _ _ => ((fst c, (snd c + dt)%float), fst c);
  Controller_onEnter := fun c cam => ((cam, snd c), cam);
  Controller_onExit := fun c cam => (c, cam);
  Controller_goto := fun c cam => (cam, snd c);
  Anim_cursor_value := snd;
  Anim_set_cursor_value := fun c v => (fst c, v);
  Anim_cursor_duration := fun _ => 10%float;
  AnimTrack := Camera;
  createRotateTrack := fun p t f => sample_look (mkCamera p p f) p t;
  Camera_calcFocusPoint := fun c => Vec3.add (position c) (angles c);
  OrbitController_new := (mkCamera Vec3.ZERO (Vec3.mk 0 0 (-1)) 60, 0%float);
  FlyController_new := (mkCamera Vec3.ZERO (Vec3.mk 0 0 (-1)) 60, 0%float);
  AnimController_new := fun track => (track, 0%float);
  BoundingBox_containsPoint := sample_contains
|}.

(** A frame with the identity rotation at the given position: it looks
    down its -Z axis. *)
Definition frame_at (path : string) (px py pz : float) : TransformFrame :=
  mkFrame (Some path) None
    (Some (MatArray [RowArray [1; 0; 0; px]; RowArray [0; 1; 0; py];
                     RowArray [0; 0; 1; pz]]%float))
    None.

(** A prepared candidate at a position, looking along a direction. *)
Definition candidate_at (path : string) (p dir : Vec3.t) (f : float) : Prepared.t :=
  Prepared.mk (frame_at path (Vec3.x p) (Vec3.y p) (Vec3.z p))
              (mkCamera p dir f) p dir f.

Definition unit_bbox : BoundingBox :=
  mkBoundingBox Vec3.ZERO (Vec3.mk 1 1 1).

Definition origin_camera : Camera :=
  mkCamera Vec3.ZERO (Vec3.mk 0 0 (-1)) 60.

(** A manager state around a displayed pose and a selected index. *)
Definition manager_with {host : Host} (c : Camera) (i : Z) : Manager :=
  mkManager (mkGlobalState orbit false 0 false 0) c Camera_new
            (mkControllers OrbitController_new FlyController_new None)
            (mkTransition c c orbit 1)
            (mkSettle (position c) (cameraForwardFromAngles c) (fov c) false 0)
            i [].

(** ** The order of the prepared dataset, as the specification words it

    Ascending sort key with the infinite keys last; frames whose keys are
    the same finite number are ordered by the comparison of their paths. *)

Definition frame_order {host : Host} (a b : TransformFrame) : Prop :=
  match key_of a, key_of b with
  | Fin p, Fin q =>
      p < q \/ (p = q /\ localeCompare (path_or_empty a) (path_or_empty b) <= 0)
  | Fin _, PosInf => True
  | PosInf, PosInf => True
  | _, _ => False
  end.

(** The keys [extractFrameSortKey] can produce: a non-negative integer or
    +Infinity. *)
Definition is_sort_key (k : num) : Prop :=
  match k with Fin p => 0 <= p | PosInf => True | _ => False end.

(** A frame with a path and a matrix of three rows of four cells. *)
Definition named_frame (path : string) : TransformFrame := frame_at path 0 0 0.

Definition paths (l : list TransformFrame) : list string :=
  map path_or_empty l.

(** The six orders in which three frames can arrive. *)
Definition orders3 {A : Type} (a b c : A) : list (list A) :=
  [[a; b; c]; [a; c; b]; [b; a; c]; [b; c; a]; [c; a; b]; [c; b; a]].

(** The paths of the prepared dataset built from the raw frames. *)
Definition prepared_paths {host : Host} (frames : list TransformFrame) : list string :=
  paths (map Prepared.frame (prepareTransformFrames frames 60 None)).

(** ** The entry points of the camera manager as one step function *)

Section Requests.
Context {host : Host}.
Variable bbox : BoundingBox.
Variable preparedTransformFrames : list Prepared.t.
Variable frameCamera : Camera.
Variable resetCamera : Camera.

(** What reaches the camera manager from outside: a call of [update] or
    one of the events it listens to. *)
Inductive Request : Type :=
| Update (deltaTime : float) (inputFrame : InputFrame)
| InputEvent (eventName : InputEventName)
| CameraModeChanged (value prev : CameraMode)
| ScrubAnim (time : float)
| Pick (pickPosition : Vec3.t)
| AnnotationActivate (initialPosition initialTarget : Vec3.t) (initialFov : float).

Definition dispatch (r : Request) (m : Manager) : Outcome :=
  match r with
  | Update deltaTime inputFrame => update bbox preparedTransformFrames deltaTime inputFrame m
  | InputEvent eventName =>
      Returned (on_inputEvent bbox preparedTransformFrames frameCamera resetCamera eventName m)
  | CameraModeChanged value prev => on_cameraMode_changed value prev m
  | ScrubAnim time => on_scrubAnim time m
  | Pick pickPosition => Returned (on_pick pickPosition m)
  | AnnotationActivate p t f => Returned (on_annotation_activate p t f m)
  end.

(** The state after a sequence of requests; what a handler did before it
    threw stays done. *)
Definition run (requests : list Request) (m : Manager) : Manager :=
  fold_left (fun m r => final (dispatch r m)) requests m.

(** The requests whose handler calls [startTransition]. *)
Definition starts_transition (r : Request) : bool :=
  match r with
  | InputEvent ev_frame | InputEvent ev_reset => true
  | CameraModeChanged _ _ | Pick _ | AnnotationActivate _ _ _ => true
  | _ => false
  end.

(** The [cameraMode:changed] requests, whose handler hands the displayed
    camera to the controllers. *)
Definition is_mode_change (r : Request) : bool :=
  match r with CameraModeChanged _ _ => true | _ => false end.

End Requests.

(** ** The movement detector over a sequence of frames *)

(** One per-frame update as the movement detector sees it: the three
    deltas of the displayed pose and the frame's [deltaTime]. *)
Record Motion : Set := mkMotion {
  positionDelta : float;
  angleDelta : float;
  fovDelta : float;
  deltaTime : float
}.

Definition moving (f : Motion) : bool :=
  exceeds_threshold (positionDelta f) (angleDelta f) (fovDelta f).

(** For each frame in turn, whether the matcher is called in it. *)
Fixpoint settle_run (frames : list Motion) (wasMoving0 : bool) (settledTime0 : float)
    : list bool :=
  match frames with
  | [] => []
  | f :: rest =>
      let '(wasMoving1, settledTime1, rematch) :=
        settle_step (moving f) (deltaTime f) wasMoving0 settledTime0 in
      rematch :: settle_run rest wasMoving1 settledTime1
  end.

(** The first frame at which the still time accumulated from [acc]
    reaches the settle delay, if there is one. *)
Fixpoint first_settled (acc : float) (frames : list Motion) : option nat :=
  match frames with
  | [] => None
  | f :: rest =>
      let acc1 := (acc + deltaTime f)%float in
      if geb acc1 settleDelaySeconds then Some 0%nat
      else option_map S (first_settled acc1 rest)
  end.

(** A frame of [seconds] in which the pose moved by [d]. *)
Definition motion_frame (d seconds : float) : Motion := mkMotion d 0 0 seconds.

(** ** A well-formed matrix, as the specification words it: at least three
       rows, the first three of at least four columns. *)

Definition well_formed_matrix (m : option MatrixValue) : Prop :=
  exists r0 r1 r2 more,
    m = Some (MatArray (RowArray r0 :: RowArray r1 :: RowArray r2 :: more)) /\
    (4 <= List.length r0)%nat /\ (4 <= List.length r1)%nat /\ (4 <= List.length r2)%nat.

(** A frame whose matrix has only two rows. *)
Definition two_row_frame (path : string) : TransformFrame :=
  mkFrame (Some path) None
    (Some (MatArray [RowArray [1; 0; 0; 0]; RowArray [0; 1; 0; 0]]%float)) None.

(** The selected index is -1 or an index into the prepared dataset. *)
Definition index_in_range (n i : Z) : Prop := i = -1 \/ (0 <= i < n).

(** A fired selection carries an index into the prepared dataset and the
    dataset's length. *)
Definition selection_in_range (n : Z) (e : Effect) : Prop :=
  match e with
  | Fired sel => 0 <= index sel < n /\ count sel = n
  | MatcherInvoked => True
  end.

(** A manager of the sample host caught in the middle of a transition:
    reset towards a pose at x = 4, then a quarter of a second. *)
Definition side_camera : Camera :=
  mkCamera (Vec3.mk 4 0 0) (Vec3.mk 0 0 (-1)) 60.

Definition in_flight_manager : Manager (host := sample_host) :=
  run (host := sample_host) unit_bbox [] origin_camera side_camera
      [InputEvent ev_reset; @Update sample_host 0.25%float tt]
      (manager_with (host := sample_host) origin_camera (-1)).

(** The two variables of the movement detector after a sequence of frames. *)
Fixpoint settle_after (frames : list Motion) (wasMoving0 : bool) (settledTime0 : float)
    : bool * float :=
  match frames with
  | [] => (wasMoving0, settledTime0)
  | f :: rest =>
      let '(wasMoving1, settledTime1, _) :=
        settle_step (moving f) (deltaTime f) wasMoving0 settledTime0 in
      settle_after rest wasMoving1 settledTime1
  end.

(** The number of runs of the matcher recorded in a trace. *)
Fixpoint matcher_calls (l : list Effect) : nat :=
  match l with
  | [] => 0
  | MatcherInvoked :: l' => S (matcher_calls l')
  | Fired _ :: l' => matcher_calls l'
  end.

(** The four dataset-navigation requests. *)
Definition is_navigation (eventName : InputEventName) : bool :=
  match eventName with
  | ev_prevTransformFrame | ev_nextTransformFrame
  | ev_gotoNearestTransformFrame | ev_gotoCurrentTransformFrame => true
  | _ => false
  end.

(** The invariant of the selection: the selected index is -1 or in range,
    and so is every selection fired so far. *)
Definition selection_invariant {host : Host} (prepared : list Prepared.t) (m : Manager)
    : Prop :=
  index_in_range (prepared_length prepared) (transformFrameIndex m) /\
  Forall (selection_in_range (prepared_length prepared)) (trace m).

(** The indices of the selections fired in a trace, oldest first. *)
Fixpoint fired_indices (l : list Effect) : list Z :=
  match l with
  | [] => []
  | Fired sel :: l' => index sel :: fired_indices l'
  | MatcherInvoked :: l' => fired_indices l'
  end.

(** The index a step leads to from index [i] in a dataset of [n] frames,
    as the specification words it. *)
Definition cyclic_step (step i n : Z) : Z :=
  if step =? 1 then (i + 1) mod n else (i - 1 + n) mod n.

(** Three candidates in a row along x, all looking down -Z. *)
Definition three_candidates : list Prepared.t :=
  [candidate_at "frame_000.png" (Vec3.mk 0 0 0) (Vec3.mk 0 0 (-1)) 60;
   candidate_at "frame_001.png" (Vec3.mk 1 0 0) (Vec3.mk 0 0 (-1)) 60;
   candidate_at "frame_002.png" (Vec3.mk 2 0 0) (Vec3.mk 0 0 (-1)) 60].

(** Settings of the sample host with no animation track and a start pose
    at the origin, inside the unit box. *)
Definition plain_settings : Settings (host := sample_host) :=
  mkSettings (host := sample_host)
    (mkCameraInitial Vec3.ZERO (Vec3.mk 0 0 (-1)) 60) None "default" true.

Definition plain_global : GlobalState := mkGlobalState orbit false 0 false 0.

(** The manager the constructor builds from them. *)
Definition plain_manager : Manager (host := sample_host) :=
  constructor (host := sample_host) plain_global plain_settings unit_bbox.

(** A number that is +Infinity or NaN. *)
Definition inf_or_nan (v : float) : Prop :=
  Prim2SF v = S754_infinity false \/ Prim2SF v = S754_nan.

(** A dataset of one frame whose position is finite and so far away that
    the squared distance overflows. *)
Definition far_dataset : list Prepared.t :=
  [candidate_at "frame_001.png" (Vec3.mk 1e200 0 0) (Vec3.mk 0 0 (-1)) 60].

(** The token the sort key is read from, as a property of the path: a case
    variant of [frame_], then digits, then nothing or an extension, at the
    end of the path. *)
Definition has_frame_token (s : list ascii) : Prop :=
  exists pre lit ds tail,
    s = pre ++ lit ++ ds ++ tail /\ map to_lower lit = frame_literal /\
    ds <> [] /\ forallb is_digit ds = true /\
    optional_extension_then_end tail = true.

(** Whether the sort key of a frame is +Infinity. *)
Definition key_is_infinite (f : TransformFrame) : bool :=
  match key_of f with PosInf => true | _ => false end.

(** The frames that pass the guard of [frameToCamera]. *)
Definition passes_guard (f : TransformFrame) : bool :=
  negb (malformed_matrix (transform_matrix f)).

(** The index that the last [transformFrame:selected] of a trace announced,
    -1 when none was fired. *)
Definition last_announced (l : list Effect) : Z := last (fired_indices l) (-1).


(** ** Vocabulary for the properties of the handlers *)

(** [!!controllers.anim] *)
Definition anim_present {host : Host} (m : Manager) : bool :=
  match anim_controller (controllers m) with Some _ => true | None => false end.

Definition is_update {host : Host} (r : Request) : bool :=
  match r with Update _ _ => true | _ => false end.

Definition is_scrub {host : Host} (r : Request) : bool :=
  match r with ScrubAnim _ => true | _ => false end.

(** What the navigation closures leave alone on the way from [m] to [m']:
    the displayed pose, the presence of the anim controller and the
    animation flag; the mode stays or becomes [orbit]. *)
Definition left_alone {host : Host} (m m' : Manager) : Prop :=
  this_camera m' = this_camera m
  /\ anim_present m' = anim_present m
  /\ hasAnimation (state m') = hasAnimation (state m)
  /\ (cameraMode (state m') = cameraMode (state m) \/ cameraMode (state m') = orbit).

(** The mode is [anim] only with an anim controller, and the animation
    flag is up only with one. *)
Definition anim_guarded {host : Host} (m : Manager) : Prop :=
  (cameraMode (state m) = anim -> anim_present m = true)
  /\ (hasAnimation (state m) = true -> anim_present m = true).


(** Frames in ascending order of two finite sort keys. *)
Definition key_le (a b : TransformFrame) : Prop :=
  match key_of a, key_of b with
  | Fin p, Fin q => p <= q
  | _, _ => False
  end.

(** The sort key of the frame is finite: its path carries a frame number
    that a double can hold. *)
Definition numbered (f : TransformFrame) : Prop :=
  exists p, extractFrameSortKey f = Fin p.


(** ** [getSceneXformDegrees]

    [geoXform] is parsed JSON.  An object lists its own properties in
    enumeration order, each key once. *)

#[warnings="-register-all"] Inductive JsValue : Type :=
| JsUndefined
| JsNull
| JsBoolean (b : bool)
| JsNumber (v : float)
| JsString (s : string)
| JsArray (items : list JsValue)
| JsObject (props : list (string * JsValue)).

Fixpoint own_property (props : list (string * JsValue)) (k : string) : JsValue :=
  match props with
  | [] => JsUndefined
  | (k', v) :: rest => if String.eqb k' k then v else own_property rest k
  end.

(** [v?.k], and [v.k] on a truthy [v], for the property names read here
    ([playcanvas_candidates], [scene_xyz_deg_x_plus_90],
    [playcanvas_scene_xyz_deg_x_plus_90], [x], [y], [z]), none of which a
    boolean, a number, a string or an array has. *)
Definition get_property (v : JsValue) (k : string) : JsValue :=
  match v with
  | JsObject props => own_property props k
  | _ => JsUndefined
  end.

(** [ToBoolean] *)
Definition truthy (v : JsValue) : bool :=
  match v with
  | JsUndefined | JsNull => false
  | JsBoolean b => b
  | JsNumber x => negb (is_nan x || is_zero x)
  | JsString s => negb (String.eqb s EmptyString)
  | JsArray _ | JsObject _ => true
  end.

(** [typeof v === 'number'] *)
Definition typeof_number (v : JsValue) : bool :=
  match v with JsNumber _ => true | _ => false end.

(** [typeof v === 'object'] *)
Definition typeof_object (v : JsValue) : bool :=
  match v with JsNull | JsArray _ | JsObject _ => true | _ => false end.

(** [Object.values(v)] of an object or an array. *)
Definition Object_values (v : JsValue) : list JsValue :=
  match v with
  | JsObject props => map snd props
  | JsArray items => items
  | _ => []
  end.

(** The test the function makes three times:
    [d && typeof d.x === 'number' && typeof d.y === 'number' && typeof d.z === 'number']. *)
Definition is_degrees (d : JsValue) : bool :=
  truthy d && typeof_number (get_property d "x")
  && typeof_number (get_property d "y") && typeof_number (get_property d "z").

(** The [for] loop over the candidates: the first [degrees] that passes. *)
Fixpoint first_candidate_degrees (candidates : list JsValue) : option JsValue :=
  match candidates with
  | [] => None
  | candidate :: rest =>
      let degrees := get_property candidate "scene_xyz_deg_x_plus_90" in
      if is_degrees degrees then Some degrees else first_candidate_degrees rest
  end.

Definition getSceneXformDegrees (geoXform : JsValue) : JsValue :=
  let direct :=
    get_property (get_property geoXform "playcanvas_candidates") "scene_xyz_deg_x_plus_90" in
  if is_degrees direct then direct
  else
    let candidates := get_property geoXform "playcanvas_candidates" in
    match (if truthy candidates && typeof_object candidates
           then first_candidate_degrees (Object_values candidates) else None) with
    | Some degrees => degrees
    | None =>
        let legacy := get_property geoXform "playcanvas_scene_xyz_deg_x_plus_90" in
        if is_degrees legacy then legacy else JsNull
    end.

(** The values the function looks at, in the order it looks at them. *)
Definition degrees_sources (geoXform : JsValue) : list JsValue :=
  let candidates := get_property geoXform "playcanvas_candidates" in
  get_property candidates "scene_xyz_deg_x_plus_90"
  :: map (fun candidate => get_property candidate "scene_xyz_deg_x_plus_90")
         (Object_values candidates)
  ++ [get_property geoXform "playcanvas_scene_xyz_deg_x_plus_90"].

(** An object whose [x], [y] and [z] are numbers. *)
Definition numeric_xyz (d : JsValue) : Prop :=
  exists props x y z,
    d = JsObject props /\ own_property props "x" = JsNumber x
    /\ own_property props "y" = JsNumber y /\ own_property props "z" = JsNumber z.


(** ** The frame inspector of the user interface ([initUI], ui.ts)

    The picture-in-picture view of the selected dataset frame: the
    thumbnail, the fullscreen image, its zoom and pan.  It listens to the
    [transformFrame:selected] events of the camera manager.  The
    [pipInspect:changed] notifications, which are computed from layout
    measurements, are not modelled. *)

Module Pip.

(** The [directory] argument of [toDerivedFramePath]. *)
Inductive Directory : Set := images_jpg_8 | images_jpg.

Definition directory_name (d : Directory) : list ascii :=
  match d with
  | images_jpg_8 => list_ascii_of_string "images_jpg_8"
  | images_jpg => list_ascii_of_string "images_jpg"
  end.

(** The literal of the first pattern, [images\/]. *)
Definition images_literal : list ascii := list_ascii_of_string "images/".

(** [s.replace(/(^|\/)images\//i, `$1${directory}/`)]: the leftmost place
    where [images/] (in any case) stands at the start of the string or after
    a slash is replaced; [at_start] says whether the scan is at the start. *)
Fixpoint replace_images_directory (directory : list ascii) (at_start : bool)
    (s : list ascii) : list ascii :=
  match (if at_start then strip_literal_ci images_literal s else None) with
  | Some rest => directory ++ "/"%char :: rest
  | None =>
      match s with
      | [] => []
      | c :: s' =>
          if Ascii.eqb c "/"%char then
            match strip_literal_ci images_literal s' with
            | Some rest => "/"%char :: directory ++ "/"%char :: rest
            | None => c :: replace_images_directory directory false s'
            end
          else c :: replace_images_directory directory false s'
      end
  end.

(** [\.[^./\\]+$] tried at the start of [s]. *)
Definition extension_here (s : list ascii) : bool :=
  match s with
  | c :: e =>
      Ascii.eqb c "."%char &&
      match e with [] => false | _ => forallb ext_char e end
  | [] => false
  end.

(** [s.replace(/\.[^./\\]+$/, '.jpg')] *)
Fixpoint replace_extension (s : list ascii) : list ascii :=
  match s with
  | [] => []
  | c :: s' =>
      if extension_here s then list_ascii_of_string ".jpg"
      else c :: replace_extension s'
  end.

Definition toDerivedFramePath (filePath : string) (directory : Directory) : string :=
  let withDirectory :=
    replace_images_directory (directory_name directory) true
                             (list_ascii_of_string filePath) in
  string_of_list_ascii (replace_extension withDirectory).

(** [clamp(value, min, max)] *)
Definition clamp (value min max : float) : float :=
  Math_min (Math_max value min) max.

Definition pipMinZoom : float := 1.
Definition pipMaxZoom : float := 8.

(** The variables [resetPipInteractionState] writes. *)
Record Interaction : Set := mkInteraction {
  suppressCloseClickUntil : float;
  mousePanPointerId : option Z;
  mousePanDidMove : bool;
  touchGestureDidMove : bool;
  touchTapPointerId : option Z;
  touchTapStartX : float;
  touchTapStartY : float;
  touchTapIsCandidate : bool;
  activeTouchPoints : list (Z * (float * float));
  gestureStartDistance : option float;
  gestureStartScale : float;
  gestureStartPanX : float;
  gestureStartPanY : float;
  gestureStartMidX : float;
  gestureStartMidY : float
}.

(** The state of the inspector: its variables, and what it has written to
    the page ([thumbSrc] and [fullSrc] are the [src] of the two images,
    [transform] the pan and zoom last written to the style of the full
    image, [None] while none was written). *)
Record View : Set := mkView {
  selectedFramePath : option string;
  fullscreenOpen : bool;
  pipZoomScale : float;
  pipPanX : float;
  pipPanY : float;
  hasStoredPipView : bool;
  interaction : Interaction;
  thumbSrc : option string;
  fullSrc : option string;
  wrapHidden : bool;
  fullscreenHidden : bool;
  transform : option (float * float * float)
}.

(** [fullImage.getBoundingClientRect()] *)
Record Rect : Set := mkRect {
  rect_left : float;
  rect_top : float;
  rect_width : float;
  rect_height : float
}.

Definition set_zoom (z : float) (v : View) : View :=
  mkView (selectedFramePath v) (fullscreenOpen v) z (pipPanX v) (pipPanY v)
         (hasStoredPipView v) (interaction v) (thumbSrc v) (fullSrc v)
         (wrapHidden v) (fullscreenHidden v) (transform v).
Definition set_pan (x y : float) (v : View) : View :=
  mkView (selectedFramePath v) (fullscreenOpen v) (pipZoomScale v) x y
         (hasStoredPipView v) (interaction v) (thumbSrc v) (fullSrc v)
         (wrapHidden v) (fullscreenHidden v) (transform v).
Definition set_hasStoredPipView (b : bool) (v : View) : View :=
  mkView (selectedFramePath v) (fullscreenOpen v) (pipZoomScale v) (pipPanX v) (pipPanY v)
         b (interaction v) (thumbSrc v) (fullSrc v)
         (wrapHidden v) (fullscreenHidden v) (transform v).
Definition set_fullscreen (open hidden : bool) (v : View) : View :=
  mkView (selectedFramePath v) open (pipZoomScale v) (pipPanX v) (pipPanY v)
         (hasStoredPipView v) (interaction v) (thumbSrc v) (fullSrc v)
         (wrapHidden v) hidden (transform v).
Definition set_interaction (i : Interaction) (v : View) : View :=
  mkView (selectedFramePath v) (fullscreenOpen v) (pipZoomScale v) (pipPanX v) (pipPanY v)
         (hasStoredPipView v) i (thumbSrc v) (fullSrc v)
         (wrapHidden v) (fullscreenHidden v) (transform v).
Definition set_fullSrc (s : option string) (v : View) : View :=
  mkView (selectedFramePath v) (fullscreenOpen v) (pipZoomScale v) (pipPanX v) (pipPanY v)
         (hasStoredPipView v) (interaction v) (thumbSrc v) s
         (wrapHidden v) (fullscreenHidden v) (transform v).
Definition set_selected (p : string) (thumb : string) (v : View) : View :=
  mkView (Some p) (fullscreenOpen v) (pipZoomScale v) (pipPanX v) (pipPanY v)
         (hasStoredPipView v) (interaction v) (Some thumb) (fullSrc v)
         (wrapHidden v) (fullscreenHidden v) (transform v).
Definition set_wrapHidden (b : bool) (v : View) : View :=
  mkView (selectedFramePath v) (fullscreenOpen v) (pipZoomScale v) (pipPanX v) (pipPanY v)
         (hasStoredPipView v) (interaction v) (thumbSrc v) (fullSrc v)
         b (fullscreenHidden v) (transform v).

(** [fullImage.style.transform = `translate(..) scale(..)`] *)
Definition applyPipTransform (v : View) : View :=
  mkView (selectedFramePath v) (fullscreenOpen v) (pipZoomScale v) (pipPanX v) (pipPanY v)
         (hasStoredPipView v) (interaction v) (thumbSrc v) (fullSrc v)
         (wrapHidden v) (fullscreenHidden v)
         (Some (pipPanX v, pipPanY v, pipZoomScale v)).

Definition applyPipZoom (nextScale : float) (v : View) : View :=
  applyPipTransform (set_zoom (clamp nextScale pipMinZoom pipMaxZoom) v).

Definition zoomPipAt (clientX clientY nextScale : float) (rect : Rect) (v : View) : View :=
  let clampedScale := clamp nextScale pipMinZoom pipMaxZoom in
  if (clampedScale =? pipZoomScale v)%float then v
  else
    let centerX := (rect_left rect + rect_width rect * 0.5)%float in
    let centerY := (rect_top rect + rect_height rect * 0.5)%float in
    let screenOffsetX := (clientX - centerX)%float in
    let screenOffsetY := (clientY - centerY)%float in
    let imageX := ((screenOffsetX - pipPanX v) / pipZoomScale v)%float in
    let imageY := ((screenOffsetY - pipPanY v) / pipZoomScale v)%float in
    let v := set_pan (screenOffsetX - imageX * clampedScale)%float
                     (screenOffsetY - imageY * clampedScale)%float v in
    applyPipTransform (set_zoom clampedScale v).

Definition resetPipInteractionState (v : View) : View :=
  set_interaction
    (mkInteraction 0 None false false None 0 0 false [] None 1 0 0 0 0) v.

Definition resetStoredPipView (v : View) : View :=
  applyPipTransform (set_pan 0 0 (set_zoom 1 (set_hasStoredPipView false v))).

Definition closeFullscreenFrame (v : View) : View :=
  if negb (fullscreenOpen v) then v
  else
    let v := set_fullscreen false true v in
    let v := resetPipInteractionState v in
    let v := set_hasStoredPipView true v in
    set_fullSrc None v.

(** [state.cameraMode === 'anim' && !state.animationPaused] *)
Definition isAnimationRunning (g : GlobalState) : bool :=
  CameraMode_eqb (cameraMode g) anim && negb (animationPaused g).

(** [!!selectedFramePath] *)
Definition has_path (p : option string) : bool :=
  match p with
  | Some s => negb (String.eqb s EmptyString)
  | None => false
  end.

Definition updatePipVisibility (g : GlobalState) (v : View) : View :=
  let shouldShow := has_path (selectedFramePath v) && negb (isAnimationRunning g) in
  let v := set_wrapHidden (negb shouldShow) v in
  if negb shouldShow then closeFullscreenFrame v else v.

Definition openFullscreenFrame (v : View) : View :=
  match selectedFramePath v with
  | Some p =>
      if String.eqb p EmptyString then v
      else
        let v := set_fullscreen true false v in
        let v := resetPipInteractionState v in
        let v := if negb (hasStoredPipView v) then set_pan 0 0 (set_zoom 1 v) else v in
        let v := applyPipTransform v in
        set_fullSrc (Some (toDerivedFramePath p images_jpg)) v
  | None => v
  end.

Definition toggleFullscreenFrame (v : View) : View :=
  if fullscreenOpen v then closeFullscreenFrame v else openFullscreenFrame v.

(** [events.on('transformFrame:selected', (selection) => ...)] *)
Definition on_transformFrame_selected (g : GlobalState) (selection : Selected)
    (v : View) : View :=
  match filePath selection with
  | Some p =>
      if String.eqb p EmptyString then v
      else
        let v := set_selected p (toDerivedFramePath p images_jpg_8) v in
        let v := if fullscreenOpen v
                 then set_fullSrc (Some (toDerivedFramePath p images_jpg)) v else v in
        updatePipVisibility g v
  | None => v
  end.

(** [events.on('transformFrame:nearestUpdated', ...)] *)
Definition on_nearestUpdated (v : View) : View :=
  if negb (fullscreenOpen v) then resetStoredPipView v else v.

(** The pointer handlers write the interaction variables, and through
    them compute a pan and a scale.  Their writes to the interaction
    variables are taken as one request, [set_interaction] with whatever
    they leave; what they do to the view is the following two. *)

(** The mouse branch of the [pointermove] handler, on the pan it computes. *)
Definition mouse_pan (x y : float) (v : View) : View :=
  if negb (fullscreenOpen v) then v
  else applyPipTransform (set_pan x y v).

(** The touch branch of the [pointermove] handler, on the pan and the
    scale it computes from the two touch points. *)
Definition pinch (x y nextScale : float) (v : View) : View :=
  if negb (fullscreenOpen v) then v
  else applyPipZoom nextScale (set_pan x y v).

(** The [wheel] handler, on the scale it computes. *)
Definition wheel (clientX clientY nextScale : float) (rect : Rect) (v : View) : View :=
  if negb (fullscreenOpen v) then v
  else zoomPipAt clientX clientY nextScale rect v.

(** The variables as [initUI] declares them, over the page as it finds it. *)
Definition initial (thumb0 full0 : option string) (wrapHidden0 fullscreenHidden0 : bool)
    : View :=
  mkView None false 1 0 0 false
         (mkInteraction 0 None false false None 0 0 false [] None 1 0 0 0 0)
         thumb0 full0 wrapHidden0 fullscreenHidden0 None.

(** What reaches the inspector. *)
Inductive Request : Set :=
| TransformFrameSelected (g : GlobalState) (selection : Selected)
| NearestUpdated
| VisibilityChanged (g : GlobalState)
| Toggle
| Close
| Wheel (clientX clientY nextScale : float) (rect : Rect)
| MousePan (x y : float)
| Pinch (x y nextScale : float)
| Interact (i : Interaction).

Definition dispatch (r : Request) (v : View) : View :=
  match r with
  | TransformFrameSelected g selection => on_transformFrame_selected g selection v
  | NearestUpdated => on_nearestUpdated v
  | VisibilityChanged g => updatePipVisibility g v
  | Toggle => toggleFullscreenFrame v
  | Close => closeFullscreenFrame v
  | Wheel x y s rect => wheel x y s rect v
  | MousePan x y => mouse_pan x y v
  | Pinch x y s => pinch x y s v
  | Interact i => set_interaction i v
  end.

Definition run (requests : list Request) (v : View) : View :=
  fold_left (fun v r => dispatch r v) requests v.

(** The selections delivered to the inspector, oldest first. *)
Fixpoint delivered (requests : list Request) : list Selected :=
  match requests with
  | [] => []
  | TransformFrameSelected _ selection :: rest => selection :: delivered rest
  | _ :: rest => delivered rest
  end.

End Pip.

(** The path the inspector holds after a sequence of selections: that of
    the last selection that carries a non-empty path. *)
Fixpoint last_path (held : option string) (l : list Selected) : option string :=
  match l with
  | [] => held
  | sel :: rest =>
      last_path (if Pip.has_path (filePath sel) then filePath sel else held) rest
  end.

(** A fired selection carries the path and the id of the frame of the
    prepared dataset at its index. *)
Definition payload_of_dataset {host : Host} (prepared : list Prepared.t) (e : Effect)
    : Prop :=
  match e with
  | Fired sel =>
      exists p, prepared_at prepared (index sel) = Some p
                /\ filePath sel = file_path (Prepared.frame p)
                /\ colmapImId sel = colmap_im_id (Prepared.frame p)
  | MatcherInvoked => True
  end.

(** The selections fired in a trace, oldest first. *)
Fixpoint fired_selections (l : list Effect) : list Selected :=
  match l with
  | [] => []
  | Fired sel :: l' => sel :: fired_selections l'
  | MatcherInvoked :: l' => fired_selections l'
  end.


(** Two candidates whose images lie in an [images] directory. *)
Definition image_candidates : list Prepared.t :=
  [candidate_at "images/frame_000.png" (Vec3.mk 0 0 0) (Vec3.mk 0 0 (-1)) 60;
   candidate_at "images/frame_001.png" (Vec3.mk 1 0 0) (Vec3.mk 0 0 (-1)) 60].


(** A character other than the slash. *)
Definition not_slash (c : ascii) : bool := negb (Ascii.eqb c "/"%char).


(** Two raw frames with the same path, the same answers to the guards, and
    the same third and fourth cell in each of the first three rows of their
    matrices (the forward axis and the position). *)
Definition same_pose (f g : TransformFrame) : Prop :=
  file_path f = file_path g
  /\ Array_isArray_rows (transform_matrix f) = Array_isArray_rows (transform_matrix g)
  /\ malformed_matrix (transform_matrix f) = malformed_matrix (transform_matrix g)
  /\ forall i, (i < 3)%nat ->
       cell (rows_of (transform_matrix f)) i 2 = cell (rows_of (transform_matrix g)) i 2
       /\ cell (rows_of (transform_matrix f)) i 3 = cell (rows_of (transform_matrix g)) i 3.

(** A frame at the origin looking down -Z, with the given first two
    columns (the right and the up axis). *)
Definition rolled_frame (path : string) (r0 r1 r2 u0 u1 u2 : float) : TransformFrame :=
  mkFrame (Some path) None
    (Some (MatArray [RowArray [r0; u0; 0; 0]; RowArray [r1; u1; 0; 0];
                     RowArray [r2; u2; 1; 0]]%float))
    None.


(** ** A run of per-frame updates

    What one update of a run shows: what it returned; the movement it
    measured, that is the three deltas of the pose it displays against the
    pose the update before it remembered, with its [deltaTime]; and the
    number of runs of the matcher it added to the trace. *)
Record UpdateRecord {host : Host} : Type := mkUpdateRecord {
  outcome : Outcome;
  observed : Motion;
  rematches : nat
}.
Arguments mkUpdateRecord {host} _ _ _.

(** [update] called on each frame in turn, each call on the state the
    call before it left. *)
Fixpoint update_run {host : Host} (bbox : BoundingBox) (prepared : list Prepared.t)
    (frames : list (float * InputFrame)) (m : Manager) : list UpdateRecord :=
  match frames with
  | [] => []
  | (deltaTime, inputFrame) :: rest =>
      let o := update bbox prepared deltaTime inputFrame m in
      let m' := final o in
      let '(positionDelta, angleDelta, fovDelta) :=
        pose_deltas (this_camera m') (cameraForwardFromAngles (this_camera m')) (settle m) in
      mkUpdateRecord o (mkMotion positionDelta angleDelta fovDelta deltaTime)
                     (matcher_calls (trace m') - matcher_calls (trace m))
      :: update_run bbox prepared rest m'
  end.

(** The pose remembered for the next update is the pose displayed. *)
Definition remembers_displayed_pose {host : Host} (m : Manager) : Prop :=
  previousPosition (settle m) = position (this_camera m)
  /\ previousForward (settle m) = cameraForwardFromAngles (this_camera m)
  /\ previousFov (settle m) = fov (this_camera m).

(** A run of updates as requests. *)
Definition update_requests {host : Host} (frames : list (float * InputFrame))
    : list Request :=
  map (fun f => Update (fst f) (snd f)) frames.

(** The still pose of the sample run: the reset request sends the orbit
    controller to [side_camera] and starts a transition from the origin. *)
Definition reset_manager : Manager (host := sample_host) :=
  run (host := sample_host) unit_bbox three_candidates origin_camera side_camera
      [InputEvent ev_reset]
      (manager_with (host := sample_host) origin_camera (-1)).

(** Four updates of a quarter of a second, in which the transition runs,
    then four of a tenth of a second. *)
Definition settling_frames : list (float * @InputFrame sample_host) :=
  repeat (0.25%float, tt) 4 ++ repeat (0.1%float, tt) 4.

(* ================================================================== *)
(** * Part II.  Properties                                              *)
(* ================================================================== *)

(** ** Order facts on binary64 numbers *)

Ltac sf_step :=
  match goal with
  | s : bool |- _ => destruct s
  | |- context [Z.compare ?a ?b] => destruct (Z.compare_spec a b)
  | H : context [Z.compare ?a ?b] |- _ => destruct (Z.compare_spec a b)
  | |- context [PosDef.Pos.compare_cont Eq ?a ?b] =>
      change (PosDef.Pos.compare_cont Eq a b) with (Pos.compare a b) in *;
      destruct (Pos.compare_spec a b)
  | H : context [PosDef.Pos.compare_cont Eq ?a ?b] |- _ =>
      change (PosDef.Pos.compare_cont Eq a b) with (Pos.compare a b) in *;
      destruct (Pos.compare_spec a b)
  end.

Ltac sf_cases :=
  repeat (sf_step; cbn [CompOpp] in *; try discriminate); try congruence; try lia.

Lemma SFltb_trans a b c :
  SFltb a b = true -> SFltb b c = true -> SFltb a c = true.
Proof.
  unfold SFltb, SFcompare.
  destruct a as [sa|sa| |sa ma ea], b as [sb|sb| |sb mb eb], c as [sc|sc| |sc mc ec];
    intros H1 H2; try discriminate; sf_cases.
Qed.

Lemma SFltb_irrefl a : SFltb a a = false.
Proof.
  unfold SFltb, SFcompare. destruct a as [sa|sa| |sa ma ea]; sf_cases.
Qed.

Lemma SFltb_below a b c :
  SFltb a b = true -> SFltb c b = false -> c <> S754_nan -> SFltb a c = true.
Proof.
  unfold SFltb, SFcompare.
  destruct a as [sa|sa| |sa ma ea], b as [sb|sb| |sb mb eb], c as [sc|sc| |sc mc ec];
    intros H1 H2 H3; try discriminate; try congruence; sf_cases.
Qed.

Lemma SFeqb_refl a : a <> S754_nan -> SFeqb a a = true.
Proof.
  unfold SFeqb, SFcompare.
  destruct a as [sa|sa| |sa ma ea]; intros H; try congruence; sf_cases.
Qed.

Lemma is_nan_spec f : is_nan f = true <-> Prim2SF f = S754_nan.
Proof.
  unfold is_nan. rewrite FloatAxioms.eqb_spec. split.
  - intros H. destruct (Prim2SF f) eqn:E; try reflexivity;
      rewrite SFeqb_refl in H by discriminate; discriminate.
  - intros ->. reflexivity.
Qed.

Lemma is_nan_false f : is_nan f = false <-> Prim2SF f <> S754_nan.
Proof.
  rewrite <- is_nan_spec. destruct (is_nan f); split; congruence.
Qed.

Lemma ltb_trans a b c :
  (a <? b)%float = true -> (b <? c)%float = true -> (a <? c)%float = true.
Proof. rewrite !ltb_spec. apply SFltb_trans. Qed.

Lemma ltb_irrefl a : (a <? a)%float = false.
Proof. rewrite ltb_spec. apply SFltb_irrefl. Qed.

Lemma ltb_asym a b : (a <? b)%float = true -> (b <? a)%float = false.
Proof.
  intros H. destruct (b <? a)%float eqn:E; [|reflexivity].
  rewrite <- (ltb_irrefl a). symmetry. now apply ltb_trans with b.
Qed.

(** [a < b], not [c < b] and [c] a number: then [a < c]. *)
Lemma ltb_below a b c :
  (a <? b)%float = true -> (c <? b)%float = false -> is_nan c = false ->
  (a <? c)%float = true.
Proof. rewrite !ltb_spec, is_nan_false. apply SFltb_below. Qed.

Lemma ltb_nan_l a b : is_nan a = true -> (a <? b)%float = false.
Proof. rewrite is_nan_spec, ltb_spec. intros ->. reflexivity. Qed.

Lemma ltb_nan_r a b : is_nan b = true -> (a <? b)%float = false.
Proof.
  rewrite is_nan_spec, ltb_spec. intros ->.
  unfold SFltb, SFcompare. now destruct (Prim2SF a).
Qed.

Lemma ltb_not_nan_l a b : (a <? b)%float = true -> is_nan a = false.
Proof.
  intros H. destruct (is_nan a) eqn:E; [|reflexivity].
  now rewrite (ltb_nan_l a b E) in H.
Qed.

Lemma SFmul_comm p e a b : SFmul p e a b = SFmul p e b a.
Proof.
  destruct a as [sa|sa| |sa ma ea], b as [sb|sb| |sb mb eb]; cbn [SFmul];
    rewrite ?(xorb_comm sb sa); try reflexivity.
  now rewrite (Pos.mul_comm mb ma), (Z.add_comm eb ea).
Qed.

Lemma mul_comm a b : (a * b)%float = (b * a)%float.
Proof. apply Prim2SF_inj. rewrite !mul_spec. apply SFmul_comm. Qed.

(** Clamping to [[-1, 1]] does not change whether a number is negative. *)
Lemma clamp_negative d :
  (clamp d (-1) 1 <? 0)%float = (d <? 0)%float.
Proof.
  unfold clamp, Math_min.
  change (is_nan 1) with false. cbn [orb].
  destruct (is_nan d) eqn:Hnan.
  - now rewrite (ltb_nan_l d 0 Hnan).
  - assert (Hstep : forall v, is_nan v = false ->
              ((v <? 0)%float = (d <? 0)%float) ->
              ((-1 <? v)%float = true \/ v = d) ->
              (Math_max (-1) v <? 0)%float = (d <? 0)%float).
    { intros v Hv Hsame Hor. unfold Math_max.
      change (is_nan (-1)) with false. rewrite Hv. cbn [orb].
      destruct (-1 <? v)%float eqn:E1; [assumption|].
      destruct (v <? -1)%float eqn:E2.
      - rewrite <- Hsame. change (-1 <? 0)%float with true. symmetry.
        apply ltb_trans with (-1)%float; [assumption|reflexivity].
      - change (get_sign (-1)) with true. cbv iota. assumption. }
    destruct (1 <? d)%float eqn:E1.
    + apply Hstep; [reflexivity| |left; reflexivity].
      change (1 <? 0)%float with false. symmetry.
      destruct (d <? 0)%float eqn:E0; [|reflexivity].
      assert (H : (1 <? 0)%float = true) by now apply ltb_trans with d.
      discriminate H.
    + destruct (d <? 1)%float eqn:E2.
      * apply Hstep; [assumption|reflexivity|right; reflexivity].
      * change (get_sign 1) with false. cbv iota.
        apply Hstep; [assumption|reflexivity|right; reflexivity].
Qed.

Section MatcherFacts.
Context {host : Host}.
Variable bbox : BoundingBox.

(** The body of the loop computes the specification's formula. *)
Lemma score_is_spec_score cam fwd c :
  score bbox cam fwd c = spec_score bbox (position cam) fwd (fov cam) c.
Proof.
  unfold score, spec_score, sceneScale.
  fold (clamp (Vec3.dot fwd (Prepared.forward c)) (-1) 1).
  rewrite clamp_negative.
  rewrite (mul_comm (Vec3.length (halfExtents bbox)) 2).
  rewrite (mul_comm _ 0.4), (mul_comm _ 0.5), (mul_comm _ 0.1).
  reflexivity.
Qed.

Variable cam : Camera.
Variable fwd : Vec3.t.
Let s (c : Prepared.t) : float := score bbox cam fwd c.

(** What the scan from index [i] returns: the incoming best when no
    remaining score is below it, and otherwise the first candidate whose
    score no other score is below. *)
Lemma nearest_loop_spec candidates : forall i bestIndex bestScore,
  let r := nearest_loop bbox cam fwd candidates i bestIndex bestScore in
  (fst r = bestIndex /\ snd r = bestScore /\
   forall c, In c candidates -> (s c <? bestScore)%float = false)
  \/
  (exists k c,
     fst r = i + Z.of_nat k /\ nth_error candidates k = Some c /\ snd r = s c /\
     (s c <? bestScore)%float = true /\
     (forall c', In c' candidates -> (s c' <? s c)%float = false) /\
     (forall j c', (j < k)%nat -> nth_error candidates j = Some c' ->
        is_nan (s c') = true \/ (s c <? s c')%float = true)).
Proof.
  induction candidates as [|c0 rest IH]; intros i bestIndex bestScore; cbn zeta.
  - left. cbn. repeat split. intros c [].
  - cbn [nearest_loop]. fold (s c0).
    destruct (s c0 <? bestScore)%float eqn:Hlt.
    + right. destruct (IH (i + 1) i (s c0)) as [(Hi & Hs & Hall)|(k & c & Hi & Hn & Hs & Hc & Hmin & Hfirst)].
      * exists 0%nat, c0. cbn [nth_error]. repeat split; try assumption.
        -- rewrite Hi. lia.
        -- intros c' [<-|Hin]; [apply ltb_irrefl|now apply Hall].
        -- intros j c' Hj. lia.
      * exists (S k), c. cbn [nth_error]. repeat split; try assumption.
        -- rewrite Hi. lia.
        -- now apply ltb_trans with (s c0).
        -- intros c' [<-|Hin]; [now apply ltb_asym|now apply Hmin].
        -- intros [|j] c' Hj Hnth; cbn [nth_error] in Hnth.
           ++ injection Hnth as <-. now right.
           ++ apply (Hfirst j); [lia|assumption].
    + destruct (IH (i + 1) bestIndex bestScore) as [(Hi & Hs & Hall)|(k & c & Hi & Hn & Hs & Hc & Hmin & Hfirst)].
      * left. repeat split; try assumption.
        intros c' [<-|Hin]; [assumption|now apply Hall].
      * right. exists (S k), c. cbn [nth_error]. repeat split; try assumption.
        -- rewrite Hi. lia.
        -- intros c' [<-|Hin]; [|now apply Hmin].
           destruct (s c0 <? s c)%float eqn:E; [|reflexivity].
           rewrite <- Hlt. symmetry. now apply ltb_trans with (s c).
        -- intros [|j] c' Hj Hnth; cbn [nth_error] in Hnth.
           ++ injection Hnth as <-.
              destruct (is_nan (s c0)) eqn:En; [now left|right].
              now apply ltb_below with bestScore.
           ++ apply (Hfirst j); [lia|assumption].
Qed.

End MatcherFacts.

(** ** C1: the nearest-frame matcher *)

Lemma this_camera_emit {host : Host} e (m : Manager) :
  this_camera (emit e m) = this_camera m.
Proof. reflexivity. Qed.

Lemma prepared_length_zero (l : list Prepared.t) :
  (prepared_length l =? 0) = true -> l = [].
Proof.
  unfold prepared_length. intros H. apply Z.eqb_eq in H.
  destruct l; [reflexivity|cbn in H; lia].
Qed.

Lemma fired_selections_app (l1 l2 : list Effect) :
  fired_selections (l1 ++ l2) = fired_selections l1 ++ fired_selections l2.
Proof.
  induction l1 as [|[|sel] l1 IH]; cbn [app fired_selections]; [reflexivity|assumption|].
  now rewrite IH.
Qed.

(** C1 (amended).  The matcher returns the index of the first candidate
    whose score, by the specification's formula, no other candidate's score
    is below, provided some score compares below +Infinity; candidates whose
    score is NaN are passed over; that index becomes the selection, and the
    selection event is fired for it when asked for.  When no score compares
    below +Infinity (in particular on an empty dataset) it returns -1 and
    leaves the selection unchanged: the selected index and the rest of the
    state are as before, and no selection event is fired. *)
Theorem nearest_frame_first_minimum :
  forall (host : Host) (bbox : BoundingBox) (prepared : list Prepared.t)
         (emitSelection : bool) (m : Manager),
    let live := this_camera m in
    let res := pickNearestFrameForCurrentView bbox prepared emitSelection m in
    let r := fst res in
    (r = -1 /\
     transformFrameIndex (snd res) = transformFrameIndex m /\
     snd res = emit MatcherInvoked m /\
     fired_selections (trace (snd res)) = fired_selections (trace m) /\
     forall c, In c prepared -> (live_score bbox live c <? infinity)%float = false)
    \/
    (exists c,
       0 <= r /\ nth_error prepared (Z.to_nat r) = Some c /\
       (live_score bbox live c <? infinity)%float = true /\
       (forall c', In c' prepared ->
          (live_score bbox live c' <? live_score bbox live c)%float = false) /\
       (forall j c', (j < Z.to_nat r)%nat -> nth_error prepared j = Some c' ->
          is_nan (live_score bbox live c') = true \/
          (live_score bbox live c <? live_score bbox live c')%float = true) /\
       transformFrameIndex (snd res) = r /\
       trace (snd res)
       = trace m ++ MatcherInvoked ::
           (if emitSelection
            then [Fired (mkSelected r (prepared_length prepared)
                                    (file_path (Prepared.frame c))
                                    (colmap_im_id (Prepared.frame c)))]
            else [])).
Proof.
  intros host bbox prepared emitSelection m. cbn zeta.
  unfold pickNearestFrameForCurrentView, live_score.
  destruct (prepared_length prepared =? 0) eqn:Hlen.
  - left. apply prepared_length_zero in Hlen. subst prepared.
    cbn [fst snd]. repeat split;
      [cbn [trace emit]; now rewrite fired_selections_app, app_nil_r|intros c []].
  - rewrite this_camera_emit. unfold bestIndex_of.
    set (live := this_camera m). set (fwd := cameraForwardFromAngles live).
    pose proof (nearest_loop_spec bbox live fwd prepared 0 (-1) infinity) as Hloop.
    cbn zeta in Hloop.
    destruct Hloop as [(Hi & _ & Hall)|(k & c & Hi & Hn & _ & Hc & Hmin & Hfirst)].
    + left. rewrite Hi. change (-1 <? 0) with true. cbn [fst snd].
      repeat split.
      * cbn [trace emit]. now rewrite fired_selections_app, app_nil_r.
      * intros c Hin. rewrite <- score_is_spec_score. now apply Hall.
    + right. rewrite Hi.
      assert (Hk : (0 + Z.of_nat k <? 0) = false) by (apply Z.ltb_ge; lia).
      rewrite Hk. cbn [fst snd].
      replace (Z.to_nat (0 + Z.of_nat k)) with k by lia.
      assert (Hlt : (k < List.length prepared)%nat)
        by (apply nth_error_Some; congruence).
      assert (Hsel : forall m0 : Manager,
                emitSelectedTransformFrame prepared
                  (set_transformFrameIndex (0 + Z.of_nat k) m0)
                = emit (Fired (mkSelected (0 + Z.of_nat k) (prepared_length prepared)
                                          (file_path (Prepared.frame c))
                                          (colmap_im_id (Prepared.frame c))))
                       (set_transformFrameIndex (0 + Z.of_nat k) m0)).
      { intros m0. unfold emitSelectedTransformFrame, prepared_at.
        cbn [transformFrameIndex set_transformFrameIndex].
        rewrite Hk.
        replace (0 + Z.of_nat k >=? prepared_length prepared) with false
          by (symmetry; unfold prepared_length; rewrite Z.geb_leb; apply Z.leb_gt; lia).
        cbn [orb]. replace (Z.to_nat (0 + Z.of_nat k)) with k by lia.
        now rewrite Hn. }
      exists c. repeat split.
      * lia.
      * assumption.
      * now rewrite <- score_is_spec_score.
      * intros c' Hin. rewrite <- !score_is_spec_score. now apply Hmin.
      * intros j c' Hj Hnth. rewrite <- !score_is_spec_score.
        now apply (Hfirst j).
      * destruct emitSelection; [now rewrite Hsel|reflexivity].
      * destruct emitSelection; [rewrite Hsel|]; cbn [trace emit set_transformFrameIndex];
          [now rewrite <- app_assoc|reflexivity].
Qed.

(** A number that is +Infinity or NaN stays so whatever is added to it,
    and never compares below +Infinity. *)
Lemma inf_or_nan_add a b : inf_or_nan a -> inf_or_nan (a + b)%float.
Proof.
  unfold inf_or_nan. rewrite add_spec. unfold SF64add.
  intros [-> | ->]; destruct (Prim2SF b) as [sb|sb| |sb mb eb]; cbn;
    try (now left); try (now right).
  destruct sb; cbn; [now right|now left].
Qed.

Lemma inf_or_nan_not_below a : inf_or_nan a -> (a <? infinity)%float = false.
Proof.
  unfold inf_or_nan. rewrite ltb_spec. now intros [-> | ->].
Qed.

Lemma far_score_inf_or_nan (host : Host) :
  inf_or_nan
    (score unit_bbox origin_camera (cameraForwardFromAngles origin_camera)
           (candidate_at "frame_001.png" (Vec3.mk 1e200 0 0) (Vec3.mk 0 0 (-1)) 60)).
Proof.
  unfold score.
  repeat apply inf_or_nan_add.
  left. vm_compute. reflexivity.
Qed.

(** On the far dataset the matcher finds no frame, whatever the host. *)
Lemma far_dataset_no_match (host : Host) (emitSelection : bool) (m : Manager) :
  this_camera m = origin_camera ->
  pickNearestFrameForCurrentView unit_bbox far_dataset emitSelection m
  = (-1, emit MatcherInvoked m).
Proof.
  intros Hcam. unfold pickNearestFrameForCurrentView.
  change (prepared_length far_dataset =? 0) with false. cbv iota.
  rewrite this_camera_emit, Hcam.
  unfold bestIndex_of, far_dataset. cbn [nearest_loop].
  rewrite (inf_or_nan_not_below _ (far_score_inf_or_nan host)).
  reflexivity.
Qed.

(** C1 as stated fails: on this non-empty dataset, whatever the host, the
    matcher returns -1 and not the index of a candidate, and the selection
    is what it was. *)
Lemma nearest_frame_none_on_overflow :
  far_dataset <> [] /\
  forall (host : Host) (emitSelection : bool) (m : Manager),
    this_camera m = origin_camera ->
    fst (pickNearestFrameForCurrentView unit_bbox far_dataset emitSelection m) = -1
    /\ transformFrameIndex
         (snd (pickNearestFrameForCurrentView unit_bbox far_dataset emitSelection m))
       = transformFrameIndex m
    /\ fired_selections
         (trace (snd (pickNearestFrameForCurrentView unit_bbox far_dataset emitSelection m)))
       = fired_selections (trace m).
Proof.
  split; [discriminate|].
  intros host emitSelection m Hcam. rewrite far_dataset_no_match by assumption.
  cbn [fst snd emit transformFrameIndex trace].
  now rewrite fired_selections_app, app_nil_r.
Qed.

(** Two candidates at the same distance, the second one equal to the
    first: the tie goes to index 0.  With the nearer one second, index 1. *)
Example nearest_frame_tie_first :
  fst (pickNearestFrameForCurrentView (host := sample_host) unit_bbox
         [candidate_at "a" (Vec3.mk 1 0 0) (Vec3.mk 0 0 (-1)) 60;
          candidate_at "b" (Vec3.mk 1 0 0) (Vec3.mk 0 0 (-1)) 60]
         true (manager_with origin_camera (-1))) = 0
  /\
  fst (pickNearestFrameForCurrentView (host := sample_host) unit_bbox
         [candidate_at "a" (Vec3.mk 2 0 0) (Vec3.mk 0 0 (-1)) 60;
          candidate_at "b" (Vec3.mk 1 0 0) (Vec3.mk 0 0 (-1)) 60]
         true (manager_with origin_camera (-1))) = 1.
Proof. split; vm_compute; reflexivity. Qed.

(** ** C2: the sort key and the order of the dataset *)

Lemma strip_literal_ci_app lit : forall literal rest,
  map to_lower lit = literal ->
  strip_literal_ci literal (lit ++ rest) = Some rest.
Proof.
  induction lit as [|c lit IH]; intros literal rest <-; cbn.
  - reflexivity.
  - rewrite Ascii.eqb_refl. now apply IH.
Qed.

Lemma strip_literal_ci_inv literal : forall s after,
  strip_literal_ci literal s = Some after ->
  exists lit, s = lit ++ after /\ map to_lower lit = literal.
Proof.
  induction literal as [|a literal IH]; intros s after H; cbn in H.
  - exists []. destruct s; injection H as <-; now split.
  - destruct s as [|c s]; [discriminate|].
    destruct (Ascii.eqb (to_lower c) a) eqn:E; [|discriminate].
    apply Ascii.eqb_eq in E. destruct (IH _ _ H) as (lit & -> & Hl).
    exists (c :: lit). cbn. now rewrite E, Hl.
Qed.

Lemma span_digits_all ds : forall rest,
  forallb is_digit ds = true ->
  match rest with [] => True | c :: _ => is_digit c = false end ->
  span_digits (ds ++ rest) = (ds, rest).
Proof.
  induction ds as [|d ds IH]; intros rest Hds Hrest; cbn [span_digits app].
  - destruct rest as [|c rest]; [reflexivity|]. cbn [span_digits]. now rewrite Hrest.
  - cbn [forallb] in Hds. apply andb_true_iff in Hds as [Hd Hds].
    rewrite Hd, (IH rest Hds Hrest). reflexivity.
Qed.

(** What is left after the digits still ends with whatever began at a
    character that is not a digit. *)
Lemma span_digits_keeps_tail q : forall c t,
  is_digit c = false ->
  exists q', snd (span_digits (q ++ c :: t)) = q' ++ c :: t.
Proof.
  induction q as [|a q IH]; intros c t Hc; cbn [span_digits app].
  - rewrite Hc. now exists [].
  - destruct (is_digit a).
    + destruct (IH c t Hc) as (q' & Hq').
      destruct (span_digits (q ++ c :: t)) as [ds rest]. cbn in *. now exists q'.
    + now exists (a :: q).
Qed.

Lemma no_extension_across_dot q : forall ds ext,
  optional_extension_then_end (q ++ "_"%char :: ds ++ "."%char :: ext) = false.
Proof.
  intros ds ext. destruct q as [|c q]; cbn.
  - reflexivity.
  - destruct (Ascii.eqb c "."); [|reflexivity]. cbn [andb].
    assert (H : forallb ext_char (q ++ "_"%char :: ds ++ "."%char :: ext) = false).
    { rewrite forallb_app. cbn [forallb]. rewrite forallb_app. cbn [forallb].
      change (ext_char ".") with false.
      rewrite andb_false_l, !andb_false_r. reflexivity. }
    rewrite H. now destruct (q ++ "_"%char :: ds ++ "."%char :: ext).
Qed.

Lemma to_lower_underscore c : to_lower c = "_"%char -> c = "_"%char.
Proof.
  unfold to_lower. intros H.
  destruct ((65 <=? nat_of_ascii c)%nat && (nat_of_ascii c <=? 90)%nat) eqn:E;
    [|assumption].
  apply andb_true_iff in E as [E1 E2].
  apply Nat.leb_le in E1. apply Nat.leb_le in E2.
  apply (f_equal nat_of_ascii) in H.
  rewrite nat_ascii_embedding in H by lia. cbn in H. lia.
Qed.

(** A case variant of [frame_] is five characters and an underscore. *)
Lemma frame_literal_shape lit :
  map to_lower lit = frame_literal ->
  exists l5, lit = l5 ++ ["_"%char] /\ List.length l5 = 5%nat.
Proof.
  intros H.
  destruct lit as [|c1 [|c2 [|c3 [|c4 [|c5 [|c6 [|c7 lit]]]]]]]; try discriminate H.
  cbn in H. injection H as _ _ _ _ _ H6.
  apply to_lower_underscore in H6. subst c6.
  exists [c1; c2; c3; c4; c5]. now split.
Qed.

Lemma map_to_lower_length lit literal :
  map to_lower lit = literal -> List.length lit = List.length literal.
Proof. intros <-. now rewrite length_map. Qed.

Lemma underscore_not_digit : is_digit "_" = false.
Proof. reflexivity. Qed.

Lemma dot_not_digit : is_digit "." = false.
Proof. reflexivity. Qed.

(** At the token itself the pattern matches and captures the digits. *)
Lemma match_here_token lit ds ext :
  map to_lower lit = frame_literal ->
  ds <> [] -> forallb is_digit ds = true ->
  ext <> [] -> forallb ext_char ext = true ->
  match_here (lit ++ ds ++ "."%char :: ext) = Some ds.
Proof.
  intros Hlit Hne Hds Hene Hext. unfold match_here.
  rewrite (strip_literal_ci_app lit frame_literal _ Hlit).
  rewrite (span_digits_all ds ("."%char :: ext) Hds dot_not_digit).
  destruct ds as [|d ds]; [congruence|].
  cbn [optional_extension_then_end]. rewrite Ascii.eqb_refl, Hext.
  now destruct ext.
Qed.

(** Before a token that is followed by an extension the pattern cannot
    match: its tail would have to run across the dot. *)
Lemma match_here_none_before p lit ds ext :
  p <> [] -> map to_lower lit = frame_literal ->
  match_here (p ++ lit ++ ds ++ "."%char :: ext) = None.
Proof.
  intros Hp Hlit. unfold match_here.
  destruct (strip_literal_ci frame_literal _) as [after|] eqn:Hstrip; [|reflexivity].
  apply strip_literal_ci_inv in Hstrip as (lit' & Heq & Hlit').
  apply map_to_lower_length in Hlit'. change (List.length frame_literal) with 6%nat in Hlit'.
  destruct (frame_literal_shape lit Hlit) as (l5 & -> & Hl5).
  assert (Hafter : exists q, after = q ++ "_"%char :: ds ++ "."%char :: ext).
  { apply (f_equal (skipn 6)) in Heq.
    rewrite <- app_assoc in Heq. cbn [app] in Heq.
    rewrite app_assoc in Heq.
    rewrite (skipn_app 6 (p ++ l5)) in Heq.
    rewrite (skipn_app 6 lit') in Heq.
    rewrite (skipn_all2 lit') in Heq by lia.
    assert (Hlen : (6 <= List.length (p ++ l5))%nat).
    { rewrite length_app, Hl5. destruct p; [congruence|cbn; lia]. }
    replace (6 - List.length (p ++ l5))%nat with 0%nat in Heq by lia.
    replace (6 - List.length lit')%nat with 0%nat in Heq by lia.
    cbn [skipn app] in Heq. now exists (skipn 6 (p ++ l5)). }
  destruct Hafter as (q & ->).
  destruct (span_digits_keeps_tail q "_"%char (ds ++ "."%char :: ext) underscore_not_digit)
    as (q' & Hq').
  destruct (span_digits (q ++ "_"%char :: ds ++ "."%char :: ext)) as [ds' rest] eqn:Hspan.
  cbn [snd] in Hq'. subst rest.
  rewrite no_extension_across_dot. now destruct ds'.
Qed.

Lemma regex_match_token pre : forall lit ds ext,
  map to_lower lit = frame_literal ->
  ds <> [] -> forallb is_digit ds = true ->
  ext <> [] -> forallb ext_char ext = true ->
  regex_match (pre ++ lit ++ ds ++ "."%char :: ext) = Some ds.
Proof.
  induction pre as [|c pre IH]; intros lit ds ext Hlit Hne Hds Hene Hext.
  - cbn [app]. destruct lit as [|l lit]; [discriminate Hlit|].
    cbn [regex_match app]. change (l :: lit ++ ds ++ "."%char :: ext)
      with ((l :: lit) ++ ds ++ "."%char :: ext).
    now rewrite match_here_token.
  - cbn [app regex_match].
    change (c :: pre ++ lit ++ ds ++ "."%char :: ext)
      with ((c :: pre) ++ lit ++ ds ++ "."%char :: ext).
    rewrite match_here_none_before by (assumption || discriminate).
    now apply IH.
Qed.

Lemma span_digits_spec s :
  s = fst (span_digits s) ++ snd (span_digits s) /\
  forallb is_digit (fst (span_digits s)) = true.
Proof.
  induction s as [|c s [IH1 IH2]]; cbn [span_digits]; [now split|].
  destruct (is_digit c) eqn:E; [|now split].
  destruct (span_digits s) as [ds rest]. cbn [fst snd app forallb] in *.
  rewrite E, IH2. split; [now f_equal|reflexivity].
Qed.

Lemma optional_extension_first tail :
  optional_extension_then_end tail = true ->
  match tail with [] => True | c :: _ => is_digit c = false end.
Proof.
  destruct tail as [|c e]; [easy|]. cbn [optional_extension_then_end].
  intros H. apply andb_true_iff in H as [H _]. apply Ascii.eqb_eq in H. now subst c.
Qed.

(** The pattern matches somewhere exactly when the path has the token. *)
Lemma regex_match_some_iff s :
  (exists ds, regex_match s = Some ds) <-> has_frame_token s.
Proof.
  split.
  - intros [ds H]. induction s as [|c s IH].
    + cbn in H. discriminate.
    + cbn [regex_match] in H.
      destruct (match_here (c :: s)) as [ds'|] eqn:Hhere.
      * clear IH H. unfold match_here in Hhere.
        destruct (strip_literal_ci frame_literal (c :: s)) as [after|] eqn:Hs;
          [|discriminate].
        apply strip_literal_ci_inv in Hs as (lit & Heq & Hlit).
        destruct (span_digits_spec after) as [Happ Hds].
        destruct (span_digits after) as [ds0 rest]. cbn [fst snd] in *.
        destruct ds0 as [|d ds0]; [discriminate|].
        destruct (optional_extension_then_end rest) eqn:Hext; [|discriminate].
        exists [], lit, (d :: ds0), rest. cbn [app].
        repeat split; try assumption; [now rewrite Heq, Happ|discriminate].
      * destruct (IH H) as (pre & lit & ds0 & tail & -> & Hrest).
        exists (c :: pre), lit, ds0, tail. now split.
  - intros (pre & lit & ds & tail & -> & Hlit & Hne & Hds & Htail).
    induction pre as [|c pre IH]; cbn [app regex_match].
    + assert (Hhere : match_here (lit ++ ds ++ tail) = Some ds).
      { unfold match_here. rewrite (strip_literal_ci_app lit frame_literal _ Hlit).
        rewrite (span_digits_all ds tail Hds (optional_extension_first tail Htail)).
        destruct ds; [congruence|]. now rewrite Htail. }
      destruct lit as [|l lit]; [discriminate Hlit|].
      cbn [app regex_match]. cbn [app] in Hhere. rewrite Hhere. now exists ds.
    + destruct (match_here (c :: pre ++ lit ++ ds ++ tail)) as [ds'|];
        [now exists ds'|assumption].
Qed.

(** What the pattern captures is a non-empty run of digits. *)
Lemma regex_match_digits s : forall ds,
  regex_match s = Some ds -> ds <> [] /\ forallb is_digit ds = true.
Proof.
  induction s as [|c s IH]; intros ds H; cbn [regex_match] in H.
  - cbn in H. discriminate.
  - destruct (match_here (c :: s)) as [ds'|] eqn:Hhere; [|now apply IH].
    injection H as ->. unfold match_here in Hhere.
    destruct (strip_literal_ci frame_literal (c :: s)) as [after|]; [|discriminate].
    destruct (span_digits_spec after) as [_ Hds].
    destruct (span_digits after) as [ds0 rest]. cbn [fst] in Hds.
    destruct ds0 as [|d ds0]; [discriminate|].
    destruct (optional_extension_then_end rest); [|discriminate].
    injection Hhere as <-. split; [discriminate|assumption].
Qed.

(** *** Rounding to a double *)

Lemma nearest_double_small z : z < 2 ^ 53 -> nearest_double z = Some z.
Proof.
  intros H. unfold nearest_double.
  now replace (z <? 2 ^ 53) with true by (symmetry; apply Z.ltb_lt; exact H).
Qed.

(** Above 2^53 the significand [z / 2^e] has 53 bits. *)
Lemma significand_range z :
  2 ^ 53 <= z ->
  let e := Z.log2 z - 52 in
  1 <= e /\ 0 < 2 ^ e /\ 2 ^ 52 <= z / 2 ^ e < 2 ^ 53.
Proof.
  intros Hz. cbn zeta.
  assert (Hpos : 0 < z) by (assert (0 < 2 ^ 53) by reflexivity; lia).
  destruct (Z.log2_spec z Hpos) as [Hlo Hhi].
  assert (Hlog : 53 <= Z.log2 z).
  { rewrite <- (Z.log2_pow2 53) by lia. now apply Z.log2_le_mono. }
  set (e := Z.log2 z - 52) in *.
  assert (He : 0 < 2 ^ e) by (apply Z.pow_pos_nonneg; lia).
  assert (Hsplit : 2 ^ Z.log2 z = 2 ^ 52 * 2 ^ e).
  { rewrite <- Z.pow_add_r by lia. f_equal. unfold e. lia. }
  assert (Hsplit' : 2 ^ Z.succ (Z.log2 z) = 2 ^ 53 * 2 ^ e).
  { rewrite <- Z.pow_add_r by lia. f_equal. unfold e. lia. }
  split; [unfold e; lia|]. split; [assumption|]. split.
  - apply Z.div_le_lower_bound; [assumption|]. rewrite Z.mul_comm. lia.
  - apply Z.div_lt_upper_bound; [assumption|]. rewrite Z.mul_comm. lia.
Qed.

Lemma nearest_double_positive z v : 0 < z -> nearest_double z = Some v -> 0 < v.
Proof.
  intros Hz. unfold nearest_double.
  destruct (Z.ltb_spec z (2 ^ 53)) as [Hs|Hl]; [intros [= <-]; assumption|].
  destruct (significand_range z Hl) as (_ & He & Hq & _).
  set (e := Z.log2 z - 52) in *. set (q := z / 2 ^ e) in *.
  assert (H52 : 0 < 2 ^ 52) by reflexivity.
  match goal with |- context [?q' * 2 ^ e <? _] => set (q1 := q') end.
  assert (Hq1 : 0 < q1).
  { unfold q1. destruct (_ <? _); [lia|]. destruct (_ <? _); [lia|].
    destruct (Z.even q); lia. }
  destruct (q1 * 2 ^ e <? 2 ^ 1024); [|discriminate].
  intros [= <-]. now apply Z.mul_pos_pos.
Qed.

Lemma Number_of_Z_positive d : num_positive (Number_of_Z d) = (0 <? d).
Proof.
  destruct d as [|d|d]; cbn [Number_of_Z]; [reflexivity| |].
  - destruct (nearest_double (Z.pos d)) as [v|] eqn:E; [|reflexivity].
    apply nearest_double_positive in E; [|reflexivity].
    cbn [num_positive]. change (0 <? Z.pos d) with true. now apply Z.ltb_lt.
  - destruct (nearest_double (- Z.neg d)) as [v|] eqn:E; [|reflexivity].
    apply nearest_double_positive in E; [|reflexivity].
    cbn [num_positive]. change (0 <? Z.neg d) with false. apply Z.ltb_ge. lia.
Qed.

Lemma Number_of_Z_nonzero d : num_nonzero (Number_of_Z d) = negb (d =? 0).
Proof.
  destruct d as [|d|d]; cbn [Number_of_Z]; [reflexivity| |].
  - destruct (nearest_double (Z.pos d)) as [v|] eqn:E; [|reflexivity].
    apply nearest_double_positive in E; [|reflexivity].
    destruct v; [lia|reflexivity|reflexivity].
  - destruct (nearest_double (- Z.neg d)) as [v|] eqn:E; [|reflexivity].
    apply nearest_double_positive in E; [|reflexivity].
    destruct v; [lia|reflexivity|reflexivity].
Qed.

Lemma Number_of_Z_small z : 0 <= z < 2 ^ 53 -> Number_of_Z z = Fin z.
Proof.
  intros [H0 H]. destruct z as [|z|z]; cbn [Number_of_Z]; [reflexivity| |lia].
  now rewrite nearest_double_small.
Qed.

Lemma Number_of_Z_not_nan z : Number_isNaN (Number_of_Z z) = false.
Proof.
  destruct z as [|z|z]; cbn [Number_of_Z]; [reflexivity| |].
  - now destruct (nearest_double (Z.pos z)).
  - now destruct (nearest_double (- Z.neg z)).
Qed.

Lemma Number_of_Z_is_sort_key z : 0 <= z -> is_sort_key (Number_of_Z z).
Proof.
  intros H. destruct z as [|z|z]; cbn [Number_of_Z]; [cbn; lia| |lia].
  destruct (nearest_double (Z.pos z)) as [v|] eqn:E; [|exact I].
  apply nearest_double_positive in E; [|reflexivity]. cbn. lia.
Qed.

(** The rounded value overflows exactly from 2^1024 - 2^970 on, half way
    between the largest double and 2^1024. *)
Lemma nearest_double_overflow z :
  0 < z -> (nearest_double z = None <-> 2 ^ 1024 - 2 ^ 970 <= z).
Proof.
  intros Hz. unfold nearest_double.
  destruct (Z.ltb_spec z (2 ^ 53)) as [Hs|Hl].
  - split; [discriminate|]. intros H. exfalso.
    assert (2 ^ 53 < 2 ^ 1024 - 2 ^ 970) by reflexivity. lia.
  - destruct (significand_range z Hl) as (He1 & He & Hq1 & Hq2).
    destruct (Z.log2_spec z Hz) as [Hlo Hhi].
    remember (Z.log2 z - 52) as e eqn:Ee.
    remember (z / 2 ^ e) as q eqn:Eq.
    remember (z mod 2 ^ e) as r eqn:Er.
    assert (Hdm : z = 2 ^ e * q + r) by (subst q r; apply Z.div_mod; lia).
    assert (Hr : 0 <= r < 2 ^ e) by (subst r; apply Z.mod_pos_bound; assumption).
    clear Eq Er.
    assert (Hhalf : 2 ^ e = 2 * 2 ^ (e - 1)).
    { rewrite <- (Z.pow_succ_r 2 (e - 1)) by lia. f_equal. lia. }
    remember (2 ^ (e - 1)) as half eqn:Ehalf.
    remember (if r <? half then q else if half <? r then q + 1
              else if Z.even q then q else q + 1) as q1 eqn:Eq1.
    assert (Hq1' : q <= q1 <= q + 1).
    { subst q1. destruct (_ <? _); [lia|]. destruct (_ <? _); [lia|].
      destruct (Z.even q); lia. }
    assert (Hround : (q1 = q + 1 -> half <= r) /\
                     (half <= r -> q1 = q + 1 \/ (r = half /\ Z.even q = true))).
    { subst q1. destruct (Z.ltb_spec r half); [lia|].
      destruct (Z.ltb_spec half r); [lia|].
      destruct (Z.even q) eqn:Ev; [|lia]. split; [lia|]. intros _. right. lia. }
    destruct Hround as [Hup1 Hup2].
    assert (H1024 : 2 ^ 1024 = 2 ^ 53 * 2 ^ 971) by reflexivity.
    assert (L : Z.log2 z = e + 52) by lia.
    clear Ee.
    destruct (Z.lt_trichotomy e 971) as [Hlt|[Heq|Hgt]].
    + (* at most 2^1023 *)
      assert (Hpe : 2 ^ e <= 2 ^ 970) by (apply Z.pow_le_mono_r; lia).
      assert (Hv : q1 * 2 ^ e <= 2 ^ 53 * 2 ^ 970)
        by (apply Z.mul_le_mono_nonneg; lia).
      assert (Hc : 2 ^ 53 * 2 ^ 970 < 2 ^ 1024) by reflexivity.
      replace (q1 * 2 ^ e <? 2 ^ 1024) with true by (symmetry; apply Z.ltb_lt; lia).
      split; [discriminate|]. intros H. exfalso.
      assert (Hz2 : 2 ^ Z.succ (Z.log2 z) <= 2 ^ 1023) by (apply Z.pow_le_mono_r; lia).
      assert (Hc2 : 2 ^ 1023 < 2 ^ 1024 - 2 ^ 970) by reflexivity.
      lia.
    + (* the last binade *)
      subst e. 
      assert (Ehalf' : half = 2 ^ 970) by (subst half; reflexivity).
      clear Ehalf. 
      assert (Hthr : 2 ^ 1024 - 2 ^ 970 = 2 ^ 971 * (2 ^ 53 - 1) + 2 ^ 970) by reflexivity.
      assert (Hodd : Z.even (2 ^ 53 - 1) = false) by reflexivity.
      rewrite Hthr, H1024.
      generalize dependent (2 ^ 971). intros A. intros.
      rewrite Ehalf' in *. generalize dependent (2 ^ 970). intros B. intros.
      assert (H53 : 2 ^ 53 = 9007199254740992) by reflexivity.
      assert (H52 : 2 ^ 52 = 4503599627370496) by reflexivity.
      rewrite H53, H52 in *. 
      destruct (Z.ltb_spec (q1 * A) (9007199254740992 * A)) as [Hv|Hv].
      * split; [discriminate|]. intros H. exfalso.
        assert (q1 < 9007199254740992) by (apply (Z.mul_lt_mono_pos_r A); lia).
        destruct (Z.eq_dec q (9007199254740992 - 1)) as [E|E].
        -- assert (half_le : B <= r) by (subst q; lia).
           destruct (Hup2 half_le) as [H1|[_ H2]]; [lia|].
           subst q. vm_compute in H2. discriminate.
        -- assert (q <= 9007199254740992 - 2) by lia.
           assert (A * q <= A * (9007199254740992 - 2)) by (apply Z.mul_le_mono_nonneg_l; lia).
           lia.
      * split; [intros _|reflexivity].
        assert (9007199254740992 <= q1) by (apply (Z.mul_le_mono_pos_r _ _ A); lia).
        assert (q = 9007199254740992 - 1) by lia.
        assert (q1 = q + 1) by lia.
        specialize (Hup1 ltac:(assumption)). subst q. lia.
    + (* from 2^1024 on *)
      assert (Hpe : 2 ^ 972 <= 2 ^ e) by (apply Z.pow_le_mono_r; lia).
      assert (Hv : 2 ^ 52 * 2 ^ 972 <= q1 * 2 ^ e)
        by (apply Z.mul_le_mono_nonneg; first [lia | apply Z.pow_nonneg; lia]).
      assert (Hc : 2 ^ 52 * 2 ^ 972 = 2 ^ 1024) by reflexivity.
      replace (q1 * 2 ^ e <? 2 ^ 1024) with false by (symmetry; apply Z.ltb_ge; lia).
      split; [intros _|reflexivity].
      assert (Hz2 : 2 ^ 1024 <= 2 ^ Z.log2 z) by (apply Z.pow_le_mono_r; lia).
      assert (0 < 2 ^ 970) by reflexivity. lia.
Qed.

Lemma Number_of_Z_infinite z :
  0 <= z -> (Number_of_Z z = PosInf <-> 2 ^ 1024 - 2 ^ 970 <= z).
Proof.
  intros H. destruct z as [|z|z]; cbn [Number_of_Z]; [|clear H|lia].
  - split; [discriminate|]. intros H1. exfalso.
    assert (0 < 2 ^ 1024 - 2 ^ 970) by reflexivity. lia.
  - rewrite <- (nearest_double_overflow (Z.pos z)) by reflexivity.
    destruct (nearest_double (Z.pos z)); split; (reflexivity || discriminate).
Qed.

Lemma parse_digits_nonneg ds : forall acc, 0 <= acc -> 0 <= parse_digits acc ds.
Proof.
  induction ds as [|d ds IH]; intros acc Hacc; cbn [parse_digits]; [assumption|].
  apply IH. unfold digit_value. lia.
Qed.

Lemma Number_parseInt_digits ds :
  ds <> [] -> forallb is_digit ds = true ->
  Number_parseInt ds = Number_of_Z (parse_digits 0 ds).
Proof.
  intros Hne Hds. unfold Number_parseInt.
  rewrite <- (app_nil_r ds) at 1.
  rewrite (span_digits_all ds [] Hds I). cbn [fst].
  now destruct ds.
Qed.

Lemma extractFrameSortKey_is_sort_key f : is_sort_key (extractFrameSortKey f).
Proof.
  unfold extractFrameSortKey.
  destruct (regex_match _) as [ds|]; [|exact I].
  unfold Number_parseInt. destruct (fst (span_digits ds)) as [|d ds'] eqn:E.
  - exact I.
  - assert (H : is_sort_key (Number_of_Z (parse_digits 0 (d :: ds')))).
    { apply Number_of_Z_is_sort_key. apply parse_digits_nonneg. lia. }
    destruct (Number_of_Z (parse_digits 0 (d :: ds'))); try exact H; contradiction.
Qed.

(** The insertion sort, for a comparator that agrees with an order [R] on
    the elements that satisfy [P]. *)
Section SortFacts.
Variable A : Type.
Variable comparefn : A -> A -> num.
Variable P : A -> Prop.
Variable R : A -> A -> Prop.
Hypothesis R_after : forall a b, P a -> P b ->
  num_positive (comparefn a b) = true -> R b a.
Hypothesis R_before : forall a b, P a -> P b ->
  num_positive (comparefn a b) = false -> R a b.
Hypothesis R_trans : forall a b c, P a -> P b -> P c -> R a b -> R b c -> R a c.

Lemma sort_insert_perm a l : Permutation (sort_insert comparefn a l) (a :: l).
Proof.
  induction l as [|b l IH]; cbn [sort_insert]; [reflexivity|].
  destruct (num_positive (comparefn a b)); [|reflexivity].
  rewrite IH. apply perm_swap.
Qed.

Lemma Array_sort_perm l : Permutation (Array_sort comparefn l) l.
Proof.
  induction l as [|a l IH]; cbn [Array_sort]; [reflexivity|].
  rewrite sort_insert_perm. now constructor.
Qed.

Lemma sort_insert_sorted a l :
  P a -> Forall P l -> StronglySorted R l ->
  StronglySorted R (sort_insert comparefn a l).
Proof.
  intros Pa. induction l as [|b l IH]; intros HP Hs; cbn [sort_insert].
  - constructor; constructor.
  - inversion HP as [|? ? Pb HPl]; subst.
    inversion Hs as [|? ? Hsl Hb]; subst.
    destruct (num_positive (comparefn a b)) eqn:E.
    + constructor; [now apply IH|].
      apply (Permutation_Forall (Permutation_sym (sort_insert_perm a l))).
      constructor; [now apply R_after|assumption].
    + constructor; [assumption|].
      assert (Rab : R a b) by now apply R_before.
      constructor; [assumption|].
      rewrite Forall_forall in *. intros y Hy.
      apply (R_trans a b y); auto.
Qed.

Lemma Array_sort_sorted l :
  Forall P l -> StronglySorted R (Array_sort comparefn l).
Proof.
  induction l as [|a l IH]; intros HP; cbn [Array_sort]; [constructor|].
  inversion HP; subst. apply sort_insert_sorted; [assumption| |now apply IH].
  now apply (Permutation_Forall (Permutation_sym (Array_sort_perm l))).
Qed.

End SortFacts.

Lemma StronglySorted_filter {A : Type} (R : A -> A -> Prop) (keep : A -> bool) l :
  StronglySorted R l -> StronglySorted R (filter keep l).
Proof.
  induction 1 as [|a l Hs IH Ha]; cbn [filter]; [constructor|].
  destruct (keep a); [|assumption].
  constructor; [assumption|].
  rewrite Forall_forall in *. intros y Hy. apply filter_In in Hy as [Hy _]. auto.
Qed.

(** The comparator on two finite keys: the sign of the rounded difference
    is the sign of the difference, and equal keys fall back on the paths. *)
Lemma compare_finite_keys p q lc :
  num_positive (if num_nonzero (num_sub (Fin p) (Fin q))
                then num_sub (Fin p) (Fin q) else Fin lc)
  = if p =? q then 0 <? lc else q <? p.
Proof.
  cbn [num_sub]. rewrite Number_of_Z_nonzero.
  destruct (Z.eqb_spec p q) as [->|Hne].
  - rewrite Z.sub_diag. reflexivity.
  - replace (p - q =? 0) with false by (symmetry; apply Z.eqb_neq; lia).
    cbn [negb]. rewrite Number_of_Z_positive.
    destruct (Z.ltb_spec 0 (p - q)), (Z.ltb_spec q p); (reflexivity || lia).
Qed.

Section OrderFacts.
Context {host : Host}.
Hypothesis localeCompare_total : forall a b,
  0 < localeCompare a b -> localeCompare b a <= 0.
Hypothesis localeCompare_trans : forall a b c,
  localeCompare a b <= 0 -> localeCompare b c <= 0 -> localeCompare a c <= 0.

Let keyed (f : TransformFrame) : Prop := is_sort_key (key_of f).

Lemma compareFrames_after a b :
  keyed a -> keyed b -> num_positive (compareFrames a b) = true -> frame_order b a.
Proof.
  unfold keyed, is_sort_key, compareFrames, frame_order.
  destruct (key_of a) as [p| | |], (key_of b) as [q| | |]; try (cbn; easy).
  intros _ _. rewrite compare_finite_keys.
  destruct (Z.eqb_spec p q) as [->|Hne]; intros H; apply Z.ltb_lt in H.
  - right. split; [reflexivity|]. now apply localeCompare_total.
  - left. lia.
Qed.

Lemma compareFrames_before a b :
  keyed a -> keyed b -> num_positive (compareFrames a b) = false -> frame_order a b.
Proof.
  unfold keyed, is_sort_key, compareFrames, frame_order.
  destruct (key_of a) as [p| | |], (key_of b) as [q| | |]; try (cbn; easy).
  intros _ _. rewrite compare_finite_keys.
  destruct (Z.eqb_spec p q) as [->|Hne]; intros H; apply Z.ltb_ge in H.
  - right. split; [reflexivity|assumption].
  - left. lia.
Qed.

Lemma frame_order_trans a b c :
  keyed a -> keyed b -> keyed c -> frame_order a b -> frame_order b c -> frame_order a c.
Proof.
  unfold keyed, is_sort_key, frame_order.
  destruct (key_of a) as [p| | |], (key_of b) as [q| | |], (key_of c) as [r| | |];
    try easy.
  intros _ _ _ [H1|[H1 L1]] [H2|[H2 L2]]; try (left; lia).
  right. split; [lia|]. now apply localeCompare_trans with (path_or_empty b).
Qed.

Lemma with_sort_key_keyed f : keyed (with_sort_key f).
Proof. apply extractFrameSortKey_is_sort_key. Qed.

Lemma validTransformFrames_sorted frames :
  StronglySorted frame_order (validTransformFrames frames).
Proof.
  unfold validTransformFrames.
  apply Array_sort_sorted with (P := keyed).
  - exact compareFrames_after.
  - exact compareFrames_before.
  - exact frame_order_trans.
  - rewrite Forall_forall. intros f Hf. apply in_map_iff in Hf as (g & <- & _).
    apply with_sort_key_keyed.
Qed.

End OrderFacts.

Lemma filter_map_frames {host : Host} fov rot l :
  map Prepared.frame (filter_map (prepare_frame fov rot) l)
  = filter (fun f => negb (malformed_matrix (transform_matrix f))) l.
Proof.
  induction l as [|f l IH]; cbn [filter_map filter map]; [reflexivity|].
  unfold prepare_frame at 1. unfold frameToCamera.
  destruct (malformed_matrix (transform_matrix f)); cbn [negb]; [assumption|].
  destruct (rot); cbn [map Prepared.frame]; now rewrite IH.
Qed.

(** The frames of the prepared dataset: those of [validTransformFrames]
    that pass the guard of [frameToCamera], in the same order. *)
Lemma prepared_frames {host : Host} frames fov rot :
  map Prepared.frame (prepareTransformFrames frames fov rot)
  = filter (fun f => negb (malformed_matrix (transform_matrix f)))
           (validTransformFrames frames).
Proof. apply filter_map_frames. Qed.

(** The key of a path whose leftmost token captures the digits [ds]. *)
Lemma extractFrameSortKey_of_digits f ds :
  regex_match (list_ascii_of_string (path_or_empty f)) = Some ds ->
  extractFrameSortKey f = Number_of_Z (parse_digits 0 ds).
Proof.
  intros H. unfold extractFrameSortKey. rewrite H.
  destruct (regex_match_digits _ _ H) as [Hne Hall].
  rewrite (Number_parseInt_digits ds Hne Hall), Number_of_Z_not_nan. reflexivity.
Qed.

(** C2 (amended).  The sort key is read from the token [frame_<digits>]
    ([frame_] in any case) that stands at the end of the path or before its
    extension: a path that ends in such a token and an extension gets the
    JavaScript number nearest to the integer the digits spell, which is that
    integer when it is below 2^53 and +Infinity when it is 2^1024 - 2^970 or
    more; the key is +Infinity exactly when the path has no such token or
    its digits spell a number that large; the prepared dataset is in
    ascending order of sort key with the infinite keys last, frames with the
    same finite key in the order of [localeCompare] on their paths; and the
    frames [frame_002.png], [frame_010.png], [foo.png], in whichever order
    they arrive, come out as 002, 010, foo. *)
Theorem sort_key_and_dataset_order :
  forall (host : Host),
    (forall a b, 0 < localeCompare a b -> localeCompare b a <= 0) ->
    (forall a b c, localeCompare a b <= 0 -> localeCompare b c <= 0 ->
                   localeCompare a c <= 0) ->
    (forall f pre lit ds ext,
        list_ascii_of_string (path_or_empty f) = pre ++ lit ++ ds ++ "."%char :: ext ->
        map to_lower lit = frame_literal ->
        ds <> [] -> forallb is_digit ds = true ->
        ext <> [] -> forallb ext_char ext = true ->
        extractFrameSortKey f = Number_of_Z (parse_digits 0 ds)
        /\ (parse_digits 0 ds < 2 ^ 53 ->
            extractFrameSortKey f = Fin (parse_digits 0 ds))
        /\ (extractFrameSortKey f = PosInf <->
            2 ^ 1024 - 2 ^ 970 <= parse_digits 0 ds))
    /\
    (forall f,
        extractFrameSortKey f = PosInf <->
        ~ has_frame_token (list_ascii_of_string (path_or_empty f))
        \/ exists ds,
             regex_match (list_ascii_of_string (path_or_empty f)) = Some ds
             /\ 2 ^ 1024 - 2 ^ 970 <= parse_digits 0 ds)
    /\
    (forall frames fov rot,
        StronglySorted frame_order
          (map Prepared.frame (prepareTransformFrames frames fov rot)))
    /\
    (forall frames,
        In frames (orders3 (named_frame "frame_002.png") (named_frame "frame_010.png")
                           (named_frame "foo.png")) ->
        prepared_paths frames = ["frame_002.png"; "frame_010.png"; "foo.png"]%string).
Proof.
  intros host Htotal Htrans. split; [|split; [|split]].
  - intros f pre lit ds ext Hpath Hlit Hne Hds Hene Hext.
    assert (Hmatch : regex_match (list_ascii_of_string (path_or_empty f)) = Some ds)
      by (rewrite Hpath; now apply regex_match_token).
    assert (H0 : 0 <= parse_digits 0 ds) by (apply parse_digits_nonneg; lia).
    rewrite (extractFrameSortKey_of_digits f ds Hmatch).
    split; [reflexivity|]. split.
    + intros Hsmall. apply Number_of_Z_small. split; assumption.
    + now apply Number_of_Z_infinite.
  - intros f. split.
    + intros Hkey.
      destruct (regex_match (list_ascii_of_string (path_or_empty f))) as [ds|] eqn:E.
      * right. exists ds. split; [reflexivity|].
        rewrite (extractFrameSortKey_of_digits f ds E) in Hkey.
        apply Number_of_Z_infinite; [apply parse_digits_nonneg; lia|assumption].
      * left. intros Htoken. apply regex_match_some_iff in Htoken as [ds Hds].
        congruence.
    + intros [Hnone|(ds & Hds & Hbig)].
      * unfold extractFrameSortKey.
        destruct (regex_match _) as [ds|] eqn:E; [|reflexivity].
        exfalso. apply Hnone. apply regex_match_some_iff. now exists ds.
      * rewrite (extractFrameSortKey_of_digits f ds Hds).
        apply Number_of_Z_infinite; [apply parse_digits_nonneg; lia|assumption].
  - intros frames fov rot. rewrite prepared_frames.
    apply StronglySorted_filter. now apply validTransformFrames_sorted.
  - intros frames Hin. cbn [orders3 In] in Hin.
    repeat (destruct Hin as [<-|Hin]; [vm_compute; reflexivity|]).
    destruct Hin.
Qed.

Lemma sample_localeCompare_le a b :
  sample_localeCompare a b <= 0 <-> a = b \/ String_as_OT.lt a b.
Proof.
  unfold sample_localeCompare.
  destruct (String_as_OT.compare_spec a b) as [E|L|G].
  - split; [now left|lia].
  - split; [now right|lia].
  - split; [lia|]. intros [E|L].
    + subst. exfalso. revert G. apply (@StrictOrder_Irreflexive _ _ String_as_OT.lt_strorder).
    + exfalso. apply (@StrictOrder_Irreflexive _ _ String_as_OT.lt_strorder a).
      eapply (@StrictOrder_Transitive _ _ String_as_OT.lt_strorder); eassumption.
Qed.

Lemma sample_localeCompare_total a b :
  0 < sample_localeCompare a b -> sample_localeCompare b a <= 0.
Proof.
  intros H. apply sample_localeCompare_le. right. revert H.
  unfold sample_localeCompare.
  destruct (String_as_OT.compare_spec a b) as [E|L|G]; [lia|lia|now intros _].
Qed.

Lemma sample_localeCompare_trans a b c :
  sample_localeCompare a b <= 0 -> sample_localeCompare b c <= 0 ->
  sample_localeCompare a c <= 0.
Proof.
  rewrite !sample_localeCompare_le.
  intros [->|L1] [->|L2]; auto. right.
  eapply (@StrictOrder_Transitive _ _ String_as_OT.lt_strorder); eassumption.
Qed.

(** The hypotheses of C2 hold of the sample host's collation. *)
Lemma sort_key_and_dataset_order_sample :
  extractFrameSortKey (named_frame "shots/Frame_0042.JPG") = Fin 42
  /\ extractFrameSortKey (named_frame "foo.png") = PosInf
  /\ prepared_paths (host := sample_host)
       [named_frame "foo.png"; named_frame "frame_010.png"; named_frame "frame_002.png"]
     = ["frame_002.png"; "frame_010.png"; "foo.png"]%string.
Proof.
  pose proof (sort_key_and_dataset_order sample_host
                sample_localeCompare_total sample_localeCompare_trans)
    as (Hkey & Hnone & _ & Hex).
  split; [|split].
  - refine (proj1 (proj2 (Hkey (named_frame "shots/Frame_0042.JPG")
                (list_ascii_of_string "shots/") (list_ascii_of_string "Frame_")
                (list_ascii_of_string "0042") (list_ascii_of_string "JPG")
                _ _ _ _ _ _)) _);
      solve [reflexivity | discriminate].
  - apply Hnone. left. intros Htoken.
    apply regex_match_some_iff in Htoken as [ds Hds]. vm_compute in Hds. discriminate Hds.
  - apply Hex. cbn. tauto.
Defined.

(** C2 as stated fails: a trailing [_002] that does not follow [frame]
    gives no integer key, and frames named so keep the order in which they
    arrived (the comparator's [Infinity - Infinity] is NaN), so that
    [foo.png] stays first and 010 stays before 002. *)
Lemma trailing_digits_without_frame_literal :
  extractFrameSortKey (named_frame "img_002.png") = PosInf
  /\ forall host : Host,
       prepared_paths
         [named_frame "foo.png"; named_frame "img_010.png"; named_frame "img_002.png"]
       = ["foo.png"; "img_010.png"; "img_002.png"]%string.
Proof.
  split; [reflexivity|]. intros host. vm_compute. reflexivity.
Qed.

(** With the literal in place the example of the specification holds, and
    equal finite keys fall back on the paths. *)
Example frame_order_example :
  prepared_paths (host := sample_host)
    [named_frame "b/frame_7.png"; named_frame "foo.png"; named_frame "frame_010.png";
     named_frame "a/frame_007.png"; named_frame "frame_002.png"]
  = ["frame_002.png"; "a/frame_007.png"; "b/frame_7.png"; "frame_010.png"; "foo.png"]%string.
Proof. vm_compute. reflexivity. Qed.

(** Frame numbers past 2^53 are rounded as the doubles are: the rounding
    of [nearest_double] is that of the conversion of an integer to a
    binary64, a tie going to the even significand, and two frames whose
    numbers round to one double share a sort key. *)
Example rounded_frame_numbers :
  nearest_double (2 ^ 53 + 1) = Some (2 ^ 53)
  /\ nearest_double (2 ^ 53 + 2) = Some (2 ^ 53 + 2)
  /\ nearest_double (2 ^ 53 + 3) = Some (2 ^ 53 + 4)
  /\ PrimFloat.of_uint63 (Uint63.of_Z (2 ^ 53 + 1)) = PrimFloat.of_uint63 (Uint63.of_Z (2 ^ 53))
  /\ PrimFloat.of_uint63 (Uint63.of_Z (2 ^ 53 + 3))
     = PrimFloat.of_uint63 (Uint63.of_Z (2 ^ 53 + 4))
  /\ (PrimFloat.of_uint63 (Uint63.of_Z (2 ^ 53 + 2))
      =? PrimFloat.of_uint63 (Uint63.of_Z (2 ^ 53)))%float = false
  /\ extractFrameSortKey (named_frame "frame_9007199254740993.png")
     = extractFrameSortKey (named_frame "frame_9007199254740992.png")
  /\ extractFrameSortKey (named_frame "frame_9007199254740993.png") = Fin (2 ^ 53).
Proof. repeat split; vm_compute; reflexivity. Qed.

(** ** Frame lemmas: what the matcher and the navigation leave alone *)

Section FrameFacts.
Context {host : Host}.
Variable bbox : BoundingBox.
Variable prepared : list Prepared.t.

Lemma emitSelected_frame m :
  let m' := emitSelectedTransformFrame prepared m in
  state m' = state m /\ this_camera m' = this_camera m /\
  tmpCamera m' = tmpCamera m /\ controllers m' = controllers m /\
  transition m' = transition m /\ settle m' = settle m /\
  transformFrameIndex m' = transformFrameIndex m.
Proof.
  cbn zeta. unfold emitSelectedTransformFrame.
  destruct (_ || _); [now repeat split|].
  destruct (prepared_at _ _); now repeat split.
Qed.

Lemma pickNearest_frame e m :
  let m' := snd (pickNearestFrameForCurrentView bbox prepared e m) in
  state m' = state m /\ this_camera m' = this_camera m /\
  tmpCamera m' = tmpCamera m /\ controllers m' = controllers m /\
  transition m' = transition m /\ settle m' = settle m.
Proof.
  cbn zeta. unfold pickNearestFrameForCurrentView.
  destruct (prepared_length prepared =? 0); [now repeat split|].
  destruct (bestIndex_of _ _ _ <? 0); [now repeat split|].
  cbn [snd]. destruct e; [|now repeat split].
  destruct (emitSelected_frame
              (set_transformFrameIndex
                 (bestIndex_of bbox prepared (this_camera (emit MatcherInvoked m)))
                 (emit MatcherInvoked m)))
    as (H1 & H2 & H3 & H4 & H5 & H6 & _).
  now rewrite H1, H2, H3, H4, H5, H6.
Qed.

End FrameFacts.

(** ** C3: at the end of a transition the displayed pose is the target *)

Lemma blend_transition {host : Host} (m : Manager) :
  transition (blend m) = transition m /\ state (blend m) = state m.
Proof. unfold blend. now destruct (_ <? 1)%float. Qed.

Lemma blend_done {host : Host} (m : Manager) :
  (transitionTimer (transition m) <? 1)%float = false ->
  this_camera (blend m) = target (transition m).
Proof. unfold blend. now intros ->. Qed.

(** C3.  Whenever an update of a manager whose active controller exists
    leaves the transition timer not below 1 (it is capped at 1), the
    update returns, the displayed pose is the target pose that the active
    controller has just written, field for field, and blending once more
    leaves the displayed pose as it is. *)
Theorem displayed_pose_is_target_at_end_of_transition :
  forall (host : Host) (bbox : BoundingBox) (prepared : list Prepared.t)
         (deltaTime : float) (inputFrame : InputFrame) (m : Manager)
         (controller : Controller),
    getController (controllers m) (cameraMode (state m)) = Some controller ->
    exists m',
      update bbox prepared deltaTime inputFrame m = Returned m' /\
      ((transitionTimer (transition m') <? 1)%float = false ->
       this_camera m' = target (transition m') /\
       target (transition m') =
         snd (Controller_update controller
                (if CameraMode_eqb (cameraMode (state m)) anim && animationPaused (state m)
                 then 0%float else deltaTime)
                inputFrame (target (transition m))) /\
       this_camera (blend m') = this_camera m').
Proof.
  intros host bbox prepared deltaTime inputFrame m controller Hc.
  unfold update. cbn [set_transitionTimer set_transition controllers state].
  rewrite Hc.
  destruct (Controller_update controller _ inputFrame _) as [controller1 target1] eqn:Hu.
  cbn [snd].
  match goal with |- context [blend ?x] => set (m0 := x) end.
  set (m1 := blend m0).
  set (m2 := if CameraMode_eqb (cameraMode (state m1)) anim
             then set_animationTime (Anim_cursor_value controller1) m1 else m1).
  destruct (settle_step _ _ _ _) as [[w t] r].
  match goal with |- context [if r then snd (pickNearestFrameForCurrentView _ _ _ ?x) else _] =>
    set (m3 := x) end.
  set (m4 := if r then snd (pickNearestFrameForCurrentView bbox prepared true m3) else m3).
  eexists. split; [reflexivity|].
  assert (H2 : transition m2 = transition m1 /\ this_camera m2 = this_camera m1).
  { subst m2. destruct (CameraMode_eqb (cameraMode (state m1)) anim); now split. }
  assert (H4 : transition m4 = transition m1 /\ this_camera m4 = this_camera m1).
  { subst m4. destruct r; [|exact H2].
    destruct (pickNearest_frame bbox prepared true m3) as (_ & Hcam & _ & _ & Htr & _).
    rewrite Hcam, Htr. exact H2. }
  destruct H4 as [Htr Hcam].
  assert (Htr1 : transition m1 = transition m0) by apply blend_transition.
  unfold blend at 1.
  cbn [transition set_settle this_camera set_this_camera].
  rewrite Htr, Hcam, Htr1. intros Hlt. rewrite Hlt.
  cbn [this_camera set_this_camera]. unfold Camera_copy.
  subst m1. rewrite (blend_done m0 Hlt). now repeat split.
Qed.

(** C3 at work on the sample host: an update at rest (timer 1) leaves the
    displayed pose equal to the target. *)
Lemma displayed_pose_is_target_sample :
  exists m',
    update (host := sample_host) unit_bbox [] 0.016 tt (manager_with origin_camera (-1))
      = Returned m'
    /\ this_camera m' = target (transition m')
    /\ this_camera (blend m') = this_camera m'.
Proof.
  destruct (displayed_pose_is_target_at_end_of_transition
              sample_host unit_bbox [] 0.016%float tt
              (manager_with origin_camera (-1))
              (OrbitController_new (Host := sample_host)) eq_refl)
    as (m' & Hu & H).
  exists m'. split; [exact Hu|].
  assert (Ht : (transitionTimer (transition m') <? 1)%float = false).
  { vm_compute in Hu. injection Hu as <-. vm_compute. reflexivity. }
  destruct (H Ht) as (H1 & _ & H3). now split.
Defined.

(** ** C8: a transition request in flight restarts from the displayed pose *)

Section TransitionFacts.
Context {host : Host}.
Variable bbox : BoundingBox.
Variable prepared : list Prepared.t.
Variable frameCamera : Camera.
Variable resetCamera : Camera.

Lemma startTransition_spec (m : Manager) :
  from (transition (startTransition m)) = this_camera m /\
  transitionTimer (transition (startTransition m)) = 0%float /\
  this_camera (startTransition m) = this_camera m.
Proof. now repeat split. Qed.

Lemma dispatch_starts_transition (r : Request) (m : Manager) :
  starts_transition r = true ->
  let m' := final (dispatch bbox prepared frameCamera resetCamera r m) in
  from (transition m') = this_camera m /\
  transitionTimer (transition m') = 0%float /\
  (is_mode_change r = false -> this_camera m' = this_camera m).
Proof.
  destruct r as [dt fr|ev|value prev|time|p|p t f]; cbn [starts_transition];
    try discriminate; intros Hs; cbn zeta.
  - destruct ev; try discriminate; now repeat split.
  - cbn [dispatch]. unfold on_cameraMode_changed.
    destruct (getController _ prev) as [pc|]; [|now repeat split].
    cbv zeta.
    match goal with
    | |- context [match ?g with Some _ => _ | None => _ end] => destruct g
    end; now repeat split.
  - now repeat split.
  - now repeat split.
Qed.

End TransitionFacts.

(** C8.  Every request that starts a transition (frame, reset, a
    mode-change event, a pick, an annotation) while the previous transition
    is still in flight leaves [from] equal to the pose displayed at the
    request, whatever the previous [from] was, and the timer at 0.  The
    snapshot is taken first: at a mode change the controllers are handed
    the displayed camera after it and may move it; the other requests leave
    the displayed pose as it was. *)
Theorem transition_in_flight_restarts_from_displayed_pose :
  forall (host : Host) (bbox : BoundingBox) (prepared : list Prepared.t)
         (frameCamera resetCamera : Camera) (r : Request) (m : Manager),
    starts_transition r = true ->
    (transitionTimer (transition m) <? 1)%float = true ->
    let m' := final (dispatch bbox prepared frameCamera resetCamera r m) in
    from (transition m') = this_camera m /\
    transitionTimer (transition m') = 0%float /\
    (is_mode_change r = false -> this_camera m' = this_camera m).
Proof.
  intros host bbox prepared frameCamera resetCamera r m Hs _.
  now apply dispatch_starts_transition.
Qed.

(** C8 at work on the sample host: a pick a quarter of a second into a
    reset snapshots the blended pose (x = 1.75), not the old [from]
    (x = 0). *)
Lemma transition_in_flight_sample :
  let m := in_flight_manager in
  let m' := final (dispatch (host := sample_host) unit_bbox [] origin_camera side_camera
                            (Pick (Vec3.mk 0 1 0)) m) in
  (from (transition m') = this_camera m /\
   transitionTimer (transition m') = 0%float /\
   this_camera m' = this_camera m)
  /\ Vec3.x (position (this_camera m)) = 1.75%float
  /\ Vec3.x (position (from (transition m))) = 0%float.
Proof.
  split.
  - destruct (transition_in_flight_restarts_from_displayed_pose
                sample_host unit_bbox [] origin_camera side_camera
                (Pick (Vec3.mk 0 1 0)) in_flight_manager eq_refl eq_refl)
      as (H1 & H2 & H3).
    split; [exact H1|]. split; [exact H2|]. exact (H3 eq_refl).
  - split; vm_compute; reflexivity.
Defined.

(** ** C4: the settle delay *)

Lemma settle_run_app l1 : forall l2 w t,
  settle_run (l1 ++ l2) w t
  = settle_run l1 w t
    ++ settle_run l2 (fst (settle_after l1 w t)) (snd (settle_after l1 w t)).
Proof.
  induction l1 as [|f l1 IH]; intros l2 w t; cbn [app settle_run settle_after].
  - reflexivity.
  - destruct (settle_step (moving f) (deltaTime f) w t) as [[w1 t1] r].
    cbn [app]. now rewrite IH.
Qed.

Lemma settle_run_length l : forall w t, List.length (settle_run l w t) = List.length l.
Proof.
  induction l as [|f l IH]; intros w t; cbn [settle_run]; [reflexivity|].
  destruct (settle_step (moving f) (deltaTime f) w t) as [[w1 t1] r].
  cbn [List.length]. now rewrite IH.
Qed.

(** No call of the matcher in a frame that moves. *)
Lemma moving_frame_no_call l : forall w t i f,
  nth_error l i = Some f -> moving f = true ->
  nth_error (settle_run l w t) i = Some false.
Proof.
  induction l as [|g l IH]; intros w t i f Hn Hm.
  - destruct i; discriminate.
  - cbn [settle_run].
    destruct (settle_step (moving g) (deltaTime g) w t) as [[w1 t1] r] eqn:E.
    destruct i as [|i]; cbn [nth_error] in *.
    + injection Hn as ->. unfold settle_step in E. rewrite Hm in E.
      now injection E as _ _ <-.
    + now apply IH with f.
Qed.

(** Once the flag is down, still frames call nothing. *)
Lemma idle_run l : forall t,
  Forall (fun f => moving f = false) l ->
  settle_run l false t = repeat false (List.length l).
Proof.
  induction l as [|f l IH]; intros t H; cbn [settle_run]; [reflexivity|].
  inversion H as [|? ? Hf Hl]; subst.
  unfold settle_step. rewrite Hf. cbn [List.length repeat]. now rewrite IH.
Qed.

(** Still frames with the flag up: one call, at the first frame where the
    accumulated time reaches the delay, or none if it never does. *)
Lemma still_run l : forall acc,
  Forall (fun f => moving f = false) l ->
  settle_run l true acc =
  match first_settled acc l with
  | Some k => repeat false k ++ true :: repeat false (List.length l - S k)
  | None => repeat false (List.length l)
  end.
Proof.
  induction l as [|f l IH]; intros acc H; cbn [settle_run first_settled]; [reflexivity|].
  inversion H as [|? ? Hf Hl]; subst.
  unfold settle_step. rewrite Hf.
  destruct (geb (acc + deltaTime f) settleDelaySeconds) eqn:E.
  - cbn [repeat app List.length]. rewrite Nat.sub_succ, Nat.sub_0_r.
    now rewrite idle_run.
  - rewrite (IH _ Hl).
    destruct (first_settled (acc + deltaTime f) l) as [k|]; cbn [option_map]; reflexivity.
Qed.

Lemma settle_after_moving f w t :
  moving f = true -> settle_after [f] w t = (true, 0%float).
Proof. cbn. unfold settle_step. now intros ->. Qed.

Lemma settle_after_app l1 : forall l2 w t,
  settle_after (l1 ++ l2) w t
  = settle_after l2 (fst (settle_after l1 w t)) (snd (settle_after l1 w t)).
Proof.
  induction l1 as [|f l1 IH]; intros l2 w t; cbn [app settle_after]; [reflexivity|].
  destruct (settle_step (moving f) (deltaTime f) w t) as [[w1 t1] r]. apply IH.
Qed.

(** Frames that all move call nothing. *)
Lemma moving_run l : forall w t,
  Forall (fun f => moving f = true) l ->
  settle_run l w t = repeat false (List.length l).
Proof.
  induction l as [|f l IH]; intros w t H; cbn [settle_run]; [reflexivity|].
  inversion H as [|? ? Hf Hl]; subst.
  unfold settle_step. rewrite Hf. cbn [List.length repeat]. now rewrite IH.
Qed.

(** The detector over a sequence made of any frames, then a frame that
    exceeds a movement threshold, then frames that exceed none and over
    which the accumulated still time reaches the delay for the first time
    at the [k]-th of them. *)
Lemma settle_run_rematch_once :
  forall (before : list Motion) (last_move : Motion) (still : list Motion)
         (k : nat) (wasMoving0 : bool) (settledTime0 : float),
    moving last_move = true ->
    Forall (fun f => moving f = false) still ->
    first_settled 0%float still = Some k ->
    let frames := before ++ last_move :: still in
    let calls := settle_run frames wasMoving0 settledTime0 in
    (forall i f, nth_error frames i = Some f -> moving f = true ->
                 nth_error calls i = Some false)
    /\ skipn (S (List.length before)) calls
       = repeat false k ++ true :: repeat false (List.length still - S k)
    /\ (Forall (fun f => moving f = true) before ->
        calls = repeat false (S (List.length before) + k)
                ++ true :: repeat false (List.length still - S k)).
Proof.
  intros before last_move still k w0 t0 Hm Hstill Hk. cbn zeta.
  assert (Hsplit :
    settle_run (before ++ last_move :: still) w0 t0
    = settle_run (before ++ [last_move]) w0 t0
      ++ repeat false k ++ true :: repeat false (List.length still - S k)).
  { change (before ++ last_move :: still) with (before ++ [last_move] ++ still).
    rewrite app_assoc, settle_run_app.
    rewrite settle_after_app, settle_after_moving by assumption. cbn [fst snd].
    rewrite still_run by assumption. now rewrite Hk. }
  split; [|split].
  - intros i f. apply moving_frame_no_call.
  - rewrite Hsplit.
    rewrite skipn_app, skipn_all2
      by (rewrite settle_run_length, length_app; cbn; lia).
    rewrite settle_run_length, length_app. cbn [List.length].
    replace (S (List.length before) - (List.length before + 1))%nat with 0%nat by lia.
    reflexivity.
  - intros Hbefore. rewrite Hsplit.
    rewrite moving_run
      by (apply Forall_app; split; [assumption|now repeat constructor]).
    rewrite length_app. cbn [List.length].
    rewrite app_assoc, <- repeat_app. do 2 f_equal. lia.
Qed.

Example rematch_trace_sample :
  settle_run (repeat (motion_frame 0.5 0.1) 5 ++ repeat (motion_frame 0 0.1) 4)
             false 0%float
  = [false; false; false; false; false; false; true; false; false].
Proof. vm_compute. reflexivity. Qed.

Lemma matcher_calls_app l1 l2 :
  matcher_calls (l1 ++ l2) = (matcher_calls l1 + matcher_calls l2)%nat.
Proof.
  induction l1 as [|[|sel] l1 IH]; cbn [app matcher_calls]; [reflexivity| |assumption].
  now rewrite IH.
Qed.

Section UpdateFacts.
Context {host : Host}.
Variable bbox : BoundingBox.
Variable prepared : list Prepared.t.

Lemma emitSelected_calls m :
  matcher_calls (trace (emitSelectedTransformFrame prepared m)) = matcher_calls (trace m).
Proof.
  unfold emitSelectedTransformFrame.
  destruct (_ || _); [reflexivity|].
  destruct (prepared_at _ _); [|reflexivity].
  cbn [trace emit]. rewrite matcher_calls_app. cbn. lia.
Qed.

(** One run of the matcher is one more entry in the trace. *)
Lemma pickNearest_calls e m :
  matcher_calls (trace (snd (pickNearestFrameForCurrentView bbox prepared e m)))
  = S (matcher_calls (trace m)).
Proof.
  assert (H0 : matcher_calls (trace (emit MatcherInvoked m)) = S (matcher_calls (trace m))).
  { cbn [trace emit]. rewrite matcher_calls_app. cbn. lia. }
  unfold pickNearestFrameForCurrentView.
  destruct (prepared_length prepared =? 0); [exact H0|].
  destruct (bestIndex_of _ _ _ <? 0); [exact H0|].
  cbn [snd]. destruct e; [|exact H0].
  rewrite emitSelected_calls. exact H0.
Qed.

(** The update runs [settle_step] on the movement of the pose it has just
    blended, and calls the matcher exactly when [settle_step] says so. *)
Lemma update_runs_settle_step deltaTime inputFrame (m : Manager) controller :
  getController (controllers m) (cameraMode (state m)) = Some controller ->
  exists m',
    update bbox prepared deltaTime inputFrame m = Returned m' /\
    let movingNow :=
      movingNow_of (this_camera m') (cameraForwardFromAngles (this_camera m')) (settle m) in
    let '(wasMoving1, settledTime1, rematch) :=
      settle_step movingNow deltaTime (wasMoving (settle m)) (settledTime (settle m)) in
    wasMoving (settle m') = wasMoving1 /\
    settledTime (settle m') = settledTime1 /\
    matcher_calls (trace m')
    = (matcher_calls (trace m) + if rematch then 1 else 0)%nat.
Proof.
  intros Hc. unfold update.
  cbn [set_transitionTimer set_transition controllers state]. rewrite Hc.
  destruct (Controller_update controller _ inputFrame _) as [controller1 target1].
  match goal with |- context [blend ?x] => set (m0 := x) end.
  set (m1 := blend m0).
  set (m2 := if CameraMode_eqb (cameraMode (state m1)) anim
             then set_animationTime (Anim_cursor_value controller1) m1 else m1).
  assert (H2 : this_camera m2 = this_camera m1 /\ settle m2 = settle m /\
               trace m2 = trace m).
  { assert (H1 : settle m1 = settle m /\ trace m1 = trace m).
    { subst m1. unfold blend. now destruct (_ <? 1)%float. }
    subst m2. destruct (CameraMode_eqb (cameraMode (state m1)) anim);
      cbn [this_camera settle trace set_animationTime set_state]; tauto. }
  destruct H2 as (Hcam2 & Hset2 & Htr2).
  rewrite Hcam2, Hset2.
  destruct (settle_step _ deltaTime (wasMoving (settle m)) (settledTime (settle m)))
    as [[w t] r] eqn:Hstep.
  match goal with |- context [if r then snd (pickNearestFrameForCurrentView _ _ _ ?x) else _] =>
    set (m3 := x) end.
  set (m4 := if r then snd (pickNearestFrameForCurrentView bbox prepared true m3) else m3).
  eexists. split; [reflexivity|].
  cbn [this_camera set_settle settle trace wasMoving settledTime].
  assert (H4 : this_camera m4 = this_camera m1 /\
               wasMoving (settle m4) = w /\ settledTime (settle m4) = t /\
               matcher_calls (trace m4)
               = (matcher_calls (trace m) + if r then 1 else 0)%nat).
  { subst m4. destruct r.
    - destruct (pickNearest_frame bbox prepared true m3) as (_ & Hcam & _ & _ & _ & Hset).
      rewrite Hcam, Hset, pickNearest_calls. subst m3.
      cbn [this_camera settle set_settle wasMoving settledTime trace].
      rewrite Htr2. repeat split; try assumption; lia.
    - subst m3. cbn [this_camera settle set_settle wasMoving settledTime trace].
      rewrite Htr2. repeat split; try assumption; lia. }
  destruct H4 as (Hcam4 & Hw & Ht & Hcalls).
  rewrite Hcam4. cbn zeta. rewrite Hstep. now repeat split.
Qed.

End UpdateFacts.

(** ** C4 on the updates themselves *)

Section UpdateRunFacts.
Context {host : Host}.
Variable bbox : BoundingBox.
Variable prepared : list Prepared.t.
Variables frameCamera resetCamera : Camera.

Lemma getController_setController cs mode c :
  getController (setController cs mode c) mode = Some c.
Proof. now destruct mode. Qed.

(** One update whose controller exists: it returns, the controller of the
    mode still exists, the pose it displays is the pose it remembers, and
    the detector's two variables and the runs of the matcher are those of
    [settle_step] on the deltas of the displayed pose. *)
Lemma update_observed deltaTime inputFrame (m : Manager) :
  getController (controllers m) (cameraMode (state m)) <> None ->
  exists m',
    update bbox prepared deltaTime inputFrame m = Returned m'
    /\ getController (controllers m') (cameraMode (state m')) <> None
    /\ remembers_displayed_pose m'
    /\ forall p a f,
         pose_deltas (this_camera m') (cameraForwardFromAngles (this_camera m')) (settle m)
         = (p, a, f) ->
         let step := settle_step (exceeds_threshold p a f) deltaTime
                                 (wasMoving (settle m)) (settledTime (settle m)) in
         wasMoving (settle m') = fst (fst step)
         /\ settledTime (settle m') = snd (fst step)
         /\ matcher_calls (trace m')
            = (matcher_calls (trace m) + if snd step then 1 else 0)%nat.
Proof.
  intros Hc.
  destruct (getController (controllers m) (cameraMode (state m))) as [controller|] eqn:Eg;
    [clear Hc|now elim Hc].
  destruct (update_runs_settle_step bbox prepared deltaTime inputFrame m controller Eg)
    as (m' & Hret & Hstep).
  exists m'. split; [exact Hret|].
  assert (Hshape :
    cameraMode (state m') = cameraMode (state m)
    /\ (exists c, controllers m' = setController (controllers m) (cameraMode (state m)) c)
    /\ remembers_displayed_pose m').
  { revert Hret. unfold update.
    cbn [set_transitionTimer set_transition controllers state]. rewrite Eg.
    destruct (Controller_update controller _ inputFrame _) as [controller1 target1].
    match goal with |- context [blend ?x] => set (m0 := x) end.
    set (m1 := blend m0).
    assert (H1 : state m1 = state m /\
                 controllers m1
                 = setController (controllers m) (cameraMode (state m)) controller1).
    { subst m1. unfold blend. now destruct (_ <? 1)%float. }
    set (m2 := if CameraMode_eqb (cameraMode (state m1)) anim
               then set_animationTime (Anim_cursor_value controller1) m1 else m1).
    assert (H2 : cameraMode (state m2) = cameraMode (state m) /\
                 controllers m2
                 = setController (controllers m) (cameraMode (state m)) controller1).
    { destruct H1 as [Hs Hcs]. subst m2.
      destruct (CameraMode_eqb (cameraMode (state m1)) anim);
        cbn [state controllers set_animationTime set_state cameraMode];
        rewrite ?Hs, ?Hcs; now split. }
    destruct (settle_step _ deltaTime _ _) as [[w t] r].
    match goal with
    | |- context [if r then snd (pickNearestFrameForCurrentView _ _ _ ?x) else _] =>
        set (m3 := x)
    end.
    set (m4 := if r then snd (pickNearestFrameForCurrentView bbox prepared true m3) else m3).
    assert (H4 : state m4 = state m2 /\ controllers m4 = controllers m2 /\
                 this_camera m4 = this_camera m2).
    { subst m4. destruct r; [|now repeat split].
      destruct (pickNearest_frame bbox prepared true m3) as (Hs & Hcam & _ & Hcs & _).
      rewrite Hs, Hcam, Hcs. now repeat split. }
    destruct H4 as (Hs4 & Hcs4 & Hcam4), H2 as (Hs2 & Hcs2).
    intros Hret. injection Hret as <-.
    cbn [state controllers this_camera settle set_settle previousPosition
         previousForward previousFov].
    rewrite Hs4, Hcs4, Hs2, Hcs2. split; [reflexivity|]. split; [now eexists|].
    unfold remembers_displayed_pose.
    cbn [state controllers this_camera settle set_settle previousPosition
         previousForward previousFov].
    now rewrite Hcam4. }
  destruct Hshape as (Hmode & (c & Hcs) & Hpose).
  split; [rewrite Hmode, Hcs, getController_setController; discriminate|].
  split; [exact Hpose|].
  intros p a f Hd. cbn zeta in Hstep |- *. unfold movingNow_of in Hstep.
  rewrite Hd in Hstep.
  destruct (settle_step (exceeds_threshold p a f) deltaTime _ _) as [[w t] r].
  exact Hstep.
Qed.

(** The runs of the matcher in a run of updates are those of the detector
    on the movement the updates measured; every update returns and
    remembers the pose it displays. *)
Lemma update_run_is_settle_run (frames : list (float * InputFrame)) : forall m : Manager,
  getController (controllers m) (cameraMode (state m)) <> None ->
  let log := update_run bbox prepared frames m in
  Forall (fun r => exists m', outcome r = Returned m' /\ remembers_displayed_pose m') log
  /\ map rematches log
     = map (fun b : bool => if b then 1%nat else 0%nat)
           (settle_run (map observed log) (wasMoving (settle m)) (settledTime (settle m)))
  /\ matcher_calls (trace (run bbox prepared frameCamera resetCamera
                               (update_requests frames) m))
     = (matcher_calls (trace m) + list_sum (map rematches log))%nat.
Proof.
  induction frames as [|[dt fr] rest IH]; intros m Hc; cbn zeta.
  - cbn. repeat split; [constructor|lia].
  - cbn [update_run update_requests map run fold_left dispatch fst snd].
    destruct (update_observed dt fr m Hc) as (m' & Hret & Hc' & Hpose & Hstep).
    rewrite Hret. cbn [final].
    destruct (pose_deltas (this_camera m') (cameraForwardFromAngles (this_camera m'))
                          (settle m)) as [[p a] f] eqn:Hd.
    specialize (Hstep p a f eq_refl). cbn zeta in Hstep.
    destruct Hstep as (Hw & Ht & Hcalls).
    destruct (IH m' Hc') as (IHret & IHcalls & IHsum). cbn zeta in IHret, IHcalls, IHsum.
    cbn [map observed rematches settle_run outcome].
    unfold moving at 1. cbn [positionDelta angleDelta fovDelta deltaTime].
    destruct (settle_step (exceeds_threshold p a f) dt (wasMoving (settle m))
                          (settledTime (settle m))) as [[w t] r].
    cbn [fst snd] in Hw, Ht, Hcalls. subst w t.
    split; [|split].
    + constructor; [now exists m'|exact IHret].
    + cbn [map]. rewrite IHcalls, Hcalls. f_equal.
      destruct r; [now rewrite Nat.add_comm, Nat.add_sub|now rewrite Nat.add_0_r, Nat.sub_diag].
    + unfold run, update_requests in IHsum. rewrite IHsum.
      unfold list_sum. cbn [fold_right]. rewrite Hcalls.
      generalize (fold_right Init.Nat.add 0%nat (map rematches (update_run bbox prepared rest m'))).
      intros total. destruct r; lia.
Qed.

Lemma update_run_length (frames : list (float * InputFrame)) : forall m : Manager,
  List.length (update_run bbox prepared frames m) = List.length frames.
Proof.
  induction frames as [|[dt fr] rest IH]; intros m; cbn [update_run]; [reflexivity|].
  destruct (pose_deltas _ _ _) as [[p a] f]. cbn [List.length]. now rewrite IH.
Qed.

End UpdateRunFacts.

Lemma nth_error_firstn_skipn {A : Type} (l : list A) (n : nat) (x : A) :
  nth_error l n = Some x -> l = firstn n l ++ x :: skipn (S n) l.
Proof.
  revert n. induction l as [|y l IH]; intros [|n] H; cbn in H |- *; try discriminate.
  - now injection H as ->.
  - f_equal. now apply IH.
Qed.

Lemma map_repeat_false (k : nat) :
  map (fun b : bool => if b then 1%nat else 0%nat) (repeat false k) = repeat 0%nat k.
Proof. induction k as [|k IH]; cbn; [reflexivity|now rewrite IH]. Qed.

Lemma list_sum_repeat_zero (k : nat) : list_sum (repeat 0%nat k) = 0%nat.
Proof. induction k as [|k IH]; cbn; [reflexivity|exact IH]. Qed.

(** C4.  In a run of per-frame updates whose controller exists, every
    update returns and remembers the pose it displays, so that the movement
    an update measures is the change of the displayed pose since the update
    before it; no update in which that change exceeds a threshold (position,
    angle or field of view) runs the matcher; and when the update of index
    [n] exceeds one, no later update does, and the still time accumulated
    after it reaches the 0.2 s delay for the first time at the [k]-th of the
    later updates, then among these the matcher runs once in the [k]-th and
    in no other; when moreover every update before them moves, that run is
    the only one of the whole sequence. *)
Theorem rematch_once_after_settling :
  forall (host : Host) (bbox : BoundingBox) (prepared : list Prepared.t)
         (frameCamera resetCamera : Camera)
         (frames : list (float * InputFrame)) (m : Manager),
    getController (controllers m) (cameraMode (state m)) <> None ->
    let log := update_run bbox prepared frames m in
    let motion := map observed log in
    let calls := map rematches log in
    Forall (fun r => exists m', outcome r = Returned m' /\ remembers_displayed_pose m') log
    /\ (forall i f, nth_error motion i = Some f -> moving f = true ->
                    nth_error calls i = Some 0%nat)
    /\ (forall (n k : nat) (last_move : Motion),
          nth_error motion n = Some last_move ->
          moving last_move = true ->
          Forall (fun f => moving f = false) (skipn (S n) motion) ->
          first_settled 0%float (skipn (S n) motion) = Some k ->
          skipn (S n) calls
          = repeat 0%nat k ++ 1%nat :: repeat 0%nat (List.length frames - S n - S k)
          /\ (Forall (fun f => moving f = true) (firstn n motion) ->
              calls = repeat 0%nat (S n + k)
                      ++ 1%nat :: repeat 0%nat (List.length frames - S n - S k)
              /\ matcher_calls
                   (trace (run bbox prepared frameCamera resetCamera
                               (update_requests frames) m))
                 = S (matcher_calls (trace m)))).
Proof.
  intros host bbox prepared frameCamera resetCamera frames m Hc. cbn zeta.
  destruct (update_run_is_settle_run bbox prepared frameCamera resetCamera frames m Hc)
    as (Hret & Hcalls & Hsum). cbn zeta in Hret, Hcalls, Hsum.
  split; [exact Hret|]. split.
  - intros i f Hi Hf. rewrite Hcalls.
    apply (map_nth_error (fun b : bool => if b then 1%nat else 0%nat) i
             (settle_run (map observed (update_run bbox prepared frames m))
                         (wasMoving (settle m)) (settledTime (settle m)))
             (d := false)).
    now apply moving_frame_no_call with f.
  - intros n k last_move Hn Hmove Hstill Hk.
    set (motion := map observed (update_run bbox prepared frames m)) in *.
    assert (Hlen : List.length motion = List.length frames)
      by (unfold motion; now rewrite length_map, update_run_length).
    assert (Hlt : (n < List.length motion)%nat)
      by (apply nth_error_Some; congruence).
    assert (Hbefore : List.length (firstn n motion) = n)
      by (rewrite length_firstn; lia).
    assert (Hafter : List.length (skipn (S n) motion) = (List.length frames - S n)%nat)
      by (rewrite length_skipn; lia).
    destruct (settle_run_rematch_once (firstn n motion) last_move (skipn (S n) motion) k
                (wasMoving (settle m)) (settledTime (settle m)) Hmove Hstill Hk)
      as (_ & Hskip & Hall).
    cbn zeta in Hskip, Hall.
    rewrite <- (nth_error_firstn_skipn motion n last_move Hn), Hbefore, Hafter in Hskip, Hall.
    split.
    + rewrite Hcalls, skipn_map, Hskip, map_app. cbn [map].
      now rewrite !map_repeat_false.
    + intros Hmoving. specialize (Hall Hmoving).
      assert (E : map rematches (update_run bbox prepared frames m)
                  = repeat 0%nat (S n + k)
                    ++ 1%nat :: repeat 0%nat (List.length frames - S n - S k)).
      { rewrite Hcalls, Hall, map_app. cbn [map]. now rewrite !map_repeat_false. }
      split; [exact E|].
      rewrite Hsum, E, list_sum_app. cbn [list_sum fold_right].
      fold (list_sum (repeat 0%nat (List.length frames - S n - S k))).
      rewrite !list_sum_repeat_zero. lia.
Qed.

(** C4 at work on the sample host: after a reset the transition carries the
    displayed pose from the origin to the side for four updates of a quarter
    of a second; the four updates of a tenth of a second after them measure
    no movement, and the matcher runs in the second of these only. *)
Lemma rematch_once_sample :
  map moving (map observed (update_run (host := sample_host) unit_bbox three_candidates
                                        settling_frames reset_manager))
  = [true; true; true; true; false; false; false; false]
  /\ map rematches (update_run (host := sample_host) unit_bbox three_candidates
                               settling_frames reset_manager)
     = [0; 0; 0; 0; 0; 1; 0; 0]%nat
  /\ matcher_calls
       (trace (run (host := sample_host) unit_bbox three_candidates origin_camera side_camera
                   (update_requests settling_frames) reset_manager))
     = 1%nat.
Proof.
  assert (Hc : getController (controllers reset_manager) (cameraMode (state reset_manager))
               <> None) by discriminate.
  destruct (rematch_once_after_settling sample_host unit_bbox three_candidates
              origin_camera side_camera settling_frames reset_manager Hc)
    as (_ & _ & H).
  split; [vm_compute; reflexivity|].
  assert (Hn : exists last_move,
            nth_error (map observed (update_run (host := sample_host) unit_bbox
                                       three_candidates settling_frames reset_manager)) 3
            = Some last_move /\ moving last_move = true)
    by (eexists; split; [vm_compute; reflexivity|vm_compute; reflexivity]).
  destruct Hn as (last_move & Hn & Hmove).
  destruct (H 3%nat 1%nat last_move Hn Hmove) as (_ & Hall).
  - vm_compute. repeat constructor.
  - vm_compute. reflexivity.
  - destruct Hall as (Hcalls & Hone).
    + vm_compute. repeat constructor.
    + split; [exact Hcalls|exact Hone].
Defined.

(** ** Navigation lemmas *)

Section NavigationFacts.
Context {host : Host}.
Variable bbox : BoundingBox.
Variable prepared : list Prepared.t.
Let n := prepared_length prepared.

Lemma prepared_at_in_range i :
  0 <= i < n -> exists p, prepared_at prepared i = Some p.
Proof.
  intros [H0 Hn]. unfold prepared_at.
  replace (i <? 0) with false by (symmetry; apply Z.ltb_ge; lia).
  destruct (nth_error prepared (Z.to_nat i)) as [p|] eqn:E; [now exists p|].
  apply nth_error_None in E. unfold n, prepared_length in Hn. lia.
Qed.

Lemma guard_in_range i :
  0 <= i < n -> (i <? 0) || (i >=? n) = false.
Proof.
  intros [H0 Hn]. apply orb_false_iff. split; [apply Z.ltb_ge; lia|].
  rewrite Z.geb_leb. apply Z.leb_gt. lia.
Qed.

Lemma guard_out_of_range i :
  ~ (0 <= i < n) -> (i <? 0) || (i >=? n) = true.
Proof.
  intros H. apply orb_true_iff.
  destruct (Z.ltb_spec i 0); [now left|right].
  rewrite Z.geb_leb. apply Z.leb_le. lia.
Qed.

(** What [emitSelectedTransformFrame] fires: nothing when the index is out
    of range, and otherwise one event with the index, the length of the
    dataset and the two fields of the frame at that index. *)
Lemma emitSelected_trace (m : Manager) :
  (~ (0 <= transformFrameIndex m < n) /\ emitSelectedTransformFrame prepared m = m)
  \/
  (0 <= transformFrameIndex m < n /\
   exists p,
     prepared_at prepared (transformFrameIndex m) = Some p /\
     emitSelectedTransformFrame prepared m
     = emit (Fired (mkSelected (transformFrameIndex m) n
                               (file_path (Prepared.frame p))
                               (colmap_im_id (Prepared.frame p)))) m).
Proof.
  unfold emitSelectedTransformFrame.
  destruct (Z.le_gt_cases 0 (transformFrameIndex m)) as [H0|H0];
    [destruct (Z.lt_ge_cases (transformFrameIndex m) n) as [Hn|Hn]|].
  - right. split; [lia|]. fold n. rewrite guard_in_range by lia.
    destruct (prepared_at_in_range (transformFrameIndex m)) as (p & Hp); [lia|].
    exists p. now rewrite Hp.
  - left. split; [lia|]. fold n. now rewrite guard_out_of_range by lia.
  - left. split; [lia|]. fold n. now rewrite guard_out_of_range by lia.
Qed.

Lemma emitSelected_invariant (m : Manager) :
  Forall (selection_in_range n) (trace m) ->
  Forall (selection_in_range n) (trace (emitSelectedTransformFrame prepared m)).
Proof.
  intros H. destruct (emitSelected_trace m) as [[_ ->]|(Hr & p & _ & ->)]; [assumption|].
  cbn [trace emit]. apply Forall_app. split; [assumption|].
  constructor; [|constructor]. cbn. now split.
Qed.

Lemma bestIndex_of_range cam :
  bestIndex_of bbox prepared cam = -1 \/ 0 <= bestIndex_of bbox prepared cam < n.
Proof.
  unfold bestIndex_of.
  destruct (nearest_loop_spec bbox cam (cameraForwardFromAngles cam) prepared 0 (-1) infinity)
    as [(Hi & _)|(k & c & Hi & Hn & _)].
  - now left.
  - right. rewrite Hi.
    assert (Hk : (k < List.length prepared)%nat)
      by (apply nth_error_Some; congruence).
    unfold n, prepared_length. lia.
Qed.

Lemma pickNearest_index e (m : Manager) :
  let r := pickNearestFrameForCurrentView bbox prepared e m in
  (fst r = -1 /\ transformFrameIndex (snd r) = transformFrameIndex m /\
   snd r = emit MatcherInvoked m)
  \/ (0 <= fst r < n /\ transformFrameIndex (snd r) = fst r).
Proof.
  cbn zeta. unfold pickNearestFrameForCurrentView.
  destruct (prepared_length prepared =? 0); [now left|].
  rewrite this_camera_emit.
  destruct (bestIndex_of_range (this_camera m)) as [->|Hr].
  - now left.
  - replace (bestIndex_of bbox prepared (this_camera m) <? 0) with false
      by (symmetry; apply Z.ltb_ge; lia).
    right. cbn [fst snd]. split; [assumption|].
    destruct e; [|reflexivity].
    now destruct (emitSelected_frame prepared
                    (set_transformFrameIndex (bestIndex_of bbox prepared (this_camera m))
                                             (emit MatcherInvoked m)))
      as (_ & _ & _ & _ & _ & _ & ->).
Qed.

Lemma pickNearest_invariant e (m : Manager) :
  selection_invariant prepared m ->
  selection_invariant prepared (snd (pickNearestFrameForCurrentView bbox prepared e m)).
Proof.
  intros [Hi Ht]. unfold selection_invariant. fold n.
  assert (Ht' : Forall (selection_in_range n) (trace (emit MatcherInvoked m))).
  { cbn [trace emit]. apply Forall_app. split; [assumption|]. now repeat constructor. }
  destruct (pickNearest_index e m) as [(_ & Hidx & Hm)|(Hr & Hidx)].
  - rewrite Hidx. split; [assumption|]. now rewrite Hm.
  - rewrite Hidx. split; [now right|].
    unfold pickNearestFrameForCurrentView.
    destruct (prepared_length prepared =? 0); [assumption|].
    destruct (bestIndex_of _ _ _ <? 0); [assumption|].
    cbn [snd]. destruct e; [|assumption].
    now apply emitSelected_invariant.
Qed.

(** [gotoTransformFrameIndex] on an index in range: the index is selected,
    the mode is orbit, and the selection is fired. *)
Lemma goto_in_range i (m : Manager) :
  0 <= i < n ->
  let m' := gotoTransformFrameIndex prepared i m in
  transformFrameIndex m' = i /\ cameraMode (state m') = orbit /\
  exists p, prepared_at prepared i = Some p /\
    trace m' = trace m ++ [Fired (mkSelected i n (file_path (Prepared.frame p))
                                             (colmap_im_id (Prepared.frame p)))].
Proof.
  intros Hr. cbn zeta. unfold gotoTransformFrameIndex. fold n.
  rewrite guard_in_range by assumption.
  cbn [transformFrameIndex set_transformFrameIndex].
  destruct (prepared_at_in_range i Hr) as (p & Hp). rewrite Hp.
  match goal with |- context [emitSelectedTransformFrame prepared ?x] => set (m1 := x) end.
  assert (H1 : transformFrameIndex m1 = i) by reflexivity.
  destruct (emitSelected_trace m1) as [[Hout _]|(_ & p' & Hp' & ->)]; [lia|].
  rewrite H1 in *. rewrite Hp in Hp'. injection Hp' as <-.
  repeat split. exists p. now split.
Qed.

Lemma goto_out_of_range i (m : Manager) :
  ~ (0 <= i < n) -> gotoTransformFrameIndex prepared i m = m.
Proof.
  intros H. unfold gotoTransformFrameIndex. fold n.
  now rewrite guard_out_of_range.
Qed.

Lemma goto_invariant i (m : Manager) :
  selection_invariant prepared m ->
  selection_invariant prepared (gotoTransformFrameIndex prepared i m).
Proof.
  intros [Hi Ht].
  destruct (Z.le_gt_cases 0 i) as [H0|H0];
    [destruct (Z.lt_ge_cases i n) as [Hn|Hn]|];
    try (rewrite goto_out_of_range by lia; now split).
  destruct (goto_in_range i m (conj H0 Hn)) as (Hidx & _ & p & _ & Htr).
  unfold selection_invariant. fold n. rewrite Hidx, Htr. split; [now right|].
  apply Forall_app. split; [assumption|]. constructor; [|constructor]. cbn. now split.
Qed.

End NavigationFacts.

(** ** C9: stepping through the dataset *)

Lemma fired_indices_app l1 l2 :
  fired_indices (l1 ++ l2) = fired_indices l1 ++ fired_indices l2.
Proof.
  induction l1 as [|[|sel] l1 IH]; cbn [app fired_indices]; [reflexivity|assumption|].
  now rewrite IH.
Qed.

Section StepFacts.
Context {host : Host}.
Variable bbox : BoundingBox.
Variable prepared : list Prepared.t.
Let n := prepared_length prepared.

Lemma rem_step_is_cyclic step i :
  0 < n -> 0 <= i < n -> step = 1 \/ step = -1 ->
  Z.rem (i + step + n) n = cyclic_step step i n /\ 0 <= cyclic_step step i n < n.
Proof.
  intros Hn Hi Hstep. rewrite Z.rem_mod_nonneg by lia.
  assert (Hc : (i + step + n) mod n = cyclic_step step i n).
  { unfold cyclic_step. destruct Hstep as [-> | ->]; cbn [Z.eqb].
    - replace (i + 1 + n) with (i + 1 + 1 * n) by lia. apply Z_mod_plus_full.
    - f_equal; lia. }
  rewrite Hc. split; [reflexivity|]. rewrite <- Hc. apply Z.mod_pos_bound. lia.
Qed.

(** A run of the matcher that finds a frame and is asked to announce it
    fires exactly one selection, with the index it returns. *)
Lemma pickNearest_fires (m : Manager) :
  let r := pickNearestFrameForCurrentView bbox prepared true m in
  0 <= fst r ->
  fired_indices (trace (snd r)) = fired_indices (trace m) ++ [fst r].
Proof.
  cbn zeta. intros Hk.
  destruct (pickNearest_index bbox prepared true m) as [(Hneg & _)|(Hr & Hidx)]; [lia|].
  revert Hk Hr Hidx. unfold pickNearestFrameForCurrentView.
  destruct (prepared_length prepared =? 0); [cbn [fst]; lia|].
  destruct (bestIndex_of _ _ _ <? 0); [cbn [fst]; lia|].
  cbn [fst snd]. intros _ Hr _.
  match goal with |- context [emitSelectedTransformFrame prepared ?x] => set (m1 := x) end.
  assert (H1 : transformFrameIndex m1 = bestIndex_of bbox prepared (this_camera m))
    by reflexivity.
  destruct (emitSelected_trace prepared m1) as [[Hout _]|(_ & p & _ & ->)].
  - rewrite H1 in Hout. rewrite this_camera_emit in Hr. fold n in Hr. unfold n in Hout. lia.
  - cbn [trace emit set_transformFrameIndex]. rewrite !fired_indices_app.
    cbn [fired_indices index app]. rewrite ?app_nil_r, H1.
    subst m1. cbn [trace emit set_transformFrameIndex this_camera].
    rewrite fired_indices_app. cbn [fired_indices]. now rewrite app_nil_r.
Qed.

(** A step from a selected index: the cyclic successor or predecessor is
    selected and announced. *)
Lemma advance_from (step i : Z) (m : Manager) :
  0 < n -> 0 <= i < n -> step = 1 \/ step = -1 ->
  transformFrameIndex m = i ->
  let m1 := set_transformFrameIndex (Z.rem (transformFrameIndex m + step + n) n) m in
  let m' := gotoTransformFrameIndex prepared (transformFrameIndex m1) m1 in
  transformFrameIndex m' = cyclic_step step i n /\
  fired_indices (trace m') = fired_indices (trace m) ++ [cyclic_step step i n].
Proof.
  intros Hn Hi Hstep Hidx. cbn zeta.
  cbn [transformFrameIndex set_transformFrameIndex]. rewrite Hidx.
  destruct (rem_step_is_cyclic step i Hn Hi Hstep) as [-> Hrange].
  match goal with |- context [gotoTransformFrameIndex prepared _ ?x] => set (m1 := x) end.
  destruct (goto_in_range prepared (cyclic_step step i n) m1 Hrange)
    as (Hi' & _ & p & _ & Htr).
  split; [assumption|]. rewrite Htr, fired_indices_app. reflexivity.
Qed.

End StepFacts.

(** C9 (amended).  On a non-empty prepared dataset of [n] frames a next
    request from a selected index [i] selects [(i+1) mod n] and a previous
    request selects [(i-1+n) mod n], and announces it; with no frame
    selected the step first runs the nearest-frame matcher: when it returns
    a frame [k], that frame is selected and announced and the step is taken
    from it, and when it returns none the request changes nothing. *)
Theorem step_is_cyclic :
  forall (host : Host) (bbox : BoundingBox) (prepared : list Prepared.t)
         (step : Z) (m : Manager),
    prepared <> [] ->
    step = 1 \/ step = -1 ->
    let n := prepared_length prepared in
    let i := transformFrameIndex m in
    let m' := stepTransformFrame bbox prepared step m in
    let k := fst (pickNearestFrameForCurrentView bbox prepared true m) in
    (0 <= i < n ->
     transformFrameIndex m' = cyclic_step step i n /\
     fired_indices (trace m') = fired_indices (trace m) ++ [cyclic_step step i n])
    /\
    (i < 0 -> 0 <= k ->
     transformFrameIndex m' = cyclic_step step k n /\
     fired_indices (trace m') = fired_indices (trace m) ++ [k; cyclic_step step k n])
    /\
    (i < 0 -> k < 0 ->
     transformFrameIndex m' = i /\ m' = emit MatcherInvoked m).
Proof.
  intros host bbox prepared step m Hne Hstep. cbn zeta.
  assert (Hn : 0 < prepared_length prepared).
  { unfold prepared_length. destruct prepared; [congruence|cbn; lia]. }
  unfold stepTransformFrame.
  replace (prepared_length prepared =? 0) with false by (symmetry; apply Z.eqb_neq; lia).
  split; [|split].
  - intros Hi.
    replace (transformFrameIndex m <? 0) with false by (symmetry; apply Z.ltb_ge; lia).
    now apply (advance_from prepared step (transformFrameIndex m) m).
  - intros Hi Hk.
    replace (transformFrameIndex m <? 0) with true by (symmetry; apply Z.ltb_lt; lia).
    pose proof (pickNearest_fires bbox prepared m Hk) as Hfired.
    destruct (pickNearest_index bbox prepared true m) as [(Hneg & _)|(Hr & Hidx)]; [lia|].
    destruct (pickNearestFrameForCurrentView bbox prepared true m) as [k m1].
    cbn [fst snd] in *.
    replace (k <? 0) with false by (symmetry; apply Z.ltb_ge; lia).
    destruct (advance_from prepared step k m1 Hn Hr Hstep Hidx) as [H1 H2].
    split; [assumption|]. rewrite H2, Hfired, <- app_assoc. reflexivity.
  - intros Hi Hk.
    replace (transformFrameIndex m <? 0) with true by (symmetry; apply Z.ltb_lt; lia).
    destruct (pickNearest_index bbox prepared true m) as [(Hneg & Hidx & Hm)|(Hr & _)]; [|lia].
    destruct (pickNearestFrameForCurrentView bbox prepared true m) as [k m1].
    cbn [fst snd] in *. subst k. cbn [Z.ltb Z.compare]. now rewrite <- Hm.
Qed.

(** C9 at work on the sample host: a next request at the last of three
    frames wraps to the first, and one with nothing selected goes to the
    frame after the nearest. *)
Lemma step_is_cyclic_sample :
  transformFrameIndex
    (stepTransformFrame (host := sample_host) unit_bbox three_candidates 1
                        (manager_with origin_camera 2)) = 0
  /\
  fired_indices
    (trace (stepTransformFrame (host := sample_host) unit_bbox three_candidates 1
                               (manager_with origin_camera (-1)))) = [0; 1].
Proof.
  assert (Hne : three_candidates <> []) by discriminate.
  split.
  - destruct (step_is_cyclic sample_host unit_bbox three_candidates 1
                (manager_with origin_camera 2) Hne (or_introl eq_refl))
      as (H & _ & _).
    apply H. vm_compute. split; [discriminate|reflexivity].
  - destruct (step_is_cyclic sample_host unit_bbox three_candidates 1
                (manager_with origin_camera (-1)) Hne (or_introl eq_refl))
      as (_ & H & _).
    apply H; vm_compute; [reflexivity|discriminate].
Defined.

(** C9 as stated fails: on the far dataset, which is not empty, a next
    request with nothing selected selects nothing, whatever the host. *)
Lemma step_without_match_is_noop :
  far_dataset <> [] /\
  forall (host : Host) (m : Manager),
    this_camera m = origin_camera -> transformFrameIndex m = -1 ->
    stepTransformFrame unit_bbox far_dataset 1 m = emit MatcherInvoked m
    /\ transformFrameIndex (stepTransformFrame unit_bbox far_dataset 1 m) = -1.
Proof.
  split; [discriminate|].
  intros host m Hcam Hidx. unfold stepTransformFrame.
  change (prepared_length far_dataset =? 0) with false. cbv iota.
  rewrite Hidx. change (-1 <? 0) with true. cbv iota.
  rewrite far_dataset_no_match by assumption.
  change (-1 <? 0) with true. cbv iota. now split.
Qed.

(** ** C10: the selected index stays in range *)

Section InvariantFacts.
Context {host : Host}.
Variable bbox : BoundingBox.
Variable prepared : list Prepared.t.
Variable frameCamera : Camera.
Variable resetCamera : Camera.
Let n := prepared_length prepared.

Lemma invariant_same (m m' : Manager) :
  transformFrameIndex m' = transformFrameIndex m -> trace m' = trace m ->
  selection_invariant prepared m -> selection_invariant prepared m'.
Proof. unfold selection_invariant. now intros -> ->. Qed.

Lemma step_invariant step (m : Manager) :
  step = 1 \/ step = -1 ->
  selection_invariant prepared m ->
  selection_invariant prepared (stepTransformFrame bbox prepared step m).
Proof.
  intros Hstep Hinv. unfold stepTransformFrame. fold n.
  destruct (Z.eqb_spec n 0) as [Hz|Hz]; [assumption|].
  assert (Hn : 0 < n) by (unfold n, prepared_length in *; lia).
  assert (Hadv : forall m1 : Manager,
             selection_invariant prepared m1 -> 0 <= transformFrameIndex m1 < n ->
             selection_invariant prepared
               (gotoTransformFrameIndex prepared
                  (transformFrameIndex
                     (set_transformFrameIndex
                        (Z.rem (transformFrameIndex m1 + step + n) n) m1))
                  (set_transformFrameIndex
                     (Z.rem (transformFrameIndex m1 + step + n) n) m1))).
  { intros m1 [_ Ht] Hr. apply goto_invariant.
    destruct (rem_step_is_cyclic prepared step (transformFrameIndex m1) Hn Hr Hstep)
      as [Hrem Hrange].
    split; [|exact Ht].
    cbn [transformFrameIndex set_transformFrameIndex]. unfold n in *.
    rewrite Hrem. now right. }
  destruct (Z.ltb_spec (transformFrameIndex m) 0) as [Hneg|Hpos].
  - pose proof (pickNearest_invariant bbox prepared true m Hinv) as Hinv1.
    destruct (pickNearest_index bbox prepared true m) as [(Hk & _)|(Hr & Hidx)];
      destruct (pickNearestFrameForCurrentView bbox prepared true m) as [k m1];
      cbn [fst snd] in *.
    + subst k. exact Hinv1.
    + replace (k <? 0) with false by (symmetry; apply Z.ltb_ge; lia).
      apply Hadv; [assumption|]. fold n in Hr. lia.
  - apply Hadv; [assumption|]. destruct Hinv as [[Hi|Hi] _]; fold n in Hi; lia.
Qed.

Lemma on_inputEvent_invariant ev (m : Manager) :
  selection_invariant prepared m ->
  selection_invariant prepared
    (on_inputEvent bbox prepared frameCamera resetCamera ev m).
Proof.
  intros Hinv. destruct ev; cbn [on_inputEvent].
  - now apply (invariant_same m).
  - now apply (invariant_same m).
  - destruct (hasAnimation (state m)); [|assumption].
    destruct (CameraMode_eqb _ _); now apply (invariant_same m).
  - destruct (CameraMode_eqb _ _); [now apply (invariant_same m)|assumption].
  - destruct (CameraMode_eqb _ _); [now apply (invariant_same m)|assumption].
  - apply step_invariant; [now right|assumption].
  - apply step_invariant; [now left|assumption].
  - pose proof (pickNearest_invariant bbox prepared false m Hinv) as Hinv1.
    destruct (pickNearestFrameForCurrentView bbox prepared false m) as [k m1].
    cbn [snd] in Hinv1. destruct (k >=? 0); [now apply goto_invariant|assumption].
  - destruct (transformFrameIndex m >=? 0); [now apply goto_invariant|assumption].
Qed.

Lemma update_invariant deltaTime inputFrame (m : Manager) :
  selection_invariant prepared m ->
  selection_invariant prepared (final (update bbox prepared deltaTime inputFrame m)).
Proof.
  intros Hinv. unfold update.
  cbn [set_transitionTimer set_transition controllers state].
  destruct (getController (controllers m) (cameraMode (state m))) as [controller|];
    [|now apply (invariant_same m)].
  destruct (Controller_update controller _ inputFrame _) as [controller1 target1].
  match goal with |- context [blend ?x] => set (m0 := x) end.
  set (m1 := blend m0).
  set (m2 := if CameraMode_eqb (cameraMode (state m1)) anim
             then set_animationTime (Anim_cursor_value controller1) m1 else m1).
  assert (H2 : selection_invariant prepared m2).
  { assert (H1 : selection_invariant prepared m1).
    { subst m1. unfold blend. destruct (_ <? 1)%float; now apply (invariant_same m). }
    subst m2. destruct (CameraMode_eqb (cameraMode (state m1)) anim);
      [now apply (invariant_same m1)|assumption]. }
  destruct (settle_step _ deltaTime _ _) as [[w t] r].
  match goal with |- context [if r then snd (pickNearestFrameForCurrentView _ _ _ ?x) else _] =>
    set (m3 := x) end.
  assert (H3 : selection_invariant prepared m3) by now apply (invariant_same m2).
  set (m4 := if r then snd (pickNearestFrameForCurrentView bbox prepared true m3) else m3).
  assert (H4 : selection_invariant prepared m4).
  { subst m4. destruct r; [now apply pickNearest_invariant|assumption]. }
  cbn [final]. now apply (invariant_same m4).
Qed.

Lemma dispatch_invariant (r : Request) (m : Manager) :
  selection_invariant prepared m ->
  selection_invariant prepared
    (final (dispatch bbox prepared frameCamera resetCamera r m)).
Proof.
  intros Hinv. destruct r as [dt fr|ev|value prev|time|p|p t f]; cbn [dispatch].
  - now apply update_invariant.
  - cbn [final]. now apply on_inputEvent_invariant.
  - unfold on_cameraMode_changed.
    destruct (getController _ prev) as [pc|]; [|now apply (invariant_same m)].
    destruct (getController _ value) as [nc|]; now apply (invariant_same m).
  - unfold on_scrubAnim.
    destruct (anim_controller _) as [a|]; now apply (invariant_same m).
  - now apply (invariant_same m).
  - now apply (invariant_same m).
Qed.

Lemma run_invariant (requests : list Request) : forall m : Manager,
  selection_invariant prepared m ->
  selection_invariant prepared (run bbox prepared frameCamera resetCamera requests m).
Proof.
  unfold run. induction requests as [|r requests IH]; intros m Hinv; cbn [fold_left].
  - assumption.
  - apply IH. now apply dispatch_invariant.
Qed.

End InvariantFacts.

(** C10.  From the state the constructor leaves, after any sequence of
    updates and events, the selected index is -1 or an index into the
    prepared dataset, and every [transformFrame:selected] fired so far
    carries an index in range and the length of the prepared dataset as its
    count; a selection is fired only when the index is in range, and then
    it carries that index and the file path and id of the frame there. *)
Theorem selected_index_in_range :
  forall (host : Host) (g0 : GlobalState) (settings : Settings) (bbox : BoundingBox)
         (prepared : list Prepared.t) (requests : list Request),
    let n := prepared_length prepared in
    let m := run bbox prepared (constructor_frameCamera settings bbox)
                 (constructor_resetCamera settings) requests
                 (constructor g0 settings bbox) in
    index_in_range n (transformFrameIndex m)
    /\ Forall (selection_in_range n) (trace m)
    /\ (forall m0 : Manager,
          (~ (0 <= transformFrameIndex m0 < n) /\
           emitSelectedTransformFrame prepared m0 = m0)
          \/
          (0 <= transformFrameIndex m0 < n /\
           exists p,
             prepared_at prepared (transformFrameIndex m0) = Some p /\
             emitSelectedTransformFrame prepared m0
             = emit (Fired (mkSelected (transformFrameIndex m0) n
                                       (file_path (Prepared.frame p))
                                       (colmap_im_id (Prepared.frame p)))) m0)).
Proof.
  intros host g0 settings bbox prepared requests. cbn zeta.
  assert (Hinit : selection_invariant prepared (constructor g0 settings bbox)).
  { split; [now left|constructor]. }
  destruct (run_invariant bbox prepared (constructor_frameCamera settings bbox)
              (constructor_resetCamera settings) requests _ Hinit) as [Hi Ht].
  split; [assumption|]. split; [assumption|].
  intros m0. apply emitSelected_trace.
Qed.

(** ** C6: malformed matrices *)

(** The guard of [frameToCamera] lets through exactly the well-formed
    matrices. *)
Lemma malformed_matrix_spec m :
  malformed_matrix m = false <-> well_formed_matrix m.
Proof.
  unfold malformed_matrix, well_formed_matrix. split.
  - intros H. repeat (apply orb_false_iff in H as [H ?]).
    destruct m as [[rows|]|]; try discriminate.
    destruct rows as [|[r0|] [|[r1|] [|[r2|] more]]]; try discriminate.
    exists r0, r1, r2, more. cbn in *.
    repeat match goal with
           | H : (_ <? _) = false |- _ => apply Z.ltb_ge in H
           end.
    repeat split; lia.
  - intros (r0 & r1 & r2 & more & -> & H0 & H1 & H2). cbn.
    repeat (apply orb_false_iff; split); try reflexivity; apply Z.ltb_ge; lia.
Qed.

Lemma with_sort_key_matrix f :
  transform_matrix (with_sort_key f) = transform_matrix f.
Proof. reflexivity. Qed.

(** Where the prepared frames come from. *)
Lemma prepared_frame_origin {host : Host} frames fov rot p :
  In p (prepareTransformFrames frames fov rot) ->
  exists f, In f frames /\ Prepared.frame p = with_sort_key f /\
            well_formed_matrix (transform_matrix f).
Proof.
  intros Hin. apply (in_map Prepared.frame) in Hin.
  rewrite prepared_frames in Hin. apply filter_In in Hin as [Hin Hok].
  unfold validTransformFrames in Hin.
  apply (Permutation_in _ (Array_sort_perm _ compareFrames _)) in Hin.
  apply in_map_iff in Hin as (f & Hf & Hin). apply filter_In in Hin as [Hin _].
  exists f. split; [assumption|]. split; [now symmetry|].
  apply malformed_matrix_spec. rewrite <- Hf in Hok. rewrite with_sort_key_matrix in Hok.
  now destruct (malformed_matrix (transform_matrix f)).
Qed.

Lemma two_rows_not_well_formed r0 r1 :
  ~ well_formed_matrix (Some (MatArray [r0; r1])).
Proof. intros (? & ? & ? & ? & H & _). discriminate. Qed.

Lemma empty_dataset_navigation {host : Host} bbox frameCamera resetCamera ev (m : Manager) :
  is_navigation ev = true ->
  on_inputEvent bbox [] frameCamera resetCamera ev m
  = match ev with
    | ev_gotoNearestTransformFrame => emit MatcherInvoked m
    | _ => m
    end.
Proof.
  destruct ev; try discriminate; intros _; cbn [on_inputEvent]; try reflexivity.
  destruct (transformFrameIndex m >=? 0) eqn:E; [|reflexivity].
  apply goto_out_of_range. cbn. rewrite Z.geb_leb in E. apply Z.leb_le in E. lia.
Qed.

(** C6.  A raw frame whose matrix is not well-formed has no entry in the
    prepared dataset; and when every raw frame has a matrix of two rows the
    prepared dataset is empty, the matcher returns -1 and leaves the
    selection as it is, and the navigation requests change nothing (the
    nearest-frame request runs the matcher, to no effect). *)
Theorem malformed_frames_are_discarded :
  forall (host : Host) (bbox : BoundingBox) (frames : list TransformFrame)
         (fov : float) (rot : option Mat4) (frameCamera resetCamera : Camera),
    let prepared := prepareTransformFrames frames fov rot in
    (forall f, In f frames -> ~ well_formed_matrix (transform_matrix f) ->
               forall p, In p prepared -> Prepared.frame p <> with_sort_key f)
    /\
    ((forall f, In f frames ->
                exists r0 r1, transform_matrix f = Some (MatArray [r0; r1])) ->
     prepared = [] /\
     forall (m : Manager),
       (forall e, pickNearestFrameForCurrentView bbox prepared e m
                  = (-1, emit MatcherInvoked m)) /\
       (forall ev, is_navigation ev = true ->
                   on_inputEvent bbox prepared frameCamera resetCamera ev m
                   = match ev with
                     | ev_gotoNearestTransformFrame => emit MatcherInvoked m
                     | _ => m
                     end)).
Proof.
  intros host bbox frames fov rot frameCamera resetCamera. cbn zeta. split.
  - intros f Hin Hbad p Hp Heq.
    destruct (prepared_frame_origin frames fov rot p Hp) as (g & _ & Hg & Hwf).
    apply Hbad. rewrite <- (with_sort_key_matrix f), <- Heq, Hg. exact Hwf.
  - intros Htwo.
    assert (Hempty : prepareTransformFrames frames fov rot = []).
    { destruct (prepareTransformFrames frames fov rot) as [|p l] eqn:E; [reflexivity|].
      destruct (prepared_frame_origin frames fov rot p) as (g & Hin & _ & Hwf);
        [rewrite E; now left|].
      destruct (Htwo g Hin) as (r0 & r1 & Hm). rewrite Hm in Hwf.
      now apply two_rows_not_well_formed in Hwf. }
    rewrite Hempty. split; [reflexivity|]. intros m. split.
    + intros e. reflexivity.
    + intros ev Hev. now apply empty_dataset_navigation.
Qed.

(** C6 at work on the sample host: two frames with two-row matrices. *)
Lemma malformed_frames_sample :
  prepareTransformFrames (host := sample_host)
    [two_row_frame "frame_001.png"; two_row_frame "frame_002.png"] 60 None = []
  /\ on_inputEvent (host := sample_host) unit_bbox
       (prepareTransformFrames (host := sample_host)
          [two_row_frame "frame_001.png"; two_row_frame "frame_002.png"] 60 None)
       origin_camera origin_camera ev_nextTransformFrame (manager_with origin_camera (-1))
     = manager_with origin_camera (-1).
Proof.
  destruct (malformed_frames_are_discarded sample_host unit_bbox
              [two_row_frame "frame_001.png"; two_row_frame "frame_002.png"]
              60%float None origin_camera origin_camera) as [_ H].
  destruct H as [Hempty Hm].
  - intros f [<-|[<-|[]]]; now eexists _, _.
  - split; [exact Hempty|].
    destruct (Hm (manager_with origin_camera (-1))) as [_ Hnav].
    exact (Hnav ev_nextTransformFrame eq_refl).
Defined.

(** ** C7: the initial camera mode *)

Lemma constructor_controllers_anim {host : Host} g0 settings bbox :
  anim_controller (controllers (constructor g0 settings bbox))
  = match constructor_animTrack settings bbox with
    | Some track =>
        Some (fst (Controller_onEnter (AnimController_new track)
                     (Camera_copy Camera_new (constructor_resetCamera settings))))
    | None => None
    end.
Proof.
  unfold constructor. cbn [controllers anim_controller].
  destruct (constructor_animTrack settings bbox) as [track|]; cbn.
  - reflexivity.
  - now destruct (isObjectExperience settings bbox).
Qed.

(** C7.  The constructor leaves the camera mode [anim] if an animation
    track was resolved, and otherwise [orbit] if the start pose lies outside
    the bounding box and [fly] if it lies inside; [hasAnimation] says
    whether a track was resolved. *)
Theorem initial_camera_mode :
  forall (host : Host) (g0 : GlobalState) (settings : Settings) (bbox : BoundingBox),
    let m := constructor g0 settings bbox in
    let outside :=
      negb (BoundingBox_containsPoint bbox
              (position (createCamera (initial_position (camera0 settings))
                                      (initial_target (camera0 settings))
                                      (initial_fov (camera0 settings))))) in
    cameraMode (state m)
    = match constructor_animTrack settings bbox with
      | Some _ => anim
      | None => if outside then orbit else fly
      end
    /\ hasAnimation (state m)
       = match constructor_animTrack settings bbox with Some _ => true | None => false end.
Proof.
  intros host g0 settings bbox. cbn zeta. unfold constructor.
  cbn [state cameraMode hasAnimation anim_controller].
  now destruct (constructor_animTrack settings bbox).
Qed.

(** With tracks that are objects, a start pose outside the bounding box
    always resolves a track (the rotation track), so the constructor never
    leaves the mode [orbit]. *)
Remark initial_camera_mode_never_orbit {host : Host} g0 settings bbox :
  cameraMode (state (constructor g0 settings bbox)) <> orbit.
Proof.
  unfold constructor. cbn [state cameraMode anim_controller].
  unfold constructor_animTrack, getAnimTrack.
  destruct (animTracks settings) as [[|t l]|]; cbn;
    destruct (isObjectExperience settings bbox); cbn;
    try destruct (String.eqb _ _); cbn; discriminate.
Qed.

(** ** C5: requests for [anim] without an animation controller *)

Lemma constructor_without_track {host : Host} g0 settings bbox :
  constructor_animTrack settings bbox = None ->
  let m := constructor g0 settings bbox in
  hasAnimation (state m) = false /\ anim_controller (controllers m) = None /\
  cameraMode (state m) <> anim.
Proof.
  intros Hnone. cbn zeta. rewrite constructor_controllers_anim, Hnone.
  unfold constructor. cbn [state hasAnimation cameraMode anim_controller].
  rewrite Hnone. repeat split. now destruct (isObjectExperience settings bbox).
Qed.

(** C5 on the code.  Without an animation controller the play/pause
    toggle is ignored, but a scrub sets the mode to [anim] and then throws,
    and a mode-change event for [anim] throws as well. *)
Theorem anim_requests_without_controller :
  forall (host : Host) (bbox : BoundingBox) (prepared : list Prepared.t)
         (frameCamera resetCamera : Camera) (m : Manager),
    hasAnimation (state m) = false ->
    anim_controller (controllers m) = None ->
    on_inputEvent bbox prepared frameCamera resetCamera ev_playPause m = m
    /\ (forall time, on_scrubAnim time m = TypeError (set_cameraMode anim m))
    /\ (forall prev, exists m', on_cameraMode_changed anim prev m = TypeError m').
Proof.
  intros host bbox prepared frameCamera resetCamera m Hhas Hnone. repeat split.
  - cbn [on_inputEvent]. now rewrite Hhas.
  - intros time. unfold on_scrubAnim.
    cbn [controllers set_cameraMode set_state]. now rewrite Hnone.
  - intros prev. unfold on_cameraMode_changed.
    cbn [controllers set_fromMode set_target set_transition startTransition].
    destruct prev; cbn [getController]; rewrite ?Hnone; try (now eexists);
      cbn [controllers set_controllers setController anim_controller];
      rewrite Hnone; now eexists.
Qed.

(** C5 at the failing input: the manager built without an animation track
    is in mode [fly]; a scrub leaves it in mode [anim], thrown out of the
    handler. *)
Lemma scrub_without_track_sample :
  cameraMode (state plain_manager) = fly
  /\ on_scrubAnim (host := sample_host) 0.5 plain_manager
     = TypeError (set_cameraMode anim plain_manager)
  /\ cameraMode (state (final (on_scrubAnim (host := sample_host) 0.5 plain_manager)))
     = anim.
Proof.
  destruct (anim_requests_without_controller sample_host unit_bbox []
              origin_camera origin_camera plain_manager eq_refl eq_refl)
    as (_ & Hscrub & _).
  split; [reflexivity|]. split; [apply Hscrub|].
  rewrite Hscrub. reflexivity.
Defined.

(* ================================================================== *)
(** * Part III.  Further properties of the code                         *)
(* ================================================================== *)

(** ** Dataset preparation *)

Lemma Permutation_filter_keep {A : Type} (keep : A -> bool) (l l' : list A) :
  Permutation l l' -> Permutation (filter keep l) (filter keep l').
Proof.
  induction 1 as [|a l l' _ IH|a b l|l l' l'' _ IH1 _ IH2]; cbn [filter].
  - constructor.
  - destruct (keep a); [now constructor|assumption].
  - destruct (keep a), (keep b); try reflexivity. apply perm_swap.
  - now transitivity (filter keep l').
Qed.

Lemma passes_guard_is_array f :
  passes_guard f = true -> Array_isArray_rows (transform_matrix f) = true.
Proof.
  unfold passes_guard, malformed_matrix.
  destruct (Array_isArray_rows (transform_matrix f)); [reflexivity|discriminate].
Qed.

Lemma filter_guard_after_array (frames : list TransformFrame) :
  filter passes_guard
    (filter (fun f => Array_isArray_rows (transform_matrix f)) frames)
  = filter passes_guard frames.
Proof.
  induction frames as [|f frames IH]; cbn [filter]; [reflexivity|].
  destruct (Array_isArray_rows (transform_matrix f)) eqn:E; cbn [filter].
  - now rewrite IH.
  - destruct (passes_guard f) eqn:G; [|assumption].
    apply passes_guard_is_array in G. congruence.
Qed.

Lemma filter_guard_with_sort_key (l : list TransformFrame) :
  filter passes_guard (map with_sort_key l) = map with_sort_key (filter passes_guard l).
Proof.
  induction l as [|f l IH]; cbn [filter map]; [reflexivity|].
  change (passes_guard (with_sort_key f)) with (passes_guard f).
  destruct (passes_guard f); cbn [map]; now rewrite IH.
Qed.

(** X1.  Dataset preparation loses and duplicates nothing: the frames of
    the prepared dataset are, up to order, the raw frames that pass the
    guard of [frameToCamera], each with its sort key, each as often as it
    arrived; so the prepared dataset has as many entries as there are such
    raw frames. *)
Theorem prepared_dataset_is_the_guarded_frames :
  forall (host : Host) (frames : list TransformFrame) (fov : float)
         (rot : option Mat4),
    Permutation (map Prepared.frame (prepareTransformFrames frames fov rot))
                (map with_sort_key (filter passes_guard frames))
    /\ List.length (prepareTransformFrames frames fov rot)
       = List.length (filter passes_guard frames).
Proof.
  intros host frames fov rot.
  assert (H : Permutation (map Prepared.frame (prepareTransformFrames frames fov rot))
                          (map with_sort_key (filter passes_guard frames))).
  { rewrite prepared_frames. fold passes_guard. unfold validTransformFrames.
    rewrite (Permutation_filter_keep passes_guard _ _ (Array_sort_perm _ compareFrames _)).
    now rewrite filter_guard_with_sort_key, filter_guard_after_array. }
  split; [exact H|].
  apply Permutation_length in H. now rewrite !length_map in H.
Qed.

Lemma in_filter_map {A B : Type} (f : A -> option B) (l : list A) (b : B) :
  In b (filter_map f l) -> exists a, In a l /\ f a = Some b.
Proof.
  induction l as [|a l IH]; cbn [filter_map]; [intros []|].
  destruct (f a) as [b'|] eqn:E.
  - intros [<-|H]; [exists a; split; [now left|assumption]|].
    destruct (IH H) as (a' & Hin & Ha'). exists a'. split; [now right|assumption].
  - intros H. destruct (IH H) as (a' & Hin & Ha'). exists a'. split; [now right|assumption].
Qed.

(** X2.  Every entry of the prepared dataset carries the one field of view
    resolved for the dataset (no per-frame field of view is read), on its
    camera and in its cache, and its cached position and forward vector are
    those of its camera. *)
Theorem prepared_entries_share_the_dataset_fov :
  forall (host : Host) (frames : list TransformFrame) (fov0 : float)
         (rot : option Mat4) (p : Prepared.t),
    In p (prepareTransformFrames frames fov0 rot) ->
    Prepared.fov p = fov0 /\ fov (Prepared.camera p) = fov0 /\
    Prepared.position p = position (Prepared.camera p) /\
    Prepared.forward p = cameraForwardFromAngles (Prepared.camera p).
Proof.
  intros host frames fov0 rot p Hin.
  apply in_filter_map in Hin as (f & _ & Hp).
  unfold prepare_frame in Hp.
  destruct (frameToCamera f fov0 rot) as [c|] eqn:Hc; [|discriminate].
  injection Hp as <-. cbn [Prepared.fov Prepared.camera Prepared.position Prepared.forward].
  assert (Hfov : fov c = fov0).
  { unfold frameToCamera in Hc.
    destruct (malformed_matrix (transform_matrix f)); [discriminate|].
    destruct rot; injection Hc as <-; reflexivity. }
  now rewrite Hfov.
Qed.

(** X2 at work on the sample host: two frames, both prepared with the
    dataset's field of view. *)
Lemma prepared_entries_fov_sample :
  List.length (prepareTransformFrames (host := sample_host)
                 [frame_at "frame_001.png" 1 2 3; frame_at "frame_000.png" 0 0 0]
                 42 None) = 2%nat
  /\ Forall (fun p => Prepared.fov p = 42%float)
       (prepareTransformFrames (host := sample_host)
          [frame_at "frame_001.png" 1 2 3; frame_at "frame_000.png" 0 0 0] 42 None).
Proof.
  split; [vm_compute; reflexivity|].
  apply Forall_forall. intros p Hin.
  exact (proj1 (prepared_entries_share_the_dataset_fov sample_host _ _ _ p Hin)).
Defined.

(** The insertion sort never reorders two elements of a class [q] inside
    which the comparator is never positive. *)
Lemma sort_insert_filter {A : Type} (comparefn : A -> A -> num) (q : A -> bool) a l :
  (forall b, In b l -> q a = true -> q b = true ->
             num_positive (comparefn a b) = false) ->
  filter q (sort_insert comparefn a l) = filter q (a :: l).
Proof.
  induction l as [|b l IH]; intros H; cbn [sort_insert]; [reflexivity|].
  destruct (num_positive (comparefn a b)) eqn:E; [|reflexivity].
  cbn [filter]. rewrite IH by (intros b' Hb'; apply H; now right).
  cbn [filter]. destruct (q a) eqn:Qa; [|reflexivity].
  destruct (q b) eqn:Qb; [|reflexivity].
  rewrite (H b (or_introl eq_refl) eq_refl Qb) in E. discriminate.
Qed.

Lemma Array_sort_filter {A : Type} (comparefn : A -> A -> num) (q : A -> bool) l :
  (forall a b, q a = true -> q b = true -> num_positive (comparefn a b) = false) ->
  filter q (Array_sort comparefn l) = filter q l.
Proof.
  intros H. induction l as [|a l IH]; cbn [Array_sort]; [reflexivity|].
  rewrite sort_insert_filter by (intros b _; apply H).
  cbn [filter]. now rewrite IH.
Qed.

Lemma infinite_keys_compare_as_equal {host : Host} a b :
  key_is_infinite a = true -> key_is_infinite b = true ->
  num_positive (compareFrames a b) = false.
Proof.
  unfold key_is_infinite, compareFrames.
  destruct (key_of a); try discriminate. destruct (key_of b); try discriminate.
  reflexivity.
Qed.

(** X3.  The frames whose sort key is +Infinity (no frame number in the
    path, or one too large for a double) leave the sort in the order in
    which they arrived: between
    two of them the comparator yields NaN, their paths are never compared,
    and the stable sort keeps them as they were. *)
Theorem frames_without_number_keep_arrival_order :
  forall (host : Host) (frames : list TransformFrame),
    filter key_is_infinite (validTransformFrames frames)
    = filter key_is_infinite
        (map with_sort_key
           (filter (fun f => Array_isArray_rows (transform_matrix f)) frames)).
Proof.
  intros host frames. unfold validTransformFrames.
  apply Array_sort_filter. intros a b. apply infinite_keys_compare_as_equal.
Qed.

(** Sorting a list that is already in order returns it. *)
Lemma Array_sort_of_sorted {A : Type} (comparefn : A -> A -> num)
    (R : A -> A -> Prop) l :
  (forall a b, In a l -> In b l -> R a b -> num_positive (comparefn a b) = false) ->
  StronglySorted R l -> Array_sort comparefn l = l.
Proof.
  intros Hcmp Hs. induction Hs as [|a l Hs IH Ha]; cbn [Array_sort]; [reflexivity|].
  rewrite IH by (intros x y Hx Hy; apply Hcmp; now right).
  destruct l as [|b l]; cbn [sort_insert]; [reflexivity|].
  rewrite (Hcmp a b); [reflexivity|now left|right; now left|].
  now inversion Ha.
Qed.

Lemma frame_order_not_positive {host : Host} a b :
  frame_order a b -> num_positive (compareFrames a b) = false.
Proof.
  unfold frame_order, compareFrames.
  destruct (key_of a) as [p| | |], (key_of b) as [q| | |]; try (cbn; easy).
  rewrite compare_finite_keys. intros [H|[-> H]].
  - replace (p =? q) with false by (symmetry; apply Z.eqb_neq; lia).
    apply Z.ltb_ge. lia.
  - rewrite Z.eqb_refl. apply Z.ltb_ge. assumption.
Qed.

Lemma filter_all {A : Type} (keep : A -> bool) (l : list A) :
  (forall a, In a l -> keep a = true) -> filter keep l = l.
Proof.
  induction l as [|a l IH]; intros H; cbn [filter]; [reflexivity|].
  rewrite (H a (or_introl eq_refl)). f_equal. apply IH. intros b Hb. apply H. now right.
Qed.

Lemma validTransformFrames_elements {host : Host} frames f :
  In f (validTransformFrames frames) ->
  exists g, f = with_sort_key g /\ Array_isArray_rows (transform_matrix g) = true.
Proof.
  unfold validTransformFrames. intros Hin.
  apply (Permutation_in _ (Array_sort_perm _ compareFrames _)) in Hin.
  apply in_map_iff in Hin as (g & <- & Hg). apply filter_In in Hg as [_ Hg].
  now exists g.
Qed.

(** X4.  Preparing the order twice is preparing it once: for a consistent
    [localeCompare], [validTransformFrames] applied to its own result
    returns that result. *)
Theorem validTransformFrames_idempotent :
  forall (host : Host),
    (forall a b, 0 < localeCompare a b -> localeCompare b a <= 0) ->
    (forall a b c, localeCompare a b <= 0 -> localeCompare b c <= 0 ->
                   localeCompare a c <= 0) ->
    forall frames : list TransformFrame,
      validTransformFrames (validTransformFrames frames) = validTransformFrames frames.
Proof.
  intros host Htotal Htrans frames.
  set (sorted := validTransformFrames frames).
  unfold validTransformFrames at 1.
  rewrite filter_all.
  2:{ intros f Hf. apply validTransformFrames_elements in Hf as (g & -> & Hg).
      exact Hg. }
  replace (map with_sort_key sorted) with sorted.
  2:{ rewrite <- (map_id sorted) at 1. apply map_ext_in. intros f Hf.
      apply validTransformFrames_elements in Hf as (g & -> & _). reflexivity. }
  apply Array_sort_of_sorted with (R := frame_order).
  - intros a b _ _. apply frame_order_not_positive.
  - now apply validTransformFrames_sorted.
Qed.

(** X4 at work with the sample host's collation. *)
Lemma validTransformFrames_idempotent_sample :
  paths (validTransformFrames (host := sample_host)
           (validTransformFrames (host := sample_host)
              [named_frame "foo.png"; named_frame "frame_010.png";
               named_frame "frame_002.png"]))
  = ["frame_002.png"; "frame_010.png"; "foo.png"]%string.
Proof.
  rewrite (validTransformFrames_idempotent sample_host
             sample_localeCompare_total sample_localeCompare_trans).
  vm_compute. reflexivity.
Defined.

(** ** Navigation *)

Section MoreNavigationFacts.
Context {host : Host}.
Variable bbox : BoundingBox.
Variable prepared : list Prepared.t.

Lemma prepared_nonempty_length :
  prepared <> [] -> 0 < prepared_length prepared.
Proof. unfold prepared_length. destruct prepared; [congruence|cbn; lia]. Qed.

(** A step from a selected index, as one lemma on [stepTransformFrame]. *)
Lemma step_from_selected step (m : Manager) :
  prepared <> [] -> step = 1 \/ step = -1 ->
  0 <= transformFrameIndex m < prepared_length prepared ->
  transformFrameIndex (stepTransformFrame bbox prepared step m)
  = cyclic_step step (transformFrameIndex m) (prepared_length prepared)
  /\ fired_indices (trace (stepTransformFrame bbox prepared step m))
     = fired_indices (trace m)
       ++ [cyclic_step step (transformFrameIndex m) (prepared_length prepared)].
Proof.
  intros Hne Hstep Hi. pose proof (prepared_nonempty_length Hne) as Hn.
  unfold stepTransformFrame.
  replace (prepared_length prepared =? 0) with false by (symmetry; apply Z.eqb_neq; lia).
  replace (transformFrameIndex m <? 0) with false by (symmetry; apply Z.ltb_ge; lia).
  now apply (advance_from prepared step (transformFrameIndex m) m).
Qed.

Lemma cyclic_step_range step i :
  0 < prepared_length prepared -> 0 <= i < prepared_length prepared ->
  step = 1 \/ step = -1 ->
  0 <= cyclic_step step i (prepared_length prepared) < prepared_length prepared.
Proof. intros Hn Hi Hs. now apply (rem_step_is_cyclic prepared step i). Qed.

Lemma iterate_next k (m : Manager) :
  prepared <> [] ->
  0 <= transformFrameIndex m < prepared_length prepared ->
  transformFrameIndex (Nat.iter k (stepTransformFrame bbox prepared 1) m)
  = (transformFrameIndex m + Z.of_nat k) mod prepared_length prepared.
Proof.
  intros Hne Hi. pose proof (prepared_nonempty_length Hne) as Hn.
  induction k as [|k IH].
  - cbn [Nat.iter nat_rect]. rewrite Z.add_0_r. symmetry. apply Z.mod_small. lia.
  - rewrite Nat.iter_succ.
    destruct (step_from_selected 1 (Nat.iter k (stepTransformFrame bbox prepared 1) m))
      as [-> _]; [assumption|now left| |].
    + rewrite IH. apply Z.mod_pos_bound. lia.
    + rewrite IH. unfold cyclic_step.
      change (1 =? 1) with true; change (-1 =? 1) with false; cbn iota.
      rewrite Z.add_mod_idemp_l by lia. f_equal. lia.
Qed.

Lemma iterate_previous k (m : Manager) :
  prepared <> [] ->
  0 <= transformFrameIndex m < prepared_length prepared ->
  transformFrameIndex (Nat.iter k (stepTransformFrame bbox prepared (-1)) m)
  = (transformFrameIndex m - Z.of_nat k) mod prepared_length prepared.
Proof.
  intros Hne Hi. pose proof (prepared_nonempty_length Hne) as Hn.
  induction k as [|k IH].
  - cbn [Nat.iter nat_rect]. rewrite Z.sub_0_r. symmetry. apply Z.mod_small. lia.
  - rewrite Nat.iter_succ.
    destruct (step_from_selected (-1) (Nat.iter k (stepTransformFrame bbox prepared (-1)) m))
      as [-> _]; [assumption|now right| |].
    + rewrite IH. apply Z.mod_pos_bound. lia.
    + rewrite IH. unfold cyclic_step.
      change (1 =? 1) with true; change (-1 =? 1) with false; cbn iota.
      set (n := prepared_length prepared) in *.
      replace ((transformFrameIndex m - Z.of_nat k) mod n - 1 + n)
        with ((transformFrameIndex m - Z.of_nat k) mod n + (n - 1)) by lia.
      rewrite Z.add_mod_idemp_l by lia.
      replace (transformFrameIndex m - Z.of_nat k + (n - 1))
        with (transformFrameIndex m - Z.of_nat (S k) + 1 * n) by lia.
      apply Z_mod_plus_full.
Qed.

End MoreNavigationFacts.

(** X5.  From a selected frame [i] of [n], [k] next requests select
    [(i + k) mod n] and [k] previous requests select [(i - k) mod n]; so [n]
    requests in one direction come back to [i], and a next request followed
    by a previous one (or the reverse) comes back to [i]. *)
Theorem stepping_is_addition_modulo_the_count :
  forall (host : Host) (bbox : BoundingBox) (prepared : list Prepared.t)
         (m : Manager) (k : nat),
    prepared <> [] ->
    0 <= transformFrameIndex m < prepared_length prepared ->
    let n := prepared_length prepared in
    let i := transformFrameIndex m in
    let next := stepTransformFrame bbox prepared 1 in
    let previous := stepTransformFrame bbox prepared (-1) in
    transformFrameIndex (Nat.iter k next m) = (i + Z.of_nat k) mod n
    /\ transformFrameIndex (Nat.iter k previous m) = (i - Z.of_nat k) mod n
    /\ transformFrameIndex (Nat.iter (List.length prepared) next m) = i
    /\ transformFrameIndex (Nat.iter (List.length prepared) previous m) = i
    /\ transformFrameIndex (previous (next m)) = i
    /\ transformFrameIndex (next (previous m)) = i.
Proof.
  intros host bbox prepared m k Hne Hi. cbn zeta.
  pose proof (prepared_nonempty_length prepared Hne) as Hn.
  repeat split.
  - now apply iterate_next.
  - now apply iterate_previous.
  - rewrite iterate_next by assumption. fold (prepared_length prepared).
    replace (transformFrameIndex m + prepared_length prepared)
      with (transformFrameIndex m + 1 * prepared_length prepared) by lia.
    rewrite Z_mod_plus_full. apply Z.mod_small. lia.
  - rewrite iterate_previous by assumption. fold (prepared_length prepared).
    replace (transformFrameIndex m - prepared_length prepared)
      with (transformFrameIndex m + (-1) * prepared_length prepared) by lia.
    rewrite Z_mod_plus_full. apply Z.mod_small. lia.
  - destruct (step_from_selected bbox prepared 1 m Hne (or_introl eq_refl) Hi) as [H1 _].
    destruct (step_from_selected bbox prepared (-1)
                (stepTransformFrame bbox prepared 1 m) Hne (or_intror eq_refl)) as [-> _].
    + rewrite H1. apply cyclic_step_range; [assumption|assumption|now left].
    + rewrite H1. unfold cyclic_step.
      change (1 =? 1) with true; change (-1 =? 1) with false; cbn iota.
      set (n := prepared_length prepared) in *.
      replace ((transformFrameIndex m + 1) mod n - 1 + n)
        with ((transformFrameIndex m + 1) mod n + (n - 1)) by lia.
      rewrite Z.add_mod_idemp_l by lia.
      replace (transformFrameIndex m + 1 + (n - 1))
        with (transformFrameIndex m + 1 * n) by lia.
      rewrite Z_mod_plus_full. apply Z.mod_small. lia.
  - destruct (step_from_selected bbox prepared (-1) m Hne (or_intror eq_refl) Hi) as [H1 _].
    destruct (step_from_selected bbox prepared 1
                (stepTransformFrame bbox prepared (-1) m) Hne (or_introl eq_refl)) as [-> _].
    + rewrite H1. apply cyclic_step_range; [assumption|assumption|now right].
    + rewrite H1. unfold cyclic_step.
      change (1 =? 1) with true; change (-1 =? 1) with false; cbn iota.
      set (n := prepared_length prepared) in *.
      rewrite Z.add_mod_idemp_l by lia.
      replace (transformFrameIndex m - 1 + n + 1)
        with (transformFrameIndex m + 1 * n) by lia.
      rewrite Z_mod_plus_full. apply Z.mod_small. lia.
Qed.

(** X5 at work on the sample host: five next requests from the second of
    three frames select the first, and three come back to the second. *)
Lemma stepping_sample :
  transformFrameIndex
    (Nat.iter 5 (stepTransformFrame (host := sample_host) unit_bbox three_candidates 1)
              (manager_with origin_camera 1)) = 0
  /\ transformFrameIndex
       (Nat.iter 3 (stepTransformFrame (host := sample_host) unit_bbox three_candidates 1)
                 (manager_with origin_camera 1)) = 1.
Proof.
  assert (Hne : three_candidates <> []) by discriminate.
  assert (Hi : 0 <= transformFrameIndex (manager_with (host := sample_host) origin_camera 1)
               < prepared_length three_candidates) by (vm_compute; split; [discriminate|reflexivity]).
  split.
  - exact (proj1 (stepping_is_addition_modulo_the_count sample_host unit_bbox
                    three_candidates (manager_with origin_camera 1) 5 Hne Hi)).
  - exact (proj1 (proj2 (proj2 (stepping_is_addition_modulo_the_count sample_host unit_bbox
                    three_candidates (manager_with origin_camera 1) 0 Hne Hi)))).
Defined.

(** ** What the observers of [transformFrame:selected] know *)

Lemma last_announced_matcher l :
  last_announced (l ++ [MatcherInvoked]) = last_announced l.
Proof.
  unfold last_announced. rewrite fired_indices_app. cbn [fired_indices].
  now rewrite app_nil_r.
Qed.

Lemma last_announced_fired l sel :
  last_announced (l ++ [Fired sel]) = index sel.
Proof.
  unfold last_announced. rewrite fired_indices_app. cbn [fired_indices].
  apply last_last.
Qed.

Lemma fired_indices_in_range n l :
  Forall (selection_in_range n) l -> Forall (fun i => 0 <= i < n) (fired_indices l).
Proof.
  induction 1 as [|[|sel] l He Hl IH]; cbn [fired_indices]; [constructor|assumption|].
  constructor; [apply He|assumption].
Qed.

Lemma last_in {A : Type} (l : list A) (d : A) : l <> [] -> In (last l d) l.
Proof.
  induction l as [|a [|b l] IH]; intros H; [congruence|now left|].
  right. apply IH. discriminate.
Qed.

Section AnnouncedFacts.
Context {host : Host}.
Variable bbox : BoundingBox.
Variable prepared : list Prepared.t.
Variable frameCamera : Camera.
Variable resetCamera : Camera.

(** The last announced index is the selected one. *)
Let announced (m : Manager) : Prop := last_announced (trace m) = transformFrameIndex m.

Lemma announced_same (m m' : Manager) :
  transformFrameIndex m' = transformFrameIndex m -> trace m' = trace m ->
  announced m -> announced m'.
Proof. unfold announced. now intros -> ->. Qed.

Lemma goto_announced i (m : Manager) :
  0 <= i < prepared_length prepared ->
  announced (gotoTransformFrameIndex prepared i m).
Proof.
  intros Hr. destruct (goto_in_range prepared i m Hr) as (Hidx & _ & p & _ & Htr).
  unfold announced. rewrite Hidx, Htr. apply last_announced_fired.
Qed.

Lemma goto_keeps_announced i (m : Manager) :
  announced m -> announced (gotoTransformFrameIndex prepared i m).
Proof.
  intros H.
  destruct (Z.le_gt_cases 0 i) as [H0|H0];
    [destruct (Z.lt_ge_cases i (prepared_length prepared)) as [Hn|Hn]|];
    try (rewrite goto_out_of_range by lia; assumption).
  now apply goto_announced.
Qed.

Lemma pickNearest_announced (m : Manager) :
  announced m ->
  announced (snd (pickNearestFrameForCurrentView bbox prepared true m)).
Proof.
  intros H. unfold announced.
  destruct (pickNearest_index bbox prepared true m) as [(_ & Hidx & Hm)|(Hr & Hidx)].
  - rewrite Hidx, Hm. cbn [trace emit]. now rewrite last_announced_matcher.
  - rewrite Hidx. unfold last_announced.
    rewrite (pickNearest_fires bbox prepared m) by lia. apply last_last.
Qed.

Lemma step_announced step (m : Manager) :
  step = 1 \/ step = -1 ->
  announced m -> announced (stepTransformFrame bbox prepared step m).
Proof.
  intros Hstep H. unfold stepTransformFrame.
  destruct (Z.eqb_spec (prepared_length prepared) 0) as [Hz|Hz]; [assumption|].
  assert (Hn : 0 < prepared_length prepared) by (unfold prepared_length in *; lia).
  assert (Hadv : forall m1 : Manager, 0 <= transformFrameIndex m1 ->
             announced
               (gotoTransformFrameIndex prepared
                  (transformFrameIndex
                     (set_transformFrameIndex
                        (Z.rem (transformFrameIndex m1 + step + prepared_length prepared)
                               (prepared_length prepared)) m1))
                  (set_transformFrameIndex
                     (Z.rem (transformFrameIndex m1 + step + prepared_length prepared)
                            (prepared_length prepared)) m1))).
  { intros m1 Hr. apply goto_announced.
    cbn [transformFrameIndex set_transformFrameIndex].
    apply Z.rem_bound_pos; lia. }
  destruct (Z.ltb_spec (transformFrameIndex m) 0) as [Hneg|Hpos].
  - pose proof (pickNearest_announced m H) as H1.
    destruct (pickNearest_index bbox prepared true m) as [(Hk & _)|(Hr & Hidx)];
      destruct (pickNearestFrameForCurrentView bbox prepared true m) as [k m1];
      cbn [fst snd] in *.
    + subst k. exact H1.
    + replace (k <? 0) with false by (symmetry; apply Z.ltb_ge; lia).
      apply Hadv. lia.
  - now apply Hadv.
Qed.

Lemma on_inputEvent_announced ev (m : Manager) :
  announced m -> announced (on_inputEvent bbox prepared frameCamera resetCamera ev m).
Proof.
  intros H. destruct ev; cbn [on_inputEvent].
  - now apply (announced_same m).
  - now apply (announced_same m).
  - destruct (hasAnimation (state m)); [|assumption].
    destruct (CameraMode_eqb _ _); now apply (announced_same m).
  - destruct (CameraMode_eqb _ _); [now apply (announced_same m)|assumption].
  - destruct (CameraMode_eqb _ _); [now apply (announced_same m)|assumption].
  - apply step_announced; [now right|assumption].
  - apply step_announced; [now left|assumption].
  - destruct (pickNearest_index bbox prepared false m) as [(Hk & _ & Hm)|(Hr & _)];
      destruct (pickNearestFrameForCurrentView bbox prepared false m) as [k m1];
      cbn [fst snd] in *.
    + subst k m1. cbn [Z.geb Z.compare].
      unfold announced. cbn [trace emit transformFrameIndex].
      now rewrite last_announced_matcher.
    + replace (k >=? 0) with true by (symmetry; rewrite Z.geb_leb; apply Z.leb_le; lia).
      now apply goto_announced.
  - destruct (transformFrameIndex m >=? 0); [now apply goto_keeps_announced|assumption].
Qed.

Lemma update_announced deltaTime inputFrame (m : Manager) :
  announced m -> announced (final (update bbox prepared deltaTime inputFrame m)).
Proof.
  intros Hinv. unfold update.
  cbn [set_transitionTimer set_transition controllers state].
  destruct (getController (controllers m) (cameraMode (state m))) as [controller|];
    [|now apply (announced_same m)].
  destruct (Controller_update controller _ inputFrame _) as [controller1 target1].
  match goal with |- context [blend ?x] => set (m0 := x) end.
  set (m1 := blend m0).
  set (m2 := if CameraMode_eqb (cameraMode (state m1)) anim
             then set_animationTime (Anim_cursor_value controller1) m1 else m1).
  assert (H2 : announced m2).
  { assert (H1 : announced m1).
    { subst m1. unfold blend. destruct (_ <? 1)%float; now apply (announced_same m). }
    subst m2. destruct (CameraMode_eqb (cameraMode (state m1)) anim);
      [now apply (announced_same m1)|assumption]. }
  destruct (settle_step _ deltaTime _ _) as [[w t] r].
  match goal with |- context [if r then snd (pickNearestFrameForCurrentView _ _ _ ?x) else _] =>
    set (m3 := x) end.
  assert (H3 : announced m3) by now apply (announced_same m2).
  set (m4 := if r then snd (pickNearestFrameForCurrentView bbox prepared true m3) else m3).
  assert (H4 : announced m4).
  { subst m4. destruct r; [now apply pickNearest_announced|assumption]. }
  cbn [final]. now apply (announced_same m4).
Qed.

Lemma dispatch_announced (r : Request) (m : Manager) :
  announced m ->
  announced (final (dispatch bbox prepared frameCamera resetCamera r m)).
Proof.
  intros Hinv. destruct r as [dt fr|ev|value prev|time|p|p t f]; cbn [dispatch].
  - now apply update_announced.
  - cbn [final]. now apply on_inputEvent_announced.
  - unfold on_cameraMode_changed.
    destruct (getController _ prev) as [pc|]; [|now apply (announced_same m)].
    destruct (getController _ value) as [nc|]; now apply (announced_same m).
  - unfold on_scrubAnim.
    destruct (anim_controller _) as [a|]; now apply (announced_same m).
  - now apply (announced_same m).
  - now apply (announced_same m).
Qed.

Lemma run_announced (requests : list Request) : forall m : Manager,
  last_announced (trace m) = transformFrameIndex m ->
  last_announced (trace (run bbox prepared frameCamera resetCamera requests m))
  = transformFrameIndex (run bbox prepared frameCamera resetCamera requests m).
Proof.
  unfold run. induction requests as [|r requests IH]; intros m Hinv; cbn [fold_left].
  - assumption.
  - apply IH. now apply dispatch_announced.
Qed.

End AnnouncedFacts.

(** X6.  The listeners of [transformFrame:selected] are never out of date:
    from the state the constructor leaves, after any sequence of updates and
    events, the index carried by the last selection fired is the selected
    index of the manager, and no selection has been fired exactly when the
    selected index is still -1. *)
Theorem last_announced_selection_is_current :
  forall (host : Host) (g0 : GlobalState) (settings : Settings) (bbox : BoundingBox)
         (prepared : list Prepared.t) (requests : list Request),
    let m := run bbox prepared (constructor_frameCamera settings bbox)
                 (constructor_resetCamera settings) requests
                 (constructor g0 settings bbox) in
    last_announced (trace m) = transformFrameIndex m
    /\ (fired_indices (trace m) = [] <-> transformFrameIndex m = -1).
Proof.
  intros host g0 settings bbox prepared requests. cbn zeta.
  set (m := run _ _ _ _ _ _).
  assert (Hsync : last_announced (trace m) = transformFrameIndex m).
  { apply run_announced. reflexivity. }
  split; [assumption|].
  assert (Hinit : selection_invariant prepared (constructor g0 settings bbox)).
  { split; [now left|constructor]. }
  destruct (run_invariant bbox prepared (constructor_frameCamera settings bbox)
              (constructor_resetCamera settings) requests _ Hinit) as [_ Ht].
  fold m in Ht. apply fired_indices_in_range in Ht.
  unfold last_announced in Hsync. split.
  - intros E. now rewrite E in Hsync.
  - intros E. destruct (fired_indices (trace m)) as [|a l] eqn:Ef; [reflexivity|].
    assert (Hin : In (last (a :: l) (-1)) (a :: l)) by (apply last_in; discriminate).
    rewrite Forall_forall in Ht. apply Ht in Hin. lia.
Qed.

(** ** What the handlers leave alone *)

Section HandlerFacts.
Context {host : Host}.
Variable bbox : BoundingBox.
Variable prepared : list Prepared.t.
Variable frameCamera : Camera.
Variable resetCamera : Camera.

Lemma left_alone_refl (m : Manager) : left_alone m m.
Proof. unfold left_alone. repeat split. now left. Qed.

Lemma left_alone_trans (m1 m2 m3 : Manager) :
  left_alone m1 m2 -> left_alone m2 m3 -> left_alone m1 m3.
Proof.
  unfold left_alone. intros (Hc & Ha & Hh & Hm) (Hc' & Ha' & Hh' & Hm').
  rewrite Hc', Hc, Ha', Ha, Hh', Hh. repeat split.
  destruct Hm' as [Hm'|Hm']; [|now right]. rewrite Hm'. exact Hm.
Qed.

Lemma left_alone_fields (m m' : Manager) :
  this_camera m' = this_camera m -> controllers m' = controllers m ->
  state m' = state m -> left_alone m m'.
Proof.
  intros Hc Hk Hs. unfold left_alone, anim_present. rewrite Hc, Hk, Hs.
  repeat split. now left.
Qed.

Lemma emitSelected_left_alone (m : Manager) :
  left_alone m (emitSelectedTransformFrame prepared m).
Proof.
  destruct (emitSelected_frame prepared m) as (Hs & Hc & _ & Hk & _).
  now apply left_alone_fields.
Qed.

Lemma pickNearest_left_alone e (m : Manager) :
  left_alone m (snd (pickNearestFrameForCurrentView bbox prepared e m)).
Proof.
  destruct (pickNearest_frame bbox prepared e m) as (Hs & Hc & _ & Hk & _).
  now apply left_alone_fields.
Qed.

Lemma goto_left_alone i (m : Manager) :
  left_alone m (gotoTransformFrameIndex prepared i m).
Proof.
  unfold gotoTransformFrameIndex.
  destruct (_ || _); [apply left_alone_refl|].
  destruct (prepared_at _ _) as [p|]; [|apply left_alone_fields; reflexivity].
  match goal with |- context [emitSelectedTransformFrame prepared ?x] => set (m1 := x) end.
  apply (left_alone_trans m m1); [|apply emitSelected_left_alone].
  unfold left_alone. repeat split. now right.
Qed.

Lemma step_left_alone step (m : Manager) :
  left_alone m (stepTransformFrame bbox prepared step m).
Proof.
  unfold stepTransformFrame.
  destruct (_ =? 0); [apply left_alone_refl|].
  assert (Hadv : forall m1 : Manager, left_alone m m1 ->
            left_alone m
              (gotoTransformFrameIndex prepared
                 (transformFrameIndex
                    (set_transformFrameIndex
                       (Z.rem (transformFrameIndex m1 + step + prepared_length prepared)
                              (prepared_length prepared)) m1))
                 (set_transformFrameIndex
                    (Z.rem (transformFrameIndex m1 + step + prepared_length prepared)
                           (prepared_length prepared)) m1))).
  { intros m1 H1. apply (left_alone_trans m m1); [assumption|].
    match goal with |- left_alone _ (gotoTransformFrameIndex _ _ ?x) =>
      apply (left_alone_trans m1 x) end;
      [apply left_alone_fields; reflexivity|apply goto_left_alone]. }
  destruct (transformFrameIndex m <? 0).
  - pose proof (pickNearest_left_alone true m) as H1.
    destruct (pickNearestFrameForCurrentView bbox prepared true m) as [k m1].
    cbn [snd] in H1. destruct (k <? 0); [assumption|now apply Hadv].
  - apply Hadv, left_alone_refl.
Qed.

Lemma on_inputEvent_left_alone ev (m : Manager) :
  this_camera (on_inputEvent bbox prepared frameCamera resetCamera ev m) = this_camera m
  /\ anim_present (on_inputEvent bbox prepared frameCamera resetCamera ev m)
     = anim_present m
  /\ hasAnimation (state (on_inputEvent bbox prepared frameCamera resetCamera ev m))
     = hasAnimation (state m).
Proof.
  destruct ev; cbn [on_inputEvent];
    try (repeat split; reflexivity).
  - destruct (hasAnimation (state m)) eqn:E; [|now repeat split].
    destruct (CameraMode_eqb _ _); repeat split; cbn; now rewrite ?E.
  - destruct (CameraMode_eqb _ _); now repeat split.
  - destruct (CameraMode_eqb _ _); now repeat split.
  - destruct (step_left_alone (-1) m) as (H1 & H2 & H3 & _). now repeat split.
  - destruct (step_left_alone 1 m) as (H1 & H2 & H3 & _). now repeat split.
  - pose proof (pickNearest_left_alone false m) as H1.
    destruct (pickNearestFrameForCurrentView bbox prepared false m) as [k m1].
    cbn [snd] in H1.
    assert (H : left_alone m (if k >=? 0 then gotoTransformFrameIndex prepared k m1 else m1)).
    { destruct (k >=? 0); [|assumption].
      apply (left_alone_trans m m1); [assumption|apply goto_left_alone]. }
    destruct H as (H2 & H3 & H4 & _). now repeat split.
  - assert (H : left_alone m (if transformFrameIndex m >=? 0
                              then gotoTransformFrameIndex prepared (transformFrameIndex m) m
                              else m)).
    { destruct (_ >=? 0); [apply goto_left_alone|apply left_alone_refl]. }
    destruct H as (H2 & H3 & H4 & _). now repeat split.
Qed.

(** An event handler leaves the presence of the anim controller and the
    animation flag as they were, and the displayed pose as well unless it is
    the mode-change handler, which hands the camera to the controllers. *)
Lemma event_left_alone (r : Request) (m : Manager) :
  is_update r = false ->
  let m' := final (dispatch bbox prepared frameCamera resetCamera r m) in
  (is_mode_change r = false -> this_camera m' = this_camera m)
  /\ anim_present m' = anim_present m
  /\ hasAnimation (state m') = hasAnimation (state m).
Proof.
  intros Hr. cbn zeta.
  destruct r as [dt fr|ev|value prev|time|p|p t f]; cbn [dispatch final];
    [discriminate| | | | |].
  - destruct (on_inputEvent_left_alone ev m) as (H1 & H2 & H3). now repeat split.
  - unfold on_cameraMode_changed.
    destruct (getController _ prev) as [pc|] eqn:Ep;
      [|split; [discriminate|now split]].
    cbv zeta.
    match goal with
    | |- context [match ?g with Some _ => _ | None => _ end] =>
        destruct g as [nc|] eqn:En
    end; cbn [final]; (split; [discriminate|]); split; try reflexivity.
    + unfold anim_present. cbn [controllers set_controllers set_this_camera].
      destruct value, prev; cbn in Ep, En |- *;
        try reflexivity; try (now rewrite En); try (now rewrite Ep).
    + unfold anim_present. cbn [controllers set_controllers set_this_camera].
      destruct prev; cbn in Ep |- *; try reflexivity; now rewrite Ep.
  - unfold on_scrubAnim.
    destruct (anim_controller _) as [a|] eqn:E; cbn [final]; repeat split.
    + unfold anim_present. cbn in E |- *. now rewrite E.
  - repeat split.
  - repeat split.
Qed.

(** The per-frame update leaves the mode, the presence of the anim
    controller and the animation flag as they were. *)
Lemma update_keeps_mode deltaTime inputFrame (m : Manager) :
  let m' := final (update bbox prepared deltaTime inputFrame m) in
  cameraMode (state m') = cameraMode (state m)
  /\ anim_present m' = anim_present m
  /\ hasAnimation (state m') = hasAnimation (state m).
Proof.
  cbn zeta. unfold update.
  cbn [set_transitionTimer set_transition controllers state].
  destruct (getController (controllers m) (cameraMode (state m))) as [controller|] eqn:Eg;
    [|now repeat split].
  destruct (Controller_update controller _ inputFrame _) as [controller1 target1].
  match goal with |- context [blend ?x] => set (m0 := x) end.
  assert (H0 : state m0 = state m /\ anim_present m0 = anim_present m).
  { split; [reflexivity|]. unfold anim_present. subst m0.
    cbn [controllers set_target set_transition set_controllers].
    destruct (cameraMode (state m)); cbn in Eg |- *; try reflexivity. now rewrite Eg. }
  set (m1 := blend m0).
  assert (H1 : state m1 = state m /\ anim_present m1 = anim_present m).
  { destruct H0 as [Hs Ha]. rewrite <- Hs, <- Ha. subst m1. unfold blend, anim_present.
    now destruct (_ <? 1)%float. }
  set (m2 := if CameraMode_eqb (cameraMode (state m1)) anim
             then set_animationTime (Anim_cursor_value controller1) m1 else m1).
  assert (H2 : cameraMode (state m2) = cameraMode (state m)
               /\ anim_present m2 = anim_present m
               /\ hasAnimation (state m2) = hasAnimation (state m)).
  { destruct H1 as [Hs Ha]. rewrite <- Hs, <- Ha. subst m2.
    now destruct (CameraMode_eqb (cameraMode (state m1)) anim). }
  destruct (settle_step _ deltaTime _ _) as [[w t] r].
  match goal with |- context [if r then snd (pickNearestFrameForCurrentView _ _ _ ?x) else _] =>
    set (m3 := x) end.
  set (m4 := if r then snd (pickNearestFrameForCurrentView bbox prepared true m3) else m3).
  assert (H4 : state m4 = state m2 /\ controllers m4 = controllers m2).
  { subst m4. destruct r; [|now split].
    destruct (pickNearest_frame bbox prepared true m3) as (Hs & _ & _ & Hk & _).
    now split. }
  destruct H4 as [Hs4 Hk4]. destruct H2 as (Hm & Ha & Hh).
  cbn [final state set_settle]. unfold anim_present in *.
  cbn [controllers set_settle]. rewrite Hs4, Hk4. now repeat split.
Qed.

Lemma update_returns deltaTime inputFrame (m : Manager) :
  (cameraMode (state m) = anim -> anim_present m = true) ->
  exists m', update bbox prepared deltaTime inputFrame m = Returned m'.
Proof.
  intros H. unfold update.
  cbn [set_transitionTimer set_transition controllers state].
  destruct (getController (controllers m) (cameraMode (state m))) as [controller|] eqn:Eg.
  - destruct (Controller_update controller _ inputFrame _) as [controller1 target1].
    destruct (settle_step _ deltaTime _ _) as [[w t] r]. now eexists.
  - destruct (cameraMode (state m)); cbn in Eg; try discriminate.
    specialize (H eq_refl). unfold anim_present in H. now rewrite Eg in H.
Qed.

Lemma update_throws deltaTime inputFrame (m : Manager) :
  cameraMode (state m) = anim -> anim_controller (controllers m) = None ->
  update bbox prepared deltaTime inputFrame m
  = TypeError (set_transitionTimer
                 (Math_min 1 (transitionTimer (transition m)
                              + deltaTime * transitionSpeed)%float) m).
Proof.
  intros Hm Hk. unfold update.
  cbn [set_transitionTimer set_transition controllers state].
  now rewrite Hm; cbn [getController]; rewrite Hk.
Qed.

(** The mode becomes [anim] only through a scrub, or through play/pause
    with the animation flag up. *)
Lemma mode_anim_origin (r : Request) (m : Manager) :
  is_scrub r = false ->
  cameraMode (state (final (dispatch bbox prepared frameCamera resetCamera r m))) = anim ->
  cameraMode (state m) = anim \/ hasAnimation (state m) = true.
Proof.
  intros Hr. destruct r as [dt fr|ev|value prev|time|p|p t f]; cbn [dispatch final];
    [ | | | discriminate | | ].
  - destruct (update_keeps_mode dt fr m) as (-> & _). now left.
  - destruct ev; cbn [on_inputEvent]; try (cbn; discriminate).
    + destruct (hasAnimation (state m)); [now right|now left].
    + destruct (CameraMode_eqb (cameraMode (state m)) anim) eqn:E; [|now left].
      destruct (cameraMode (state m)); try discriminate. now left.
    + destruct (CameraMode_eqb (cameraMode (state m)) anim) eqn:E; [|now left].
      destruct (cameraMode (state m)); try discriminate. now left.
    + destruct (step_left_alone (-1) m) as (_ & _ & _ & [->| ->]); [now left|discriminate].
    + destruct (step_left_alone 1 m) as (_ & _ & _ & [->| ->]); [now left|discriminate].
    + pose proof (pickNearest_left_alone false m) as H1.
      destruct (pickNearestFrameForCurrentView bbox prepared false m) as [k m1].
      cbn [snd] in H1.
      assert (H : left_alone m (if k >=? 0 then gotoTransformFrameIndex prepared k m1 else m1)).
      { destruct (k >=? 0); [|assumption].
        apply (left_alone_trans m m1); [assumption|apply goto_left_alone]. }
      destruct H as (_ & _ & _ & [->| ->]); [now left|discriminate].
    + assert (H : left_alone m (if transformFrameIndex m >=? 0
                                then gotoTransformFrameIndex prepared (transformFrameIndex m) m
                                else m)).
      { destruct (_ >=? 0); [apply goto_left_alone|apply left_alone_refl]. }
      destruct H as (_ & _ & _ & [->| ->]); [now left|discriminate].
  - unfold on_cameraMode_changed.
    destruct (getController _ prev) as [pc|]; [|now left].
    destruct (getController _ value) as [nc|]; now left.
  - cbn. discriminate.
  - cbn. discriminate.
Qed.

Lemma dispatch_anim_present (r : Request) (m : Manager) :
  let m' := final (dispatch bbox prepared frameCamera resetCamera r m) in
  anim_present m' = anim_present m /\ hasAnimation (state m') = hasAnimation (state m).
Proof.
  cbn zeta. destruct (is_update r) eqn:E.
  - destruct r; try discriminate. cbn [dispatch].
    now destruct (update_keeps_mode deltaTime0 inputFrame m) as (_ & H1 & H2).
  - now destruct (event_left_alone r m E) as (_ & H1 & H2).
Qed.

Lemma dispatch_anim_guarded (r : Request) (m : Manager) :
  is_scrub r = false -> anim_guarded m ->
  anim_guarded (final (dispatch bbox prepared frameCamera resetCamera r m)).
Proof.
  intros Hr [Hmode Hflag]. destruct (dispatch_anim_present r m) as [Ha Hh].
  split; rewrite Ha.
  - intros Hm. destruct (mode_anim_origin r m Hr Hm); auto.
  - rewrite Hh. assumption.
Qed.

Lemma run_anim_guarded (requests : list Request) : forall m : Manager,
  forallb (fun r => negb (is_scrub r)) requests = true -> anim_guarded m ->
  anim_guarded (run bbox prepared frameCamera resetCamera requests m).
Proof.
  unfold run. induction requests as [|r requests IH]; intros m Hfree Hg; cbn [fold_left].
  - assumption.
  - cbn [forallb] in Hfree. apply andb_true_iff in Hfree as [Hr Hfree].
    apply IH; [assumption|]. apply dispatch_anim_guarded; [|assumption].
    now destruct (is_scrub r).
Qed.

Lemma run_anim_present (requests : list Request) : forall m : Manager,
  anim_present (run bbox prepared frameCamera resetCamera requests m) = anim_present m.
Proof.
  unfold run. induction requests as [|r requests IH]; intros m; cbn [fold_left].
  - reflexivity.
  - rewrite IH. apply dispatch_anim_present.
Qed.

End HandlerFacts.

(** X7.  The manager itself moves the displayed camera only in the
    per-frame update, and only events change the mode: a sequence of events
    other than mode changes (frame, reset, play/pause, cancel, dataset
    navigation, scrub, pick, annotation), even when handlers throw, leaves
    [this.camera] as it was, and a sequence of updates leaves
    [state.cameraMode] as it was.  The mode-change handler is left out of
    the first part: it hands [this.camera] to the controllers' [onExit] and
    [onEnter]. *)
Theorem events_leave_the_pose_and_updates_leave_the_mode :
  forall (host : Host) (bbox : BoundingBox) (prepared : list Prepared.t)
         (frameCamera resetCamera : Camera) (requests : list Request) (m : Manager),
    (forallb (fun r => negb (is_update r) && negb (is_mode_change r)) requests = true ->
     this_camera (run bbox prepared frameCamera resetCamera requests m) = this_camera m)
    /\
    (forallb is_update requests = true ->
     cameraMode (state (run bbox prepared frameCamera resetCamera requests m))
     = cameraMode (state m)).
Proof.
  intros host bbox prepared frameCamera resetCamera requests. unfold run.
  induction requests as [|r requests IH]; intros m; cbn [fold_left forallb];
    [now split|].
  destruct (IH (final (dispatch bbox prepared frameCamera resetCamera r m))) as [IH1 IH2].
  split; intros H; apply andb_true_iff in H as [Hr Hrest].
  - rewrite IH1 by assumption. apply andb_true_iff in Hr as [Hu Hc].
    apply (event_left_alone bbox prepared frameCamera resetCamera r m).
    + now destruct (is_update r).
    + now destruct (is_mode_change r).
  - rewrite IH2 by assumption. destruct r; try discriminate. cbn [dispatch].
    apply update_keeps_mode.
Qed.

(** X7 at work on the sample host: a frame request, a pick and a next-frame
    request leave the displayed pose where it was; two updates leave the
    mode where it was. *)
Lemma events_and_updates_sample :
  this_camera
    (run (host := sample_host) unit_bbox three_candidates origin_camera origin_camera
         [InputEvent ev_frame; Pick (Vec3.mk 1 0 0); InputEvent ev_nextTransformFrame]
         plain_manager)
  = this_camera plain_manager
  /\
  cameraMode
    (state (run (host := sample_host) unit_bbox three_candidates origin_camera origin_camera
                [@Update sample_host 0.25%float tt; @Update sample_host 0.25%float tt]
                plain_manager))
  = cameraMode (state plain_manager).
Proof.
  split.
  - apply (proj1 (events_leave_the_pose_and_updates_leave_the_mode sample_host unit_bbox
                    three_candidates origin_camera origin_camera
                    [InputEvent ev_frame; Pick (Vec3.mk 1 0 0);
                     InputEvent ev_nextTransformFrame] plain_manager)).
    reflexivity.
  - apply (proj2 (events_leave_the_pose_and_updates_leave_the_mode sample_host unit_bbox
                    three_candidates origin_camera origin_camera
                    [@Update sample_host 0.25%float tt; @Update sample_host 0.25%float tt]
                    plain_manager)).
    reflexivity.
Defined.

(** X8.  The per-frame update does not throw as long as only the manager
    writes the mode and no scrub was requested without an animation: from
    the state the constructor leaves, after any sequence of requests that
    has no scrub in it, or any sequence at all when the constructor
    resolved an animation track, the controller of the current mode exists
    and [update] returns. *)
Theorem update_returns_unless_scrubbed_without_animation :
  forall (host : Host) (g0 : GlobalState) (settings : Settings) (bbox : BoundingBox)
         (prepared : list Prepared.t) (requests : list Request)
         (deltaTime : float) (inputFrame : InputFrame),
    hasAnimation (state (constructor g0 settings bbox)) = true
    \/ forallb (fun r => negb (is_scrub r)) requests = true ->
    let m := run bbox prepared (constructor_frameCamera settings bbox)
                 (constructor_resetCamera settings) requests
                 (constructor g0 settings bbox) in
    getController (controllers m) (cameraMode (state m)) <> None
    /\ exists m', update bbox prepared deltaTime inputFrame m = Returned m'.
Proof.
  intros host g0 settings bbox prepared requests deltaTime inputFrame H. cbn zeta.
  set (m := run _ _ _ _ _ _).
  assert (Hinit : hasAnimation (state (constructor g0 settings bbox))
                  = anim_present (constructor g0 settings bbox)
                  /\ anim_guarded (constructor g0 settings bbox)).
  { unfold anim_guarded, anim_present. rewrite constructor_controllers_anim.
    unfold constructor. cbn [state hasAnimation cameraMode anim_controller].
    destruct (constructor_animTrack settings bbox); cbn; repeat split; try discriminate.
    destruct (isObjectExperience settings bbox); discriminate. }
  destruct Hinit as [Hflag Hguard].
  assert (Hm : cameraMode (state m) = anim -> anim_present m = true).
  { destruct H as [Hhas|Hfree].
    - intros _. unfold m. rewrite run_anim_present, <- Hflag. exact Hhas.
    - apply (run_anim_guarded bbox prepared _ _ requests _ Hfree Hguard). }
  split; [|now apply update_returns].
  destruct (cameraMode (state m)) eqn:E; cbn [getController]; try discriminate.
  specialize (Hm eq_refl). unfold anim_present in Hm.
  destruct (anim_controller (controllers m)); [discriminate|discriminate].
Qed.

(** X8 at work on the sample host: after a frame request and a cancel on
    the manager built without a track, the update returns. *)
Lemma update_returns_sample :
  exists m',
    update (host := sample_host) unit_bbox three_candidates 0.25%float tt
      (run (host := sample_host) unit_bbox three_candidates
           (constructor_frameCamera plain_settings unit_bbox)
           (constructor_resetCamera plain_settings)
           [InputEvent ev_frame; InputEvent ev_cancel]
           (constructor (host := sample_host) plain_global plain_settings unit_bbox))
    = Returned m'.
Proof.
  exact (proj2 (update_returns_unless_scrubbed_without_animation sample_host plain_global
                  plain_settings unit_bbox three_candidates
                  [InputEvent ev_frame; InputEvent ev_cancel] 0.25%float tt
                  (or_intror eq_refl))).
Defined.

(** X9.  Once the mode is [anim] with no anim controller (where a scrub
    without an animation leaves the manager), every update throws before it
    reaches the controller: however many updates follow, the displayed
    pose, the mode, the selection and the events fired stay as they were,
    and the next update throws again. *)
Theorem updates_throw_while_the_anim_controller_is_missing :
  forall (host : Host) (bbox : BoundingBox) (prepared : list Prepared.t)
         (frameCamera resetCamera : Camera)
         (frames : list (float * InputFrame)) (m : Manager),
    cameraMode (state m) = anim ->
    anim_controller (controllers m) = None ->
    let m' := run bbox prepared frameCamera resetCamera
                  (map (fun f => Update (fst f) (snd f)) frames) m in
    this_camera m' = this_camera m
    /\ state m' = state m
    /\ controllers m' = controllers m
    /\ transformFrameIndex m' = transformFrameIndex m
    /\ trace m' = trace m
    /\ forall deltaTime inputFrame,
         exists m'', update bbox prepared deltaTime inputFrame m' = TypeError m''.
Proof.
  intros host bbox prepared frameCamera resetCamera frames. unfold run.
  induction frames as [|[dt fr] frames IH]; intros m Hm Hk; cbn [map fold_left fst snd].
  - repeat split. intros deltaTime inputFrame.
    rewrite update_throws by assumption. now eexists.
  - cbn [dispatch]. rewrite update_throws by assumption. cbn [final].
    match goal with |- context [fold_left _ _ ?x] => set (m1 := x) end.
    destruct (IH m1 Hm Hk) as (H1 & H2 & H3 & H4 & H5 & H6).
    rewrite H1, H2, H3, H4, H5. repeat split. exact H6.
Qed.

(** X9 at work on the sample host: the manager built without a track,
    after a scrub, stays where it is through two updates. *)
Lemma updates_throw_sample :
  this_camera
    (run (host := sample_host) unit_bbox three_candidates origin_camera origin_camera
         (map (fun f => Update (fst f) (snd f)) ([(0.25%float, tt); (0.25%float, tt)] : list (float * @InputFrame sample_host)))
         (final (on_scrubAnim (host := sample_host) 0.5 plain_manager)))
  = this_camera plain_manager.
Proof.
  exact (proj1 (updates_throw_while_the_anim_controller_is_missing sample_host unit_bbox
                  three_candidates origin_camera origin_camera
                  ([(0.25%float, tt); (0.25%float, tt)] : list (float * @InputFrame sample_host))
                  (final (on_scrubAnim (host := sample_host) 0.5 plain_manager))
                  eq_refl eq_refl)).
Defined.

(** ** The transition timer *)

Lemma Math_min_one_bound v : (1 <? Math_min 1 v)%float = false.
Proof.
  unfold Math_min. change (is_nan 1) with false. cbn [orb].
  destruct (is_nan v); [reflexivity|].
  destruct (1 <? v)%float eqn:E1; [reflexivity|].
  destruct (v <? 1)%float; [assumption|].
  change (get_sign 1) with false. cbv iota. assumption.
Qed.

Section TransitionFacts.
Context {host : Host}.
Variable bbox : BoundingBox.
Variable prepared : list Prepared.t.
Variable frameCamera : Camera.
Variable resetCamera : Camera.

(** [gotoTransformFrameIndex] on an index in range retargets the orbit
    controller at the camera of the frame there and leaves the displayed
    pose and the transition alone. *)
Lemma goto_retargets i p (m : Manager) :
  0 <= i < prepared_length prepared -> prepared_at prepared i = Some p ->
  let m' := gotoTransformFrameIndex prepared i m in
  controllers m'
  = mkControllers (Controller_goto (orbit_controller (controllers m)) (Prepared.camera p))
                  (fly_controller (controllers m)) (anim_controller (controllers m))
  /\ transition m' = transition m /\ this_camera m' = this_camera m.
Proof.
  intros Hr Hp. cbn zeta. unfold gotoTransformFrameIndex.
  rewrite (guard_in_range prepared i Hr).
  cbn [transformFrameIndex set_transformFrameIndex]. rewrite Hp.
  match goal with |- context [emitSelectedTransformFrame prepared ?x] => set (m1 := x) end.
  destruct (emitSelected_frame prepared m1) as (_ & Hc & _ & Hk & Ht & _).
  rewrite Hc, Hk, Ht. now repeat split.
Qed.

Lemma goto_transition i (m : Manager) :
  transition (gotoTransformFrameIndex prepared i m) = transition m.
Proof.
  destruct (Z.le_gt_cases 0 i) as [H0|H0];
    [destruct (Z.lt_ge_cases i (prepared_length prepared)) as [Hn|Hn]|];
    try (rewrite goto_out_of_range by lia; reflexivity).
  destruct (prepared_at_in_range prepared i (conj H0 Hn)) as (p & Hp).
  now destruct (goto_retargets i p m (conj H0 Hn) Hp) as (_ & Ht & _).
Qed.

Lemma pickNearest_transition e (m : Manager) :
  transition (snd (pickNearestFrameForCurrentView bbox prepared e m)) = transition m.
Proof. now destruct (pickNearest_frame bbox prepared e m) as (_ & _ & _ & _ & Ht & _). Qed.

Lemma step_transition step (m : Manager) :
  transition (stepTransformFrame bbox prepared step m) = transition m.
Proof.
  unfold stepTransformFrame.
  destruct (_ =? 0); [reflexivity|].
  destruct (transformFrameIndex m <? 0).
  - pose proof (pickNearest_transition true m) as H1.
    destruct (pickNearestFrameForCurrentView bbox prepared true m) as [k m1].
    cbn [snd] in H1. destruct (k <? 0); [assumption|].
    now rewrite goto_transition.
  - now rewrite goto_transition.
Qed.

(** Dataset navigation does not touch the transition. *)
Lemma navigation_transition ev (m : Manager) :
  is_navigation ev = true ->
  transition (on_inputEvent bbox prepared frameCamera resetCamera ev m) = transition m.
Proof.
  destruct ev; try discriminate; intros _; cbn [on_inputEvent].
  - apply step_transition.
  - apply step_transition.
  - pose proof (pickNearest_transition false m) as H1.
    destruct (pickNearestFrameForCurrentView bbox prepared false m) as [k m1].
    cbn [snd] in H1. destruct (k >=? 0); [|assumption]. now rewrite goto_transition.
  - destruct (_ >=? 0); [apply goto_transition|reflexivity].
Qed.

Let capped (m : Manager) : Prop := (1 <? transitionTimer (transition m))%float = false.

Lemma on_inputEvent_capped ev (m : Manager) :
  capped m -> capped (on_inputEvent bbox prepared frameCamera resetCamera ev m).
Proof.
  intros H. unfold capped.
  destruct (is_navigation ev) eqn:E; [now rewrite navigation_transition|].
  destruct ev; try discriminate; cbn [on_inputEvent]; try reflexivity.
  - destruct (hasAnimation (state m)); [|assumption].
    destruct (CameraMode_eqb _ _); assumption.
  - destruct (CameraMode_eqb _ _); assumption.
  - destruct (CameraMode_eqb _ _); assumption.
Qed.

Lemma update_capped deltaTime inputFrame (m : Manager) :
  capped (final (update bbox prepared deltaTime inputFrame m)).
Proof.
  unfold capped, update.
  cbn [set_transitionTimer set_transition controllers state].
  destruct (getController (controllers m) (cameraMode (state m))) as [controller|];
    [|apply Math_min_one_bound].
  destruct (Controller_update controller _ inputFrame _) as [controller1 target1].
  match goal with |- context [blend ?x] => set (m0 := x) end.
  assert (H0 : transitionTimer (transition m0)
               = Math_min 1 (transitionTimer (transition m) + deltaTime * transitionSpeed)%float)
    by reflexivity.
  set (m1 := blend m0).
  assert (H1 : transition m1 = transition m0) by apply blend_transition.
  set (m2 := if CameraMode_eqb (cameraMode (state m1)) anim
             then set_animationTime (Anim_cursor_value controller1) m1 else m1).
  assert (H2 : transition m2 = transition m0).
  { rewrite <- H1. subst m2. now destruct (CameraMode_eqb _ _). }
  destruct (settle_step _ deltaTime _ _) as [[w t] r].
  match goal with |- context [if r then snd (pickNearestFrameForCurrentView _ _ _ ?x) else _] =>
    set (m3 := x) end.
  set (m4 := if r then snd (pickNearestFrameForCurrentView bbox prepared true m3) else m3).
  assert (H4 : transition m4 = transition m0).
  { rewrite <- H2. subst m4. destruct r; [now rewrite pickNearest_transition|reflexivity]. }
  cbn [final transition set_settle]. rewrite H4, H0. apply Math_min_one_bound.
Qed.

Lemma dispatch_capped (r : Request) (m : Manager) :
  capped m -> capped (final (dispatch bbox prepared frameCamera resetCamera r m)).
Proof.
  intros H. destruct r as [dt fr|ev|value prev|time|p|p t f]; cbn [dispatch].
  - apply update_capped.
  - cbn [final]. now apply on_inputEvent_capped.
  - unfold on_cameraMode_changed.
    destruct (getController _ prev) as [pc|]; [|reflexivity].
    destruct (getController _ value) as [nc|]; reflexivity.
  - unfold on_scrubAnim. destruct (anim_controller _) as [a|]; exact H.
  - reflexivity.
  - reflexivity.
Qed.

Lemma run_capped (requests : list Request) : forall m : Manager,
  (1 <? transitionTimer (transition m))%float = false ->
  (1 <? transitionTimer
          (transition (run bbox prepared frameCamera resetCamera requests m)))%float = false.
Proof.
  unfold run. induction requests as [|r requests IH]; intros m H; cbn [fold_left].
  - assumption.
  - apply IH. now apply dispatch_capped.
Qed.

End TransitionFacts.

(** X10.  The transition timer never passes 1: from the state the
    constructor leaves (timer 1, no transition in flight), after any
    sequence of updates and events, [1 < transitionTimer] is false; and the
    four dataset-navigation handlers do not touch the transition themselves
    (they neither restart the timer nor take a new snapshot; that is left to
    the [cameraMode:changed] handler, a request of its own). *)
Theorem transition_timer_is_capped :
  forall (host : Host) (g0 : GlobalState) (settings : Settings) (bbox : BoundingBox)
         (prepared : list Prepared.t) (requests : list Request),
    let frameCamera := constructor_frameCamera settings bbox in
    let resetCamera := constructor_resetCamera settings in
    let m := run bbox prepared frameCamera resetCamera requests
                 (constructor g0 settings bbox) in
    transitionTimer (transition (constructor g0 settings bbox)) = 1%float
    /\ (1 <? transitionTimer (transition m))%float = false
    /\ (forall ev, is_navigation ev = true ->
          transition (on_inputEvent bbox prepared frameCamera resetCamera ev m)
          = transition m).
Proof.
  intros host g0 settings bbox prepared requests. cbn zeta.
  split; [reflexivity|]. split.
  - apply run_capped. reflexivity.
  - intros ev Hev. now apply navigation_transition.
Qed.

(** ** Leaving and entering the animation *)

(** X11.  Cancelling the animation returns to the mode the viewer came
    from: with an animation available and the mode [p] not [anim], a
    play/pause request enters [anim] unpaused; the mode-change event it
    raises records [p]; a cancel or an interrupt then puts the mode back to
    [p], whether or not the mode-change handler threw.  Outside [anim] a
    cancel or an interrupt changes nothing. *)
Theorem cancel_returns_to_the_mode_before_the_animation :
  forall (host : Host) (bbox : BoundingBox) (prepared : list Prepared.t)
         (frameCamera resetCamera : Camera) (m : Manager),
    hasAnimation (state m) = true ->
    cameraMode (state m) <> anim ->
    let on ev := on_inputEvent bbox prepared frameCamera resetCamera ev in
    let p := cameraMode (state m) in
    let m1 := on ev_playPause m in
    let m2 := final (on_cameraMode_changed anim p m1) in
    cameraMode (state m1) = anim
    /\ animationPaused (state m1) = false
    /\ cameraMode (state (on ev_cancel m2)) = p
    /\ cameraMode (state (on ev_interrupt m2)) = p
    /\ on ev_cancel m = m /\ on ev_interrupt m = m.
Proof.
  intros host bbox prepared frameCamera resetCamera m Hhas Hmode. cbn zeta.
  cbn [on_inputEvent]. rewrite Hhas.
  assert (E : CameraMode_eqb (cameraMode (state m)) anim = false)
    by (destruct (cameraMode (state m)); [reflexivity|congruence|reflexivity]).
  rewrite E. split; [reflexivity|]. split; [reflexivity|].
  match goal with |- context [on_cameraMode_changed anim ?q ?x] =>
    set (m1 := x); set (m2 := final (on_cameraMode_changed anim q m1)) end.
  assert (H2 : cameraMode (state m2) = anim
               /\ fromMode (transition m2) = cameraMode (state m)).
  { subst m2. unfold on_cameraMode_changed.
    destruct (getController _ (cameraMode (state m))) as [pc|]; [|now split].
    destruct (getController _ anim) as [nc|]; now split. }
  destruct H2 as [Hm2 Hf2]. rewrite Hm2. cbn [CameraMode_eqb].
  cbn [state set_cameraMode set_state cameraMode]. rewrite Hf2. now repeat split.
Qed.

(** X11 at work on the sample host: from [fly] with an animation, play,
    the mode-change event and a cancel lead back to [fly]. *)
Lemma cancel_returns_sample :
  let m := set_state (mkGlobalState fly true 0 false 0) plain_manager in
  cameraMode
    (state (on_inputEvent (host := sample_host) unit_bbox three_candidates
              origin_camera origin_camera ev_cancel
              (final (on_cameraMode_changed anim fly
                        (on_inputEvent (host := sample_host) unit_bbox three_candidates
                           origin_camera origin_camera ev_playPause m)))))
  = fly.
Proof.
  cbn zeta.
  refine (proj1 (proj2 (proj2
            (cancel_returns_to_the_mode_before_the_animation sample_host unit_bbox
               three_candidates origin_camera origin_camera
               (set_state (mkGlobalState fly true 0 false 0) plain_manager)
               eq_refl _)))).
  discriminate.
Defined.

(** ** The nearest-frame request *)

Section NearestFacts.
Context {host : Host}.
Variable bbox : BoundingBox.
Variable prepared : list Prepared.t.

(** The index the scan settles on, when there is one, is that of a frame
    of the dataset that no other frame scores below. *)
Lemma bestIndex_of_minimal cam :
  0 <= bestIndex_of bbox prepared cam ->
  exists p, prepared_at prepared (bestIndex_of bbox prepared cam) = Some p /\
    forall c, In c prepared ->
      (score bbox cam (cameraForwardFromAngles cam) c
       <? score bbox cam (cameraForwardFromAngles cam) p)%float = false.
Proof.
  unfold bestIndex_of. intros H.
  destruct (nearest_loop_spec bbox cam (cameraForwardFromAngles cam) prepared 0 (-1) infinity)
    as [(Hi & _)|(k & c & Hi & Hn & _ & _ & Hmin & _)].
  - rewrite Hi in H. lia.
  - exists c. rewrite Hi. split; [|exact Hmin].
    unfold prepared_at. cbn [Z.add].
    replace (Z.of_nat k <? 0) with false by (symmetry; apply Z.ltb_ge; lia).
    now rewrite Nat2Z.id.
Qed.

End NearestFacts.

(** X12.  The go-to-nearest request, end to end.  When the scan finds a
    frame, that frame is one no other frame of the dataset scores below for
    the displayed pose; it becomes the selection, the mode becomes [orbit],
    the orbit controller is sent to that frame's camera, and the selection
    is announced exactly once, after the matcher ran once; the displayed
    pose and the transition are not touched.  When the scan finds none, the
    request only runs the matcher. *)
Theorem goto_nearest_request :
  forall (host : Host) (bbox : BoundingBox) (prepared : list Prepared.t)
         (frameCamera resetCamera : Camera) (m : Manager),
    let cam := this_camera m in
    let k := bestIndex_of bbox prepared cam in
    let m' := on_inputEvent bbox prepared frameCamera resetCamera
                            ev_gotoNearestTransformFrame m in
    (k = -1 /\ m' = emit MatcherInvoked m)
    \/
    (0 <= k < prepared_length prepared /\
     exists p,
       prepared_at prepared k = Some p
       /\ (forall c, In c prepared ->
             (score bbox cam (cameraForwardFromAngles cam) c
              <? score bbox cam (cameraForwardFromAngles cam) p)%float = false)
       /\ transformFrameIndex m' = k
       /\ cameraMode (state m') = orbit
       /\ orbit_controller (controllers m')
          = Controller_goto (orbit_controller (controllers m)) (Prepared.camera p)
       /\ trace m'
          = trace m ++ [MatcherInvoked;
                        Fired (mkSelected k (prepared_length prepared)
                                          (file_path (Prepared.frame p))
                                          (colmap_im_id (Prepared.frame p)))]
       /\ this_camera m' = cam
       /\ transition m' = transition m).
Proof.
  intros host bbox prepared frameCamera resetCamera m. cbn zeta.
  cbn [on_inputEvent]. unfold pickNearestFrameForCurrentView.
  rewrite this_camera_emit.
  destruct (Z.eqb_spec (prepared_length prepared) 0) as [Hz|Hz].
  - left. split; [|reflexivity].
    destruct (bestIndex_of_range bbox prepared (this_camera m)) as [H|H]; [assumption|lia].
  - destruct (bestIndex_of_range bbox prepared (this_camera m)) as [Hk|Hk].
    + left. rewrite Hk. now split.
    + right. split; [assumption|].
      replace (bestIndex_of bbox prepared (this_camera m) <? 0) with false
        by (symmetry; apply Z.ltb_ge; lia).
      replace (bestIndex_of bbox prepared (this_camera m) >=? 0) with true
        by (symmetry; rewrite Z.geb_leb; apply Z.leb_le; lia).
      destruct (bestIndex_of_minimal bbox prepared (this_camera m)) as (p & Hp & Hmin); [lia|].
      exists p. split; [assumption|]. split; [assumption|].
      match goal with |- context [gotoTransformFrameIndex prepared _ ?x] => set (m1 := x) end.
      destruct (goto_in_range prepared _ m1 Hk) as (Hidx & Hmode & p' & Hp' & Htr).
      rewrite Hp in Hp'. injection Hp' as <-.
      destruct (goto_retargets prepared _ p m1 Hk Hp) as (Hc & Ht & Hcam).
      rewrite Hidx, Hmode, Hc, Htr, Ht, Hcam. subst m1.
      cbn [trace emit set_transformFrameIndex orbit_controller]. rewrite <- app_assoc.
      now repeat split.
Qed.

(** ** The state at startup *)

(** X13.  What the constructor leaves, in terms of the settings: the mode
    is [anim] exactly when the settings ask for their (non-empty) track list
    or the start pose lies outside the bounding box, and [fly] otherwise,
    never [orbit]; the animation flag says the same; the transition's target
    and its snapshot are the start pose of the settings, and the displayed
    pose is what the [onEnter] of the controller of that mode (the anim
    controller of the resolved track, else the fly controller) leaves of the
    start pose, the controller being the one [onEnter] leaves; the pose
    remembered for the settling test is that displayed pose;
    no frame is selected and no event has been fired; and a cancel at startup
    leaves an animation for [orbit] when the start pose lies outside the
    box and for [fly] when it lies inside. *)
Theorem startup_state_from_settings :
  forall (host : Host) (g0 : GlobalState) (settings : Settings) (bbox : BoundingBox)
         (prepared : list Prepared.t),
    let m := constructor g0 settings bbox in
    let resetCamera := constructor_resetCamera settings in
    let frameCamera := constructor_frameCamera settings bbox in
    let outside := negb (BoundingBox_containsPoint bbox (position resetCamera)) in
    let asks_for_track :=
      match animTracks settings with
      | Some (_ :: _) => String.eqb (startMode settings) "animTrack"
      | _ => false
      end in
    let entering :=
      match constructor_animTrack settings bbox with
      | Some track => AnimController_new track
      | None => FlyController_new
      end in
    hasAnimation (state m) = asks_for_track || outside
    /\ cameraMode (state m) = (if asks_for_track || outside then anim else fly)
    /\ this_camera m = snd (Controller_onEnter entering resetCamera)
    /\ getController (controllers m) (cameraMode (state m))
       = Some (fst (Controller_onEnter entering resetCamera))
    /\ target (transition m) = resetCamera
    /\ from (transition m) = resetCamera
    /\ previousPosition (settle m) = position (this_camera m)
    /\ previousForward (settle m) = cameraForwardFromAngles (this_camera m)
    /\ previousFov (settle m) = fov (this_camera m)
    /\ transformFrameIndex m = -1
    /\ trace m = []
    /\ cameraMode (state (on_inputEvent bbox prepared frameCamera resetCamera ev_cancel m))
       = (if asks_for_track || outside then (if outside then orbit else fly) else fly).
Proof.
  intros host g0 settings bbox prepared. cbn zeta.
  unfold constructor at 1 2.
  cbn [state hasAnimation cameraMode anim_controller].
  assert (Htrack : match constructor_animTrack settings bbox with
                   | Some _ => true | None => false end
                   = match animTracks settings with
                     | Some (_ :: _) => String.eqb (startMode settings) "animTrack"
                     | _ => false
                     end
                     || negb (BoundingBox_containsPoint bbox
                                (position (constructor_resetCamera settings)))).
  { unfold constructor_animTrack, getAnimTrack. fold (isObjectExperience settings bbox).
    destruct (animTracks settings) as [[|t l]|]; cbn [List.length Z.of_nat Z.ltb Z.compare andb orb];
      try (now destruct (isObjectExperience settings bbox)).
    change (0 <? Z.pos (Pos.of_succ_nat (List.length l))) with true. cbn [andb nth_error].
    destruct (String.eqb (startMode settings) "animTrack"); cbn [orb]; [reflexivity|].
    now destruct (isObjectExperience settings bbox). }
  assert (Hflag : match
                    match constructor_animTrack settings bbox with
                    | Some track => Some (AnimController_new track)
                    | None => None
                    end
                  with Some _ => true | None => false end
                  = match constructor_animTrack settings bbox with
                    | Some _ => true | None => false end)
    by now destruct (constructor_animTrack settings bbox).
  rewrite Hflag, Htrack.
  split; [reflexivity|].
  split; [unfold isObjectExperience; now destruct (match animTracks settings with
                                                   | Some (_ :: _) => _ | _ => false end),
                                                  (negb _)|].
  assert (Hobj : constructor_animTrack settings bbox = None ->
                 isObjectExperience settings bbox = false).
  { intros E. rewrite E in Htrack. symmetry in Htrack.
    apply orb_false_iff in Htrack as [_ Hout]. exact Hout. }
  split.
  { unfold constructor. cbn [this_camera anim_controller].
    destruct (constructor_animTrack settings bbox) as [track|]; cbn; [reflexivity|].
    now rewrite Hobj. }
  split.
  { unfold constructor. cbn [controllers state cameraMode anim_controller].
    destruct (constructor_animTrack settings bbox) as [track|]; cbn; [reflexivity|].
    now rewrite Hobj. }
  split; [reflexivity|]. split; [reflexivity|].
  split; [reflexivity|]. split; [reflexivity|]. split; [reflexivity|].
  split; [reflexivity|]. split; [reflexivity|].
  cbn [on_inputEvent]. unfold constructor.
  cbn [state cameraMode hasAnimation anim_controller transition fromMode set_cameraMode
       set_state].
  rewrite Hflag, Htrack. unfold isObjectExperience.
  destruct (match animTracks settings with Some (_ :: _) => _ | _ => false end), (negb _);
    reflexivity.
Qed.

(** ** The order of a numbered dataset *)

Lemma NoDup_map_injective {A B : Type} (g : A -> B) (l : list A) a b :
  NoDup (map g l) -> In a l -> In b l -> g a = g b -> a = b.
Proof.
  induction l as [|x l IH]; cbn [map]; intros Hnd Ha Hb E; [destruct Ha|].
  inversion Hnd as [|? ? Hx Hl]; subst.
  destruct Ha as [<-|Ha], Hb as [<-|Hb]; [reflexivity| | |now apply IH].
  - exfalso. apply Hx. rewrite E. now apply in_map.
  - exfalso. apply Hx. rewrite <- E. now apply in_map.
Qed.

Lemma NoDup_map_filter {A B : Type} (g : A -> B) (keep : A -> bool) (l : list A) :
  NoDup (map g l) -> NoDup (map g (filter keep l)).
Proof.
  induction l as [|x l IH]; cbn [map filter]; intros Hnd; [constructor|].
  inversion Hnd as [|? ? Hx Hl]; subst.
  destruct (keep x); cbn [map]; [|now apply IH].
  constructor; [|now apply IH].
  intros Hin. apply Hx. apply in_map_iff in Hin as (y & <- & Hy).
  apply filter_In in Hy as [Hy _]. now apply in_map.
Qed.

(** Two lists in ascending key order with the same elements, no two of
    which share a key, are the same list. *)
Lemma key_sorted_unique (l1 : list TransformFrame) : forall l2,
  StronglySorted key_le l1 -> StronglySorted key_le l2 -> Permutation l1 l2 ->
  (forall a b, In a l1 -> In b l1 -> key_of a = key_of b -> a = b) ->
  l1 = l2.
Proof.
  induction l1 as [|a l1 IH]; intros [|b l2] H1 H2 Hp Hinj.
  - reflexivity.
  - now apply Permutation_nil in Hp.
  - symmetry in Hp. now apply Permutation_nil in Hp.
  - inversion H1 as [|? ? Hs1 Ha]; subst. inversion H2 as [|? ? Hs2 Hb]; subst.
    rewrite Forall_forall in Ha, Hb.
    assert (Eab : a = b).
    { assert (Hin_a : In a (b :: l2)) by (apply (Permutation_in _ Hp); now left).
      assert (Hin_b : In b (a :: l1))
        by (apply (Permutation_in _ (Permutation_sym Hp)); now left).
      destruct Hin_a as [E|Hin_a]; [now symmetry|].
      destruct Hin_b as [E|Hin_b]; [assumption|].
      apply Hinj; [now left|now right|].
      specialize (Ha b Hin_b). specialize (Hb a Hin_a). unfold key_le in Ha, Hb.
      destruct (key_of a) as [p| | |], (key_of b) as [q| | |]; try contradiction.
      f_equal. lia. }
    subst b. f_equal. apply IH; try assumption.
    + now apply Permutation_cons_inv in Hp.
    + intros x y Hx Hy. apply Hinj; now right.
Qed.

Lemma compareFrames_key_after {host : Host} a b :
  (exists p, key_of a = Fin p) -> (exists q, key_of b = Fin q) ->
  num_positive (compareFrames a b) = true -> key_le b a.
Proof.
  intros [p Hp] [q Hq]. unfold compareFrames, key_le. rewrite Hp, Hq.
  rewrite compare_finite_keys.
  destruct (Z.eqb_spec p q) as [->|Hne]; intros H; [lia|].
  apply Z.ltb_lt in H. lia.
Qed.

Lemma compareFrames_key_before {host : Host} a b :
  (exists p, key_of a = Fin p) -> (exists q, key_of b = Fin q) ->
  num_positive (compareFrames a b) = false -> key_le a b.
Proof.
  intros [p Hp] [q Hq]. unfold compareFrames, key_le. rewrite Hp, Hq.
  rewrite compare_finite_keys.
  destruct (Z.eqb_spec p q) as [->|Hne]; intros H; [lia|].
  apply Z.ltb_ge in H. lia.
Qed.

Lemma key_le_trans a b c : key_le a b -> key_le b c -> key_le a c.
Proof.
  unfold key_le.
  destruct (key_of a) as [p| | |], (key_of b) as [q| | |], (key_of c) as [r| | |];
    try contradiction. lia.
Qed.

Lemma validTransformFrames_key_sorted {host : Host} frames :
  Forall numbered frames -> StronglySorted key_le (validTransformFrames frames).
Proof.
  intros Hnum. unfold validTransformFrames.
  apply Array_sort_sorted with (P := fun f => exists p, key_of f = Fin p).
  - exact compareFrames_key_after.
  - exact compareFrames_key_before.
  - intros a b c _ _ _. apply key_le_trans.
  - rewrite Forall_forall in *. intros f Hf.
    apply in_map_iff in Hf as (g & <- & Hg). apply filter_In in Hg as [Hg _].
    exact (Hnum g Hg).
Qed.

Lemma validTransformFrames_perm {host : Host} frames :
  Permutation (validTransformFrames frames)
    (map with_sort_key
       (filter (fun f => Array_isArray_rows (transform_matrix f)) frames)).
Proof. apply Array_sort_perm. Qed.

(** X14.  A numbered dataset has one order: when every frame has a finite
    sort key (the double nearest to the frame number of its path) and no two
    frames have the same sort key, the sorted frames and the prepared
    dataset do not depend on the order in which the frames arrive (and the
    comparison of paths is never consulted, so nothing is asked of
    [localeCompare]).  Frame numbers below 2^53 are their own sort keys;
    above, two numbers that round to one double count as the same key. *)
Theorem numbered_dataset_order_is_canonical :
  forall (host : Host) (frames1 frames2 : list TransformFrame),
    Permutation frames1 frames2 ->
    Forall numbered frames1 ->
    NoDup (map extractFrameSortKey frames1) ->
    validTransformFrames frames1 = validTransformFrames frames2
    /\ (forall fov rot,
          prepareTransformFrames frames1 fov rot = prepareTransformFrames frames2 fov rot).
Proof.
  intros host frames1 frames2 Hperm Hnum Hnd.
  assert (Hnum2 : Forall numbered frames2) by exact (Permutation_Forall Hperm Hnum).
  assert (E : validTransformFrames frames1 = validTransformFrames frames2).
  { apply key_sorted_unique.
    - now apply validTransformFrames_key_sorted.
    - now apply validTransformFrames_key_sorted.
    - rewrite !validTransformFrames_perm.
      apply Permutation_map. now apply Permutation_filter_keep.
    - intros a b. apply (NoDup_map_injective key_of (validTransformFrames frames1) a b).
      apply (Permutation_NoDup
               (Permutation_map key_of (Permutation_sym (validTransformFrames_perm frames1)))).
      rewrite map_map. cbn [key_of with_sort_key sort_key].
      now apply NoDup_map_filter. }
  split; [exact E|]. intros fov rot. unfold prepareTransformFrames. now rewrite E.
Qed.

(** X14 at work on the sample host: three numbered frames, arriving in one
    order or in the reverse, give the same sorted frames. *)
Lemma numbered_dataset_sample :
  validTransformFrames (host := sample_host)
    [named_frame "frame_010.png"; named_frame "frame_002.png"; named_frame "frame_001.png"]
  = validTransformFrames (host := sample_host)
      [named_frame "frame_001.png"; named_frame "frame_002.png"; named_frame "frame_010.png"].
Proof.
  refine (proj1 (numbered_dataset_order_is_canonical sample_host
                   [named_frame "frame_010.png"; named_frame "frame_002.png";
                    named_frame "frame_001.png"]
                   [named_frame "frame_001.png"; named_frame "frame_002.png";
                    named_frame "frame_010.png"] _ _ _)).
  - apply (Permutation_rev [named_frame "frame_010.png"; named_frame "frame_002.png";
                            named_frame "frame_001.png"]).
  - repeat constructor; eexists; vm_compute; reflexivity.
  - vm_compute. repeat constructor; cbn; intuition discriminate.
Defined.

(** ** The scene rotation read from [geoXform] *)

Lemma is_degrees_numeric d : is_degrees d = true -> numeric_xyz d.
Proof.
  unfold is_degrees, numeric_xyz. intros H.
  repeat (apply andb_true_iff in H as [H ?]).
  destruct d as [| | | | | |props]; try discriminate.
  cbn [get_property] in *.
  destruct (own_property props "x") as [| | |x| | |] eqn:Ex; try discriminate.
  destruct (own_property props "y") as [| | |y| | |] eqn:Ey; try discriminate.
  destruct (own_property props "z") as [| | |z| | |] eqn:Ez; try discriminate.
  now exists props, x, y, z.
Qed.

Lemma first_candidate_degrees_spec candidates :
  match first_candidate_degrees candidates with
  | Some d =>
      exists before candidate after,
        candidates = before ++ candidate :: after
        /\ d = get_property candidate "scene_xyz_deg_x_plus_90"
        /\ is_degrees d = true
        /\ Forall (fun c => is_degrees (get_property c "scene_xyz_deg_x_plus_90") = false)
                  before
  | None =>
      Forall (fun c => is_degrees (get_property c "scene_xyz_deg_x_plus_90") = false)
             candidates
  end.
Proof.
  induction candidates as [|c rest IH]; cbn [first_candidate_degrees]; [constructor|].
  destruct (is_degrees (get_property c "scene_xyz_deg_x_plus_90")) eqn:E.
  - exists [], c, rest. repeat split; [assumption|constructor].
  - destruct (first_candidate_degrees rest) as [d|].
    + destruct IH as (before & candidate & after & -> & -> & Hd & Hb).
      exists (c :: before), candidate, after. repeat split; [assumption|].
      now constructor.
    + now constructor.
Qed.

Lemma candidates_not_object_no_degrees candidates :
  truthy candidates && typeof_object candidates = false ->
  Object_values candidates = [].
Proof. destruct candidates; cbn; try reflexivity; discriminate. Qed.

(** X15.  What [getSceneXformDegrees] hands to the constructor: the result
    is [null] or an object whose [x], [y] and [z] are numbers, so the three
    reads that build the scene rotation are reads of numbers; it is the
    first of the values the function looks at (the direct entry, the entry
    of each candidate in enumeration order, the legacy entry) that passes
    the test, and [null] exactly when none passes. *)
Theorem getSceneXformDegrees_result :
  forall geoXform : JsValue,
    let r := getSceneXformDegrees geoXform in
    (r = JsNull \/ numeric_xyz r)
    /\ (r = JsNull <-> Forall (fun d => is_degrees d = false) (degrees_sources geoXform))
    /\ (r <> JsNull ->
        exists before after,
          degrees_sources geoXform = before ++ r :: after
          /\ is_degrees r = true
          /\ Forall (fun d => is_degrees d = false) before).
Proof.
  intros geoXform. cbn zeta.
  assert (Hnull : is_degrees JsNull = false) by reflexivity.
  assert (Hcases :
    (getSceneXformDegrees geoXform = JsNull
     /\ Forall (fun d => is_degrees d = false) (degrees_sources geoXform))
    \/ (exists before after,
          degrees_sources geoXform = before ++ getSceneXformDegrees geoXform :: after
          /\ is_degrees (getSceneXformDegrees geoXform) = true
          /\ Forall (fun d => is_degrees d = false) before)).
  { unfold getSceneXformDegrees, degrees_sources.
    set (candidates := get_property geoXform "playcanvas_candidates").
    set (direct := get_property candidates "scene_xyz_deg_x_plus_90").
    set (legacy := get_property geoXform "playcanvas_scene_xyz_deg_x_plus_90").
    destruct (is_degrees direct) eqn:Ed.
    - right. exists [], (map (fun c => get_property c "scene_xyz_deg_x_plus_90")
                             (Object_values candidates) ++ [legacy]).
      repeat split; [assumption|constructor].
    - assert (Hloop :
        match (if truthy candidates && typeof_object candidates
               then first_candidate_degrees (Object_values candidates) else None) with
        | Some d =>
            exists before candidate after,
              Object_values candidates = before ++ candidate :: after
              /\ d = get_property candidate "scene_xyz_deg_x_plus_90"
              /\ is_degrees d = true
              /\ Forall (fun c => is_degrees (get_property c "scene_xyz_deg_x_plus_90")
                                  = false) before
        | None =>
            Forall (fun c => is_degrees (get_property c "scene_xyz_deg_x_plus_90") = false)
                   (Object_values candidates)
        end).
      { destruct (truthy candidates && typeof_object candidates) eqn:Ec.
        - apply first_candidate_degrees_spec.
        - rewrite (candidates_not_object_no_degrees candidates Ec). constructor. }
      destruct (if truthy candidates && typeof_object candidates
                then first_candidate_degrees (Object_values candidates) else None)
        as [d|].
      + right. destruct Hloop as (before & candidate & after & -> & -> & Hd & Hb).
        exists (direct :: map (fun c => get_property c "scene_xyz_deg_x_plus_90") before),
               (map (fun c => get_property c "scene_xyz_deg_x_plus_90") after ++ [legacy]).
        repeat split.
        * rewrite map_app. cbn [map app]. now rewrite <- app_assoc.
        * assumption.
        * constructor; [assumption|]. now apply Forall_map.
      + destruct (is_degrees legacy) eqn:El.
        * right.
          exists (direct :: map (fun c => get_property c "scene_xyz_deg_x_plus_90")
                                (Object_values candidates)), [].
          repeat split; [assumption|].
          constructor; [assumption|]. now apply Forall_map.
        * left. split; [reflexivity|].
          constructor; [assumption|]. apply Forall_app. split.
          -- now apply Forall_map.
          -- now repeat constructor. }
  destruct Hcases as [[Hr Hall]|(before & after & Hs & Hd & Hb)].
  - rewrite Hr. split; [now left|]. split; [now split|]. congruence.
  - split; [right; now apply is_degrees_numeric|]. split.
    + split.
      * intros E. rewrite E in Hd. discriminate.
      * intros Hall. rewrite Hs in Hall. apply Forall_app in Hall as [_ Hall].
        inversion Hall as [|? ? Hx _]; subst. congruence.
    + intros _. now exists before, after.
Qed.

(** ** The frame inspector *)

Lemma Math_max_not_below v lo :
  is_nan lo = false -> (Math_max v lo <? lo)%float = false.
Proof.
  intros Hlo. unfold Math_max. rewrite Hlo, orb_false_r.
  destruct (is_nan v); [now apply ltb_nan_l|].
  destruct (v <? lo)%float eqn:E1; [apply ltb_irrefl|].
  destruct (lo <? v)%float eqn:E2; [assumption|].
  destruct (get_sign v); [apply ltb_irrefl|assumption].
Qed.

Lemma Math_min_not_above v hi :
  is_nan hi = false -> (hi <? Math_min v hi)%float = false.
Proof.
  intros Hhi. unfold Math_min. rewrite Hhi, orb_false_r.
  destruct (is_nan v); [now apply ltb_nan_r|].
  destruct (v <? hi)%float eqn:E1; [now apply ltb_asym|].
  destruct (hi <? v)%float eqn:E2; [apply ltb_irrefl|].
  destruct (get_sign v); [assumption|apply ltb_irrefl].
Qed.

Lemma Math_min_keeps_floor v lo hi :
  (v <? lo)%float = false -> (hi <? lo)%float = false ->
  (Math_min v hi <? lo)%float = false.
Proof.
  intros Hv Hhi. unfold Math_min.
  destruct (is_nan v || is_nan hi); [now apply ltb_nan_l|].
  destruct (v <? hi)%float; [assumption|].
  destruct (hi <? v)%float; [assumption|].
  now destruct (get_sign v).
Qed.

(** The clamp of the zoom keeps it within its limits. *)
Lemma pip_clamp_bounds v :
  (Pip.clamp v Pip.pipMinZoom Pip.pipMaxZoom <? Pip.pipMinZoom)%float = false
  /\ (Pip.pipMaxZoom <? Pip.clamp v Pip.pipMinZoom Pip.pipMaxZoom)%float = false.
Proof.
  unfold Pip.clamp. split.
  - apply Math_min_keeps_floor; [now apply Math_max_not_below|reflexivity].
  - now apply Math_min_not_above.
Qed.

Section InspectorFacts.

(** The zoom is within its limits, and what was written to the style of
    the image is the current pan and zoom. *)
Let zoom_ok (v : Pip.View) : Prop :=
  (Pip.pipZoomScale v <? Pip.pipMinZoom)%float = false
  /\ (Pip.pipMaxZoom <? Pip.pipZoomScale v)%float = false
  /\ match Pip.transform v with
     | Some t => t = (Pip.pipPanX v, Pip.pipPanY v, Pip.pipZoomScale v)
     | None => Pip.pipPanX v = 0%float /\ Pip.pipPanY v = 0%float
               /\ Pip.pipZoomScale v = 1%float
     end.

Lemma close_zoom_ok v : zoom_ok v -> zoom_ok (Pip.closeFullscreenFrame v).
Proof. unfold Pip.closeFullscreenFrame. now destruct (negb (Pip.fullscreenOpen v)). Qed.

Lemma applyPipZoom_zoom_ok s v : zoom_ok (Pip.applyPipZoom s v).
Proof.
  unfold zoom_ok, Pip.applyPipZoom. cbn.
  destruct (pip_clamp_bounds s) as [H1 H2]. now repeat split.
Qed.

Lemma zoomPipAt_zoom_ok x y s rect v : zoom_ok v -> zoom_ok (Pip.zoomPipAt x y s rect v).
Proof.
  intros H. unfold Pip.zoomPipAt.
  destruct (_ =? _)%float; [assumption|].
  unfold zoom_ok. cbn. destruct (pip_clamp_bounds s) as [H1 H2]. now repeat split.
Qed.

Lemma resetStoredPipView_zoom_ok v : zoom_ok (Pip.resetStoredPipView v).
Proof. unfold zoom_ok. cbn. now repeat split. Qed.

Lemma updatePipVisibility_zoom_ok g v :
  zoom_ok v -> zoom_ok (Pip.updatePipVisibility g v).
Proof.
  intros H. unfold Pip.updatePipVisibility.
  destruct (negb _); [now apply close_zoom_ok|assumption].
Qed.

Lemma open_zoom_ok v : zoom_ok v -> zoom_ok (Pip.openFullscreenFrame v).
Proof.
  intros H. unfold Pip.openFullscreenFrame.
  destruct (Pip.selectedFramePath v) as [p|]; [|assumption].
  destruct (String.eqb p EmptyString); [assumption|].
  destruct H as (H1 & H2 & _). unfold zoom_ok. cbn.
  destruct (Pip.hasStoredPipView v); cbn; now repeat split.
Qed.

Lemma dispatch_zoom_ok r v : zoom_ok v -> zoom_ok (Pip.dispatch r v).
Proof.
  intros H. destruct r; cbn [Pip.dispatch].
  - unfold Pip.on_transformFrame_selected.
    destruct (filePath selection) as [p|]; [|assumption].
    destruct (String.eqb p EmptyString); [assumption|].
    apply updatePipVisibility_zoom_ok.
    cbn. now destruct (Pip.fullscreenOpen v).
  - unfold Pip.on_nearestUpdated.
    destruct (negb _); [apply resetStoredPipView_zoom_ok|assumption].
  - now apply updatePipVisibility_zoom_ok.
  - unfold Pip.toggleFullscreenFrame.
    destruct (Pip.fullscreenOpen v); [now apply close_zoom_ok|now apply open_zoom_ok].
  - now apply close_zoom_ok.
  - unfold Pip.wheel. destruct (negb _); [assumption|now apply zoomPipAt_zoom_ok].
  - unfold Pip.mouse_pan. destruct (negb _); [assumption|].
    destruct H as (H1 & H2 & _). unfold zoom_ok. cbn. now repeat split.
  - unfold Pip.pinch. destruct (negb _); [assumption|apply applyPipZoom_zoom_ok].
  - exact H.
Qed.

Lemma run_zoom_ok requests : forall v,
  zoom_ok v -> zoom_ok (Pip.run requests v).
Proof.
  unfold Pip.run. induction requests as [|r requests IH]; intros v H; cbn [fold_left].
  - assumption.
  - apply IH. now apply dispatch_zoom_ok.
Qed.

(** The images shown are those of the path held, which is not empty; the
    fullscreen image is shown only with a path held. *)
Let images_ok (v : Pip.View) : Prop :=
  (forall p, Pip.selectedFramePath v = Some p ->
     p <> EmptyString
     /\ Pip.thumbSrc v = Some (Pip.toDerivedFramePath p Pip.images_jpg_8))
  /\ (Pip.fullscreenOpen v = true ->
      Pip.fullscreenHidden v = false
      /\ exists p, Pip.selectedFramePath v = Some p
                   /\ Pip.fullSrc v = Some (Pip.toDerivedFramePath p Pip.images_jpg)).

Lemma close_images_ok v : images_ok v -> images_ok (Pip.closeFullscreenFrame v).
Proof.
  intros H. unfold Pip.closeFullscreenFrame.
  destruct (Pip.fullscreenOpen v) eqn:E; cbn [negb]; [|exact H].
  destruct H as [H1 H2]. split; [exact H1|]. cbn. discriminate.
Qed.

Lemma updatePipVisibility_images_ok g v :
  images_ok v -> images_ok (Pip.updatePipVisibility g v).
Proof.
  intros H. unfold Pip.updatePipVisibility.
  destruct (negb _); [now apply close_images_ok|exact H].
Qed.

Lemma open_images_ok v : images_ok v -> images_ok (Pip.openFullscreenFrame v).
Proof.
  intros H. unfold Pip.openFullscreenFrame.
  destruct (Pip.selectedFramePath v) as [p|] eqn:Ep; [|exact H].
  destruct (String.eqb p EmptyString) eqn:E; [exact H|].
  destruct H as [H1 H2]. split.
  - intros q Hq.
    assert (Hq' : Pip.selectedFramePath v = Some q)
      by (match type of Hq with context [if ?b then _ else _] => destruct b end; exact Hq).
    destruct (H1 q Hq') as [Hne Hth]. split; [exact Hne|].
    match goal with |- context [if ?b then _ else _] => destruct b end; exact Hth.
  - intros _.
    match goal with |- context [if ?b then _ else _] => destruct b end;
      (split; [reflexivity|]; exists p; split; [exact Ep|reflexivity]).
Qed.

Lemma keep_images_ok v v' :
  Pip.selectedFramePath v' = Pip.selectedFramePath v ->
  Pip.thumbSrc v' = Pip.thumbSrc v -> Pip.fullSrc v' = Pip.fullSrc v ->
  Pip.fullscreenOpen v' = Pip.fullscreenOpen v ->
  Pip.fullscreenHidden v' = Pip.fullscreenHidden v ->
  images_ok v -> images_ok v'.
Proof. unfold images_ok. now intros -> -> -> -> ->. Qed.

Lemma dispatch_images_ok r v : images_ok v -> images_ok (Pip.dispatch r v).
Proof.
  intros H. destruct r; cbn [Pip.dispatch].
  - unfold Pip.on_transformFrame_selected.
    destruct (filePath selection) as [p|]; [|assumption].
    destruct (String.eqb p EmptyString) eqn:E; [assumption|].
    apply updatePipVisibility_images_ok.
    destruct H as [H1 H2].
    set (v1 := Pip.set_selected p (Pip.toDerivedFramePath p Pip.images_jpg_8) v).
    change (Pip.fullscreenOpen v1) with (Pip.fullscreenOpen v).
    apply String.eqb_neq in E.
    destruct (Pip.fullscreenOpen v) eqn:Eo.
    + split.
      * intros q Hq. injection Hq as <-. now split.
      * intros _. destruct (H2 eq_refl) as [Hh _]. split; [exact Hh|].
        now exists p.
    + split.
      * intros q Hq. injection Hq as <-. now split.
      * intros Ho. change (Pip.fullscreenOpen v1) with (Pip.fullscreenOpen v) in Ho.
        congruence.
  - unfold Pip.on_nearestUpdated.
    destruct (negb _); [|assumption]. now apply (keep_images_ok v).
  - now apply updatePipVisibility_images_ok.
  - unfold Pip.toggleFullscreenFrame.
    destruct (Pip.fullscreenOpen v); [now apply close_images_ok|now apply open_images_ok].
  - now apply close_images_ok.
  - unfold Pip.wheel. destruct (negb _); [assumption|].
    unfold Pip.zoomPipAt. destruct (_ =? _)%float; [assumption|].
    now apply (keep_images_ok v).
  - unfold Pip.mouse_pan. destruct (negb _); [assumption|now apply (keep_images_ok v)].
  - unfold Pip.pinch. destruct (negb _); [assumption|now apply (keep_images_ok v)].
  - exact H.
Qed.

Lemma run_images_ok requests : forall v,
  images_ok v -> images_ok (Pip.run requests v).
Proof.
  unfold Pip.run. induction requests as [|r requests IH]; intros v H; cbn [fold_left].
  - assumption.
  - apply IH. now apply dispatch_images_ok.
Qed.

Lemma close_path v :
  Pip.selectedFramePath (Pip.closeFullscreenFrame v) = Pip.selectedFramePath v.
Proof. unfold Pip.closeFullscreenFrame. now destruct (negb _). Qed.

Lemma updatePipVisibility_path g v :
  Pip.selectedFramePath (Pip.updatePipVisibility g v) = Pip.selectedFramePath v.
Proof.
  unfold Pip.updatePipVisibility. destruct (negb _); [now rewrite close_path|reflexivity].
Qed.

(** The path held after a sequence of requests is that of the last
    selection delivered with a non-empty path. *)
Lemma run_path requests : forall v,
  Pip.selectedFramePath (Pip.run requests v)
  = last_path (Pip.selectedFramePath v) (Pip.delivered requests).
Proof.
  unfold Pip.run. induction requests as [|r requests IH]; intros v; cbn [fold_left].
  - reflexivity.
  - rewrite IH. destruct r; cbn [Pip.dispatch Pip.delivered last_path].
    + f_equal. unfold Pip.on_transformFrame_selected, Pip.has_path.
      destruct (filePath selection) as [p|]; [|reflexivity].
      destruct (String.eqb p EmptyString); cbn [negb]; [reflexivity|].
      rewrite updatePipVisibility_path.
      match goal with |- context [if ?b then _ else _] => now destruct b end.
    + f_equal. unfold Pip.on_nearestUpdated. now destruct (negb _).
    + f_equal. apply updatePipVisibility_path.
    + f_equal. unfold Pip.toggleFullscreenFrame.
      destruct (Pip.fullscreenOpen v); [apply close_path|].
      unfold Pip.openFullscreenFrame.
      destruct (Pip.selectedFramePath v) as [p|] eqn:Ep; [|now rewrite Ep].
      destruct (String.eqb p EmptyString); [now rewrite Ep|].
      rewrite <- Ep.
      match goal with |- context [if ?b then _ else _] => now destruct b end.
    + f_equal. apply close_path.
    + f_equal. unfold Pip.wheel. destruct (negb _); [reflexivity|].
      unfold Pip.zoomPipAt. now destruct (_ =? _)%float.
    + f_equal. unfold Pip.mouse_pan. now destruct (negb _).
    + f_equal. unfold Pip.pinch. now destruct (negb _).
    + reflexivity.
Qed.

End InspectorFacts.

(** X16.  The zoom of the frame inspector stays within its limits and the
    image is never shown with a stale pan or zoom: from the variables as
    [initUI] declares them, after any sequence of selections, visibility
    changes, openings and closings, wheel zooms, mouse pans, pinches and
    writes of the pointer handlers to their own variables, the zoom is
    neither below 1 nor above 8, and the pan and zoom last
    written to the style of the full image are the current ones. *)
Theorem inspector_zoom_within_limits :
  forall (thumb0 full0 : option string) (wrapHidden0 fullscreenHidden0 : bool)
         (requests : list Pip.Request),
    let v := Pip.run requests (Pip.initial thumb0 full0 wrapHidden0 fullscreenHidden0) in
    (Pip.pipZoomScale v <? 1)%float = false
    /\ (8 <? Pip.pipZoomScale v)%float = false
    /\ match Pip.transform v with
       | Some t => t = (Pip.pipPanX v, Pip.pipPanY v, Pip.pipZoomScale v)
       | None => Pip.pipPanX v = 0%float /\ Pip.pipPanY v = 0%float
                 /\ Pip.pipZoomScale v = 1%float
       end.
Proof.
  intros thumb0 full0 wrapHidden0 fullscreenHidden0 requests. cbn zeta.
  apply run_zoom_ok. cbn. now repeat split.
Qed.

(** X17.  The frame inspector shows the frame it holds: from the variables
    as [initUI] declares them, after any sequence of requests, the path held
    is that of the last selection delivered with a non-empty path (a
    selection without a path is ignored and leaves the previous frame in
    place); it is never empty; the thumbnail is its [images_jpg_8] variant;
    and while the fullscreen image is open it is not hidden and shows the
    [images_jpg] variant of the same path. *)
Theorem inspector_shows_the_held_frame :
  forall (thumb0 full0 : option string) (wrapHidden0 fullscreenHidden0 : bool)
         (requests : list Pip.Request),
    let v := Pip.run requests (Pip.initial thumb0 full0 wrapHidden0 fullscreenHidden0) in
    Pip.selectedFramePath v = last_path None (Pip.delivered requests)
    /\ (forall p, Pip.selectedFramePath v = Some p ->
          p <> EmptyString
          /\ Pip.thumbSrc v = Some (Pip.toDerivedFramePath p Pip.images_jpg_8))
    /\ (Pip.fullscreenOpen v = true ->
        Pip.fullscreenHidden v = false
        /\ exists p, Pip.selectedFramePath v = Some p
                     /\ Pip.fullSrc v = Some (Pip.toDerivedFramePath p Pip.images_jpg)).
Proof.
  intros thumb0 full0 wrapHidden0 fullscreenHidden0 requests. cbn zeta.
  split; [apply run_path|].
  apply run_images_ok. split; cbn; [discriminate|discriminate].
Qed.

(** ** From the camera manager to the frame inspector *)

Lemma fired_indices_selections l :
  fired_indices l = map index (fired_selections l).
Proof.
  induction l as [|[|sel] l IH]; cbn [fired_indices fired_selections map];
    [reflexivity|assumption|now rewrite IH].
Qed.

Lemma fired_selections_in l sel : In sel (fired_selections l) -> In (Fired sel) l.
Proof.
  induction l as [|[|sel'] l IH]; cbn [fired_selections]; intros H.
  - destruct H.
  - right. now apply IH.
  - destruct H as [<-|H]; [now left|right; now apply IH].
Qed.

Lemma last_path_app l1 : forall held l2,
  last_path held (l1 ++ l2) = last_path (last_path held l1) l2.
Proof.
  induction l1 as [|sel l1 IH]; intros held l2; cbn [app last_path]; [reflexivity|].
  apply IH.
Qed.

Section PayloadFacts.
Context {host : Host}.
Variable bbox : BoundingBox.
Variable prepared : list Prepared.t.
Variable frameCamera : Camera.
Variable resetCamera : Camera.

Let from_dataset (m : Manager) : Prop :=
  Forall (payload_of_dataset prepared) (trace m).

Lemma payload_same (m m' : Manager) :
  trace m' = trace m -> from_dataset m -> from_dataset m'.
Proof. unfold from_dataset. now intros ->. Qed.

Lemma payload_matcher (m : Manager) :
  from_dataset m -> from_dataset (emit MatcherInvoked m).
Proof.
  intros H. unfold from_dataset. cbn [trace emit]. apply Forall_app.
  split; [assumption|]. now repeat constructor.
Qed.

Lemma emitSelected_payload (m : Manager) :
  from_dataset m -> from_dataset (emitSelectedTransformFrame prepared m).
Proof.
  intros H. destruct (emitSelected_trace prepared m) as [[_ ->]|(_ & p & Hp & ->)];
    [assumption|].
  unfold from_dataset. cbn [trace emit]. apply Forall_app. split; [assumption|].
  constructor; [|constructor]. cbn. now exists p.
Qed.

Lemma pickNearest_payload e (m : Manager) :
  from_dataset m ->
  from_dataset (snd (pickNearestFrameForCurrentView bbox prepared e m)).
Proof.
  intros H. pose proof (payload_matcher m H) as H0.
  unfold pickNearestFrameForCurrentView.
  destruct (prepared_length prepared =? 0); [assumption|].
  destruct (bestIndex_of _ _ _ <? 0); [assumption|].
  cbn [snd]. destruct e; [|exact H0].
  apply emitSelected_payload. exact H0.
Qed.

Lemma goto_payload i (m : Manager) :
  from_dataset m -> from_dataset (gotoTransformFrameIndex prepared i m).
Proof.
  intros H.
  destruct (Z.le_gt_cases 0 i) as [H0|H0];
    [destruct (Z.lt_ge_cases i (prepared_length prepared)) as [Hn|Hn]|];
    try (rewrite goto_out_of_range by lia; assumption).
  destruct (goto_in_range prepared i m (conj H0 Hn)) as (_ & _ & p & Hp & Htr).
  unfold from_dataset. rewrite Htr. apply Forall_app. split; [assumption|].
  constructor; [|constructor]. cbn. now exists p.
Qed.

Lemma step_payload step (m : Manager) :
  from_dataset m -> from_dataset (stepTransformFrame bbox prepared step m).
Proof.
  intros H. unfold stepTransformFrame.
  destruct (_ =? 0); [assumption|].
  destruct (transformFrameIndex m <? 0).
  - pose proof (pickNearest_payload true m H) as H1.
    destruct (pickNearestFrameForCurrentView bbox prepared true m) as [k m1].
    cbn [snd] in H1. destruct (k <? 0); [assumption|].
    apply goto_payload. exact H1.
  - apply goto_payload. exact H.
Qed.

Lemma on_inputEvent_payload ev (m : Manager) :
  from_dataset m ->
  from_dataset (on_inputEvent bbox prepared frameCamera resetCamera ev m).
Proof.
  intros H. destruct ev; cbn [on_inputEvent].
  - exact H.
  - exact H.
  - destruct (hasAnimation (state m)); [|assumption].
    destruct (CameraMode_eqb _ _); exact H.
  - destruct (CameraMode_eqb _ _); exact H.
  - destruct (CameraMode_eqb _ _); exact H.
  - now apply step_payload.
  - now apply step_payload.
  - pose proof (pickNearest_payload false m H) as H1.
    destruct (pickNearestFrameForCurrentView bbox prepared false m) as [k m1].
    cbn [snd] in H1. destruct (k >=? 0); [now apply goto_payload|assumption].
  - destruct (_ >=? 0); [now apply goto_payload|assumption].
Qed.

Lemma update_payload deltaTime inputFrame (m : Manager) :
  from_dataset m -> from_dataset (final (update bbox prepared deltaTime inputFrame m)).
Proof.
  intros H. unfold update.
  cbn [set_transitionTimer set_transition controllers state].
  destruct (getController (controllers m) (cameraMode (state m))) as [controller|];
    [|exact H].
  destruct (Controller_update controller _ inputFrame _) as [controller1 target1].
  match goal with |- context [blend ?x] => set (m0 := x) end.
  set (m1 := blend m0).
  assert (H1 : from_dataset m1).
  { subst m1. unfold blend. destruct (_ <? 1)%float; exact H. }
  set (m2 := if CameraMode_eqb (cameraMode (state m1)) anim
             then set_animationTime (Anim_cursor_value controller1) m1 else m1).
  assert (H2 : from_dataset m2).
  { subst m2. destruct (CameraMode_eqb (cameraMode (state m1)) anim); exact H1. }
  destruct (settle_step _ deltaTime _ _) as [[w t] r].
  match goal with |- context [if r then snd (pickNearestFrameForCurrentView _ _ _ ?x) else _] =>
    set (m3 := x) end.
  assert (H3 : from_dataset m3) by exact H2.
  set (m4 := if r then snd (pickNearestFrameForCurrentView bbox prepared true m3) else m3).
  assert (H4 : from_dataset m4).
  { subst m4. destruct r; [now apply pickNearest_payload|assumption]. }
  cbn [final]. exact H4.
Qed.

Lemma dispatch_payload (r : Request) (m : Manager) :
  from_dataset m ->
  from_dataset (final (dispatch bbox prepared frameCamera resetCamera r m)).
Proof.
  intros H. destruct r as [dt fr|ev|value prev|time|p|p t f]; cbn [dispatch].
  - now apply update_payload.
  - cbn [final]. now apply on_inputEvent_payload.
  - unfold on_cameraMode_changed.
    destruct (getController _ prev) as [pc|]; [|exact H].
    destruct (getController _ value) as [nc|]; exact H.
  - unfold on_scrubAnim. destruct (anim_controller _) as [a|]; exact H.
  - exact H.
  - exact H.
Qed.

Lemma run_payload (requests : list Request) : forall m : Manager,
  Forall (payload_of_dataset prepared) (trace m) ->
  Forall (payload_of_dataset prepared)
         (trace (run bbox prepared frameCamera resetCamera requests m)).
Proof.
  unfold run. induction requests as [|r requests IH]; intros m H; cbn [fold_left].
  - assumption.
  - apply IH. now apply dispatch_payload.
Qed.

End PayloadFacts.

(** X18.  The thumbnail shows the selected frame.  Run the camera manager
    from the constructor's state through any sequence of updates and events,
    and the frame inspector from its initial variables through any sequence
    of its requests among which the selections delivered are the ones the
    manager fired: if the frame now selected in the manager has a non-empty
    path, the inspector holds that path and its thumbnail is the
    [images_jpg_8] variant of it. *)
Theorem thumbnail_shows_the_selected_frame :
  forall (host : Host) (g0 : GlobalState) (settings : Settings) (bbox : BoundingBox)
         (prepared : list Prepared.t) (requests : list Request)
         (ui_requests : list Pip.Request)
         (thumb0 full0 : option string) (wrapHidden0 fullscreenHidden0 : bool)
         (p : Prepared.t) (path : string),
    let m := run bbox prepared (constructor_frameCamera settings bbox)
                 (constructor_resetCamera settings) requests
                 (constructor g0 settings bbox) in
    let v := Pip.run ui_requests
                     (Pip.initial thumb0 full0 wrapHidden0 fullscreenHidden0) in
    Pip.delivered ui_requests = fired_selections (trace m) ->
    prepared_at prepared (transformFrameIndex m) = Some p ->
    file_path (Prepared.frame p) = Some path ->
    path <> EmptyString ->
    Pip.selectedFramePath v = Some path
    /\ Pip.thumbSrc v = Some (Pip.toDerivedFramePath path Pip.images_jpg_8).
Proof.
  intros host g0 settings bbox prepared requests ui_requests thumb0 full0
         wrapHidden0 fullscreenHidden0 p path.
  cbn zeta. set (m := run _ _ _ _ _ _). intros Hdel Hp Hpath Hne.
  assert (Hsync : last_announced (trace m) = transformFrameIndex m)
    by (apply run_announced; reflexivity).
  assert (Hpay : Forall (payload_of_dataset prepared) (trace m))
    by (apply run_payload; constructor).
  assert (Hi : 0 <= transformFrameIndex m).
  { unfold prepared_at in Hp.
    destruct (Z.ltb_spec (transformFrameIndex m) 0); [discriminate|assumption]. }
  assert (Hheld : last_path None (fired_selections (trace m)) = Some path).
  { unfold last_announced in Hsync. rewrite fired_indices_selections in Hsync.
    destruct (fired_selections (trace m)) as [|s ss] eqn:Ef; [cbn in Hsync; lia|].
    destruct (exists_last (l := s :: ss)) as (ss' & s0 & Hss); [discriminate|].
    rewrite Hss in *. rewrite map_app in Hsync. cbn [map] in Hsync.
    rewrite last_last in Hsync.
    assert (Hin : In (Fired s0) (trace m)).
    { apply fired_selections_in. rewrite Ef. apply in_or_app. right. now left. }
    rewrite Forall_forall in Hpay. destruct (Hpay _ Hin) as (p' & Hp' & Hf & _).
    rewrite Hsync, Hp in Hp'. injection Hp' as <-.
    rewrite last_path_app. cbn [last_path]. rewrite Hf, Hpath.
    unfold Pip.has_path.
    now replace (String.eqb path EmptyString) with false
      by (symmetry; now apply String.eqb_neq). }
  assert (Hsel : Pip.selectedFramePath
                   (Pip.run ui_requests
                            (Pip.initial thumb0 full0 wrapHidden0 fullscreenHidden0))
                 = Some path).
  { rewrite run_path. cbn [Pip.selectedFramePath Pip.initial]. now rewrite Hdel. }
  split; [exact Hsel|].
  assert (Hinv := run_images_ok ui_requests
                    (Pip.initial thumb0 full0 wrapHidden0 fullscreenHidden0)).
  cbn zeta in Hinv. destruct Hinv as [H1 _]; [split; cbn; discriminate|].
  now destruct (H1 path Hsel).
Qed.

(** X18 at work on the sample host: after a next request with nothing
    selected, delivered to the inspector, the thumbnail is that of the
    second frame. *)
Lemma thumbnail_sample :
  let m := run (host := sample_host) unit_bbox image_candidates
               (constructor_frameCamera plain_settings unit_bbox)
               (constructor_resetCamera plain_settings)
               [InputEvent ev_nextTransformFrame]
               (constructor (host := sample_host) plain_global plain_settings unit_bbox) in
  Pip.thumbSrc
    (Pip.run (map (Pip.TransformFrameSelected plain_global) (fired_selections (trace m)))
             (Pip.initial None None true true))
  = Some "images_jpg_8/frame_001.jpg"%string.
Proof.
  cbn zeta.
  refine (proj2 (thumbnail_shows_the_selected_frame sample_host plain_global plain_settings
                   unit_bbox image_candidates [InputEvent ev_nextTransformFrame]
                   _ None None true true
                   (candidate_at "images/frame_001.png" (Vec3.mk 1 0 0) (Vec3.mk 0 0 (-1)) 60)
                   "images/frame_001.png" _ _ _ _)).
  - vm_compute. reflexivity.
  - vm_compute. reflexivity.
  - reflexivity.
  - discriminate.
Defined.

(** ** The derived image paths *)

Lemma to_lower_slash c : to_lower c = "/"%char -> c = "/"%char.
Proof.
  unfold to_lower. intros H.
  destruct ((65 <=? nat_of_ascii c)%nat && (nat_of_ascii c <=? 90)%nat) eqn:E;
    [|assumption].
  apply andb_true_iff in E as [E1 E2].
  apply Nat.leb_le in E1. apply Nat.leb_le in E2.
  apply (f_equal nat_of_ascii) in H. rewrite nat_ascii_embedding in H by lia.
  cbn in H. lia.
Qed.

Lemma to_lower_keeps_not_slash c : not_slash c = true -> not_slash (to_lower c) = true.
Proof.
  unfold not_slash. intros H. apply negb_true_iff in H. apply negb_true_iff.
  apply Ascii.eqb_neq in H. apply Ascii.eqb_neq. intros E. apply H.
  now apply to_lower_slash.
Qed.

(** A literal that ends in a slash is not found across the border of a
    text and a slash-free text that follows it. *)
Lemma strip_literal_ci_before_slash_free literal : forall p t,
  literal <> [] -> last literal "/"%char = "/"%char -> forallb not_slash t = true ->
  strip_literal_ci literal (p ++ t)
  = option_map (fun rest => rest ++ t) (strip_literal_ci literal p).
Proof.
  induction literal as [|a literal IH]; intros p t Hne Hlast Ht; [congruence|].
  destruct literal as [|b literal].
  - cbn in Hlast. subst a. destruct p as [|c p]; cbn [app strip_literal_ci].
    + destruct t as [|c t]; [reflexivity|]. cbn [forallb] in Ht.
      apply andb_true_iff in Ht as [Hc _]. apply to_lower_keeps_not_slash in Hc.
      unfold not_slash in Hc. apply negb_true_iff in Hc. now rewrite Hc.
    + destruct (Ascii.eqb (to_lower c) "/"); [destruct p; reflexivity|reflexivity].
  - assert (Hlast' : last (b :: literal) "/"%char = "/"%char) by exact Hlast.
    destruct p as [|c p]; cbn [app].
    + destruct t as [|c t]; [reflexivity|].
      change (strip_literal_ci (a :: b :: literal) (c :: t))
        with (if Ascii.eqb (to_lower c) a
              then strip_literal_ci (b :: literal) t else None).
      change (strip_literal_ci (a :: b :: literal) []) with (@None (list ascii)).
      cbn [option_map].
      destruct (Ascii.eqb (to_lower c) a); [|reflexivity].
      cbn [forallb] in Ht. apply andb_true_iff in Ht as [_ Ht].
      assert (H := IH [] t ltac:(discriminate) Hlast' Ht).
      cbn [app] in H. rewrite H. reflexivity.
    + change (strip_literal_ci (a :: b :: literal) (c :: p ++ t))
        with (if Ascii.eqb (to_lower c) a
              then strip_literal_ci (b :: literal) (p ++ t) else None).
      change (strip_literal_ci (a :: b :: literal) (c :: p))
        with (if Ascii.eqb (to_lower c) a
              then strip_literal_ci (b :: literal) p else None).
      destruct (Ascii.eqb (to_lower c) a); [|reflexivity].
      apply IH; (assumption || discriminate).
Qed.

Lemma strip_images_before_slash_free p t :
  forallb not_slash t = true ->
  strip_literal_ci Pip.images_literal (p ++ t)
  = option_map (fun rest => rest ++ t) (strip_literal_ci Pip.images_literal p).
Proof.
  intros Ht. apply strip_literal_ci_before_slash_free;
    [discriminate|reflexivity|assumption].
Qed.

Lemma replace_images_directory_slash_free directory t : forall at_start,
  forallb not_slash t = true ->
  Pip.replace_images_directory directory at_start t = t.
Proof.
  induction t as [|c t IH]; intros at_start Ht.
  - now destruct at_start.
  - pose proof (strip_images_before_slash_free [] (c :: t) Ht) as H0.
    cbn [app] in H0.
    change (strip_literal_ci Pip.images_literal []) with (@None (list ascii)) in H0.
    cbn [option_map] in H0.
    cbn [forallb] in Ht. apply andb_true_iff in Ht as [Hc Ht].
    unfold not_slash in Hc. apply negb_true_iff in Hc.
    cbn [Pip.replace_images_directory]. rewrite H0, Hc.
    destruct at_start; f_equal; now apply IH.
Qed.

(** The replacement of the directory happens before a slash-free tail. *)
Lemma replace_images_directory_app directory p : forall at_start t,
  forallb not_slash t = true ->
  Pip.replace_images_directory directory at_start (p ++ t)
  = Pip.replace_images_directory directory at_start p ++ t.
Proof.
  induction p as [|c p IH]; intros at_start t Ht.
  - cbn [app]. rewrite replace_images_directory_slash_free by assumption.
    now destruct at_start.
  - change ((c :: p) ++ t) with (c :: p ++ t).
    cbn [Pip.replace_images_directory].
    pose proof (strip_images_before_slash_free (c :: p) t Ht) as H0.
    pose proof (strip_images_before_slash_free p t Ht) as H1.
    change ((c :: p) ++ t) with (c :: p ++ t) in H0.
    rewrite H0, H1.
    destruct at_start.
    + destruct (strip_literal_ci Pip.images_literal (c :: p)) as [rest|]; cbn [option_map].
      * now rewrite <- app_assoc.
      * destruct (Ascii.eqb c "/").
        -- destruct (strip_literal_ci Pip.images_literal p) as [rest|]; cbn [option_map].
           ++ cbn [app]. f_equal. now rewrite <- app_assoc.
           ++ cbn [app]. f_equal. now apply IH.
        -- cbn [app]. f_equal. now apply IH.
    + destruct (Ascii.eqb c "/").
      * destruct (strip_literal_ci Pip.images_literal p) as [rest|]; cbn [option_map].
        -- cbn [app]. f_equal. now rewrite <- app_assoc.
        -- cbn [app]. f_equal. now apply IH.
      * cbn [app]. f_equal. now apply IH.
Qed.

(** Before the last dot of a path with an extension, the extension
    pattern does not match; at it, it does. *)
Lemma replace_extension_token x : forall ext,
  ext <> [] -> forallb ext_char ext = true ->
  Pip.replace_extension (x ++ "."%char :: ext) = x ++ list_ascii_of_string ".jpg".
Proof.
  induction x as [|c x IH]; intros ext Hne Hext.
  - cbn [app Pip.replace_extension Pip.extension_here].
    rewrite Ascii.eqb_refl, Hext. now destruct ext.
  - cbn [app Pip.replace_extension].
    assert (Hno : Pip.extension_here (c :: x ++ "."%char :: ext) = false).
    { cbn [Pip.extension_here].
      assert (H : forallb ext_char (x ++ "."%char :: ext) = false).
      { rewrite forallb_app. cbn [forallb]. change (ext_char ".") with false.
        now rewrite andb_false_r. }
      rewrite H. destruct (x ++ "."%char :: ext); now rewrite ?andb_false_r. }
    rewrite Hno. f_equal. now apply IH.
Qed.

Lemma digits_not_slash ds : forallb is_digit ds = true -> forallb not_slash ds = true.
Proof.
  induction ds as [|d ds IH]; cbn [forallb]; [reflexivity|].
  intros H. apply andb_true_iff in H as [Hd Hds]. rewrite IH by assumption.
  rewrite andb_true_r. unfold not_slash. apply negb_true_iff. apply Ascii.eqb_neq.
  intros ->. discriminate Hd.
Qed.

Lemma ext_not_slash e : forallb ext_char e = true -> forallb not_slash e = true.
Proof.
  induction e as [|c e IH]; cbn [forallb]; [reflexivity|].
  intros H. apply andb_true_iff in H as [Hc He]. rewrite IH by assumption.
  rewrite andb_true_r. unfold ext_char in Hc. unfold not_slash.
  apply negb_true_iff in Hc. apply orb_false_iff in Hc as [Hc _].
  apply orb_false_iff in Hc as [_ Hc]. now rewrite Hc.
Qed.

Lemma frame_literal_not_slash lit :
  map to_lower lit = frame_literal -> forallb not_slash lit = true.
Proof.
  intros H.
  destruct lit as [|c1 [|c2 [|c3 [|c4 [|c5 [|c6 [|c7 lit]]]]]]]; try discriminate H.
  cbn in H. injection H as H1 H2 H3 H4 H5 H6.
  cbn [forallb]. unfold not_slash.
  repeat match goal with
         | |- context [Ascii.eqb ?c "/"] =>
             let E := fresh in
             destruct (Ascii.eqb_spec c "/"%char) as [E|E]; [subst c; discriminate|]
         end.
  reflexivity.
Qed.

(** X19.  The images derived for a numbered frame are images of the same
    frame: for a path that ends in [frame_<digits>.<ext>], whatever comes
    before, the derived path is the path with its first [images/] directory
    (at the start or after a slash, in any case) replaced and its extension
    replaced by [.jpg]; the token and its digits are kept, so the derived
    path has the same sort key as the path.  A leading [images/] is replaced
    by the directory asked for. *)
Theorem derived_path_keeps_the_frame_number :
  forall (pre lit ds ext : list ascii) (d : Pip.Directory)
         (id : option Z) (matrix : option MatrixValue) (key : option num),
    map to_lower lit = frame_literal ->
    ds <> [] -> forallb is_digit ds = true ->
    ext <> [] -> forallb ext_char ext = true ->
    let path := string_of_list_ascii (pre ++ lit ++ ds ++ "."%char :: ext) in
    let derived := Pip.toDerivedFramePath path d in
    list_ascii_of_string derived
    = Pip.replace_images_directory (Pip.directory_name d) true pre
      ++ lit ++ ds ++ list_ascii_of_string ".jpg"
    /\ extractFrameSortKey (mkFrame (Some derived) id matrix key)
       = extractFrameSortKey (mkFrame (Some path) id matrix key)
    /\ (forall rest,
          Pip.replace_images_directory (Pip.directory_name d) true
                                       (Pip.images_literal ++ rest)
          = Pip.directory_name d ++ "/"%char :: rest).
Proof.
  intros pre lit ds ext d id matrix key Hlit Hne Hds Hene Hext. cbn zeta.
  assert (Hshape :
    list_ascii_of_string
      (Pip.toDerivedFramePath
         (string_of_list_ascii (pre ++ lit ++ ds ++ "."%char :: ext)) d)
    = Pip.replace_images_directory (Pip.directory_name d) true pre
      ++ lit ++ ds ++ list_ascii_of_string ".jpg").
  { unfold Pip.toDerivedFramePath.
    rewrite list_ascii_of_string_of_list_ascii.
    rewrite list_ascii_of_string_of_list_ascii.
    rewrite replace_images_directory_app.
    - rewrite (app_assoc _ lit), (app_assoc _ ds).
      rewrite replace_extension_token by assumption.
      now rewrite <- !app_assoc.
    - rewrite !forallb_app. cbn [forallb].
      rewrite (frame_literal_not_slash lit Hlit), (digits_not_slash ds Hds),
        (ext_not_slash ext Hext). reflexivity. }
  split; [exact Hshape|]. split.
  - unfold extractFrameSortKey, path_or_empty. cbn [file_path].
    rewrite Hshape, list_ascii_of_string_of_list_ascii.
    rewrite (regex_match_token pre lit ds ext) by assumption.
    change (list_ascii_of_string ".jpg")
      with ("."%char :: list_ascii_of_string "jpg").
    rewrite (regex_match_token _ lit ds (list_ascii_of_string "jpg"))
      by (assumption || discriminate || reflexivity).
    reflexivity.
  - intros rest. destruct d; reflexivity.
Qed.

(** X19 at work: the full image of [images/frame_001.png]. *)
Lemma derived_path_sample :
  Pip.toDerivedFramePath "images/frame_001.png" Pip.images_jpg
  = "images_jpg/frame_001.jpg"%string
  /\ extractFrameSortKey
       (mkFrame (Some (Pip.toDerivedFramePath "images/frame_001.png" Pip.images_jpg))
                None None None)
     = Fin 1.
Proof.
  destruct (derived_path_keeps_the_frame_number
              (list_ascii_of_string "images/") (list_ascii_of_string "frame_")
              (list_ascii_of_string "001") (list_ascii_of_string "png")
              Pip.images_jpg None None None eq_refl)
    as (H1 & H2 & _); try reflexivity; try discriminate.
  split.
  - apply (f_equal string_of_list_ascii) in H1.
    rewrite string_of_list_ascii_of_string in H1. exact H1.
  - refine (eq_trans H2 _). reflexivity.
Defined.

(** ** What the cameras of the dataset depend on *)

Section PoseFacts.
Context {host : Host}.

(** The relation that the sort preserves: the same pose and the same key. *)
Let alike (a b : TransformFrame) : Prop := same_pose a b /\ key_of a = key_of b.

Lemma with_sort_key_alike f g : same_pose f g -> alike (with_sort_key f) (with_sort_key g).
Proof.
  intros (Hp & Ha & Hm & Hc). split.
  - repeat split; try assumption; now apply Hc.
  - cbn [key_of with_sort_key sort_key]. unfold extractFrameSortKey, path_or_empty.
    now rewrite Hp.
Qed.

Lemma compareFrames_alike a b x y :
  alike a b -> alike x y -> compareFrames a x = compareFrames b y.
Proof.
  intros [(Hp & _) Hk] [(Hp' & _) Hk']. unfold compareFrames, path_or_empty.
  now rewrite Hk, Hk', Hp, Hp'.
Qed.

Lemma sort_insert_alike a b l1 l2 :
  alike a b -> Forall2 alike l1 l2 ->
  Forall2 alike (sort_insert compareFrames a l1) (sort_insert compareFrames b l2).
Proof.
  intros Hab H. induction H as [|x y l1 l2 Hxy H IH]; cbn [sort_insert].
  - constructor; [assumption|constructor].
  - rewrite (compareFrames_alike a b x y Hab Hxy).
    destruct (num_positive (compareFrames b y)).
    + constructor; assumption.
    + constructor; [assumption|]. constructor; assumption.
Qed.

Lemma Array_sort_alike l1 l2 :
  Forall2 alike l1 l2 ->
  Forall2 alike (Array_sort compareFrames l1) (Array_sort compareFrames l2).
Proof.
  induction 1 as [|x y l1 l2 Hxy H IH]; cbn [Array_sort]; [constructor|].
  now apply sort_insert_alike.
Qed.

Lemma validTransformFrames_alike frames1 frames2 :
  Forall2 same_pose frames1 frames2 ->
  Forall2 alike (validTransformFrames frames1) (validTransformFrames frames2).
Proof.
  intros H. unfold validTransformFrames. apply Array_sort_alike.
  induction H as [|f g l1 l2 Hfg H IH]; cbn [filter map]; [constructor|].
  pose proof Hfg as (_ & Ha & _). rewrite <- Ha.
  destruct (Array_isArray_rows (transform_matrix f)); cbn [map]; [|assumption].
  constructor; [|assumption]. apply with_sort_key_alike. exact Hfg.
Qed.

Lemma frameToCamera_same_pose f g fov rot :
  same_pose f g -> frameToCamera f fov rot = frameToCamera g fov rot.
Proof.
  intros (_ & _ & Hm & Hc). unfold frameToCamera. rewrite <- Hm.
  destruct (malformed_matrix (transform_matrix f)); [reflexivity|].
  destruct (Hc 0%nat ltac:(lia)) as [-> ->].
  destruct (Hc 1%nat ltac:(lia)) as [-> ->].
  destruct (Hc 2%nat ltac:(lia)) as [-> ->].
  reflexivity.
Qed.

Lemma prepared_cameras_alike fov rot l1 l2 :
  Forall2 alike l1 l2 ->
  map Prepared.camera (filter_map (prepare_frame fov rot) l1)
  = map Prepared.camera (filter_map (prepare_frame fov rot) l2)
  /\ map (fun p => file_path (Prepared.frame p)) (filter_map (prepare_frame fov rot) l1)
     = map (fun p => file_path (Prepared.frame p)) (filter_map (prepare_frame fov rot) l2).
Proof.
  induction 1 as [|f g l1 l2 [Hfg _] H [IH1 IH2]]; cbn [filter_map map]; [now split|].
  assert (Hpf : (prepare_frame fov rot f = None /\ prepare_frame fov rot g = None)
                \/ (exists pf pg,
                      prepare_frame fov rot f = Some pf /\ prepare_frame fov rot g = Some pg
                      /\ Prepared.camera pf = Prepared.camera pg
                      /\ file_path (Prepared.frame pf) = file_path (Prepared.frame pg))).
  { unfold prepare_frame. rewrite (frameToCamera_same_pose f g fov rot Hfg).
    destruct (frameToCamera g fov rot) as [c|]; [right|now left].
    do 2 eexists. repeat split. now destruct Hfg. }
  destruct Hpf as [[-> ->]|(pf & pg & -> & -> & Hc & Hp)]; [now split|].
  cbn [map]. now rewrite IH1, IH2, Hc, Hp.
Qed.

End PoseFacts.

(** X20.  The cameras of the prepared dataset are read from the path, the
    position and the forward axis of each frame and from nothing else: two
    raw datasets whose frames, taken in order, have the same path, answer
    the guards alike and agree on the third and fourth cell of the first
    three rows of their matrices give the same cameras for the same paths in
    the same order.  The right and up axes of a frame (its roll), the
    fourth row and whatever else the matrix holds are not read. *)
Theorem dataset_cameras_ignore_roll :
  forall (host : Host) (frames1 frames2 : list TransformFrame) (fov : float)
         (rot : option Mat4),
    Forall2 same_pose frames1 frames2 ->
    map Prepared.camera (prepareTransformFrames frames1 fov rot)
    = map Prepared.camera (prepareTransformFrames frames2 fov rot)
    /\ map (fun p => file_path (Prepared.frame p)) (prepareTransformFrames frames1 fov rot)
       = map (fun p => file_path (Prepared.frame p)) (prepareTransformFrames frames2 fov rot).
Proof.
  intros host frames1 frames2 fov rot H. unfold prepareTransformFrames.
  apply prepared_cameras_alike. now apply validTransformFrames_alike.
Qed.

(** X20 at work on the sample host: a frame and the same frame rolled a
    quarter turn about its forward axis get the same camera. *)
Lemma dataset_cameras_sample :
  map Prepared.camera
    (prepareTransformFrames (host := sample_host)
       [rolled_frame "frame_001.png" 1 0 0 0 1 0] 60 None)
  = map Prepared.camera
      (prepareTransformFrames (host := sample_host)
         [rolled_frame "frame_001.png" 0 1 0 (-1) 0 0] 60 None).
Proof.
  refine (proj1 (dataset_cameras_ignore_roll sample_host
                   [rolled_frame "frame_001.png" 1 0 0 0 1 0]
                   [rolled_frame "frame_001.png" 0 1 0 (-1) 0 0] 60%float None _)).
  constructor; [|constructor].
  repeat split; destruct i as [|[|[|i]]]; try reflexivity; lia.
Defined.
